(** * Stopwatch firmware (cronometro, PCINT revision): shallow embedding

    The development follows the sketch section by section: the debounced
    button (section 4 of the sketch), the pin-change capture handler and its
    ring buffer (section 5), the stopwatch actions (sections 6 and 10) and
    the polling loop (section 12).

    Conventions.
    - [uint32_t] values are integers in [0, 2^32); every subtraction and
      addition the sketch performs on them is followed by [wrap32].
    - [uint8_t] indices and counters are natural numbers; the only one that
      can overflow ([gPendingClickCount]) is reduced modulo 256.
    - C arrays are lists of their declared length, read with [!!!] and
      written with [<[i:=v]>].
    - [digitalRead], [millis] and [micros] are inputs of the functions that
      call them.  The loop returns the screen it selects; the text of the
      screens, the line cache and the two rows of the display are kept in
      a state of their own ([Lcd]) that runs beside the program ([Panel]).
    - The two pin-change vectors only decode the port bits and call
      [handleSensorEdgeIsr]; in runs of the program an interrupt is that
      call, and the decoding is [ISR_PCINT2_vect] and [ISR_PCINT0_vect].
      [noInterrupts()] ... [interrupts()] sections are single steps. *)

From Stdlib Require Import ZArith Lia ZifyNat Bool List.
From Stdlib Require Ascii String.
From stdpp Require Import base list.
Import Ascii.AsciiSyntax String.StringSyntax.

Local Open Scope Z_scope.
Delimit Scope char_scope with char.
Delimit Scope string_scope with string.

(* ------------------------------------------------------------------ *)
(** ** Fixed-width arithmetic *)

Definition wrap32 (x : Z) : Z := x mod 2 ^ 32.

(** [static inline uint32_t usDiff(uint32_t a, uint32_t b)] *)
Definition usDiff (a b : Z) : Z := wrap32 (a - b).

(* ------------------------------------------------------------------ *)
(** ** System parameters (section 3 of the sketch) *)

Definition kSensorCount : nat := 4.
Definition kDebounceButtonMs : Z := 25.
Definition kLongPressMs : Z := 1200.
Definition kMultiClickGapMs : Z := 350.
Definition kLcdUpdateIntervalMs : Z := 120.
Definition kFinalPopupCycleMs : Z := 1400.
Definition kLapSavedPopupMs : Z := 900.
Definition kMaxLaps : nat := 20.
Definition kMinActivePulseUs : Z := 200.
Definition kSensorRearmUs : Z := 25000.
Definition kSensorActiveLow : bool := true.
Definition kEventBufSize : nat := 16.

(* ------------------------------------------------------------------ *)
(** ** Debounced input (section 4) *)

Record DebouncedInput := mkDebounced {
  debounceMs : Z;
  stableState : bool;
  lastRawState : bool;
  lastChangeMs : Z;
  fellEvent : bool;
  roseEvent : bool
}.

(** [begin(p, dbMs)]: [initial] is the level read from the pin and
    [nowMs] the value of [millis()].  The field [pin] only selects the
    input that [digitalRead] reads and is left out. *)
Definition begin (dbMs : Z) (initial : bool) (nowMs : Z) : DebouncedInput :=
  mkDebounced dbMs initial initial nowMs false false.

(** The first [if] of [update]: a raw change restarts the timer. *)
Definition trackRaw (d : DebouncedInput) (nowMs : Z) (raw : bool)
  : DebouncedInput :=
  if negb (eqb raw (lastRawState d))
  then mkDebounced (debounceMs d) (stableState d) raw nowMs
                   (fellEvent d) (roseEvent d)
  else d.

(** The second [if] of [update]: commit once the raw level has been held. *)
Definition commitStable (d : DebouncedInput) (nowMs : Z) (raw : bool)
  : DebouncedInput :=
  if (debounceMs d <=? wrap32 (nowMs - lastChangeMs d))
     && negb (eqb (stableState d) raw)
  then
    let prev := stableState d in
    mkDebounced (debounceMs d) raw (lastRawState d) (lastChangeMs d)
                (if prev && negb raw then true else fellEvent d)
                (if negb prev && raw then true else roseEvent d)
  else d.

(** [update(nowMs)], with [raw = (digitalRead(pin) == HIGH)]. *)
Definition update (d : DebouncedInput) (nowMs : Z) (raw : bool)
  : DebouncedInput :=
  commitStable (trackRaw d nowMs raw) nowMs raw.

(** [fell()] and [rose()] return the flag and clear it. *)
Definition fell (d : DebouncedInput) : bool * DebouncedInput :=
  (fellEvent d,
   mkDebounced (debounceMs d) (stableState d) (lastRawState d)
               (lastChangeMs d) false (roseEvent d)).

Definition rose (d : DebouncedInput) : bool * DebouncedInput :=
  (roseEvent d,
   mkDebounced (debounceMs d) (stableState d) (lastRawState d)
               (lastChangeMs d) (fellEvent d) false).

Definition isPressed (d : DebouncedInput) : bool := negb (stableState d).

(* ------------------------------------------------------------------ *)
(** ** Sensor capture: event ring buffer (section 5) *)

Record SensorEvent := mkEvent { sensor_id : nat; t_us : Z }.

#[global] Instance SensorEvent_inhabited : Inhabited SensorEvent :=
  populate (mkEvent 0 0).

#[global] Instance SensorEvent_eq_dec : EqDecision SensorEvent.
Proof. solve_decision. Defined.

Record EventQueue := mkQueue {
  gEventBuf : list SensorEvent;
  gEventHead : nat;
  gEventTail : nat
}.

(** [pushEventIsr(sensorId, tUs)] *)
Definition pushEventIsr (sensorId : nat) (tUs : Z) (q : EventQueue)
  : EventQueue :=
  let next := ((gEventHead q + 1) mod kEventBufSize)%nat in
  if decide (next = gEventTail q) then q
  else mkQueue (<[gEventHead q := mkEvent sensorId tUs]> (gEventBuf q))
               next (gEventTail q).

(** [popEvent(out)]: [None] is the [false] return, [Some ev] the [true]
    return with [out = ev]. *)
Definition popEvent (q : EventQueue) : option SensorEvent * EventQueue :=
  if decide (gEventTail q = gEventHead q) then (None, q)
  else (Some (gEventBuf q !!! gEventTail q),
        mkQueue (gEventBuf q) (gEventHead q)
                ((gEventTail q + 1) mod kEventBufSize)%nat).

(** The events waiting in the buffer, oldest first: the slots from
    [gEventTail] up to (excluding) [gEventHead], modulo the buffer size. *)
Definition pending (q : EventQueue) : list SensorEvent :=
  map (fun k => gEventBuf q !!! ((gEventTail q + k) mod kEventBufSize)%nat)
      (seq 0 ((gEventHead q + kEventBufSize - gEventTail q)
              mod kEventBufSize)%nat).

Definition queueWf (q : EventQueue) : Prop :=
  length (gEventBuf q) = kEventBufSize
  /\ (gEventHead q < kEventBufSize)%nat
  /\ (gEventTail q < kEventBufSize)%nat.

(** Producer and consumer operations on the queue, and the events a
    sequence of them hands to the consumer. *)
Inductive QueueOp :=
| QPush (sensorId : nat) (tUs : Z)
| QPop.

Fixpoint runQueue (ops : list QueueOp) (q : EventQueue)
  : list SensorEvent * EventQueue :=
  match ops with
  | [] => ([], q)
  | QPush i t :: ops' => runQueue ops' (pushEventIsr i t q)
  | QPop :: ops' =>
      match popEvent q with
      | (Some e, q') => let (out, qf) := runQueue ops' q' in (e :: out, qf)
      | (None, q') => runQueue ops' q'
      end
  end.

(** The pushes of a sequence that found room, in order. *)
Fixpoint storedPushes (ops : list QueueOp) (q : EventQueue)
  : list SensorEvent :=
  match ops with
  | [] => []
  | QPush i t :: ops' =>
      let q' := pushEventIsr i t q in
      if decide (((gEventHead q + 1) mod kEventBufSize)%nat = gEventTail q)
      then storedPushes ops' q'
      else mkEvent i t :: storedPushes ops' q'
  | QPop :: ops' => storedPushes ops' (snd (popEvent q))
  end.

(* ------------------------------------------------------------------ *)
(** ** Sensor capture: per-sensor state and edge handler (section 5) *)

Record IsrState := mkIsr {
  evq : EventQueue;
  gFallUs : list Z;
  gSawFall : list bool;
  gLastAcceptedUs : list Z
}.

(** [handleSensorEdgeIsr(sensorId, pinIsHigh, nowUs)] *)
Definition handleSensorEdgeIsr (sensorId : nat) (pinIsHigh : bool)
    (nowUs : Z) (st : IsrState) : IsrState :=
  if negb kSensorActiveLow then st
  else if negb pinIsHigh then
    mkIsr (evq st) (<[sensorId := nowUs]> (gFallUs st))
          (<[sensorId := true]> (gSawFall st)) (gLastAcceptedUs st)
  else if negb (gSawFall st !!! sensorId) then st
  else
    let fall := gFallUs st !!! sensorId in
    let sawFall' := <[sensorId := false]> (gSawFall st) in
    let width := usDiff nowUs fall in
    if width <? kMinActivePulseUs then
      mkIsr (evq st) (gFallUs st) sawFall' (gLastAcceptedUs st)
    else
      let sinceLast := usDiff fall (gLastAcceptedUs st !!! sensorId) in
      if sinceLast <? kSensorRearmUs then
        mkIsr (evq st) (gFallUs st) sawFall' (gLastAcceptedUs st)
      else
        mkIsr (pushEventIsr sensorId fall (evq st)) (gFallUs st) sawFall'
              (<[sensorId := fall]> (gLastAcceptedUs st)).

(* ------------------------------------------------------------------ *)
(** ** Stopwatch state and actions (sections 6 and 10) *)

Inductive RunState := IDLE | RUNNING | PAUSED | FINISHED.

#[global] Instance RunState_eq_dec : EqDecision RunState.
Proof. solve_decision. Defined.

Record Stopwatch := mkStopwatch {
  gState : RunState;
  gStartUs : Z;
  gElapsedUs : Z;
  gLapUs : list Z;
  gLapCount : nat;
  gFinalLapIndex : nat;
  gFinalShowDelta : bool;
  gNextFinalPopupMs : Z;
  gLapSavedPopupActive : bool;
  gLapSavedPopupUntilMs : Z;
  gLapSavedIndex : nat
}.

(** [lapDeltaUs(idx)] *)
Definition lapDeltaUs (s : Stopwatch) (idx : nat) : Z :=
  if decide (idx = 0%nat) then gLapUs s !!! 0%nat
  else wrap32 (gLapUs s !!! idx - gLapUs s !!! (idx - 1)%nat).

(** [startOrResumeUs(nowUs)] *)
Definition startOrResumeUs (nowUs : Z) (s : Stopwatch) : Stopwatch :=
  if decide (gState s = FINISHED) then s
  else mkStopwatch RUNNING (wrap32 (nowUs - gElapsedUs s)) (gElapsedUs s)
         (gLapUs s) (gLapCount s) (gFinalLapIndex s) (gFinalShowDelta s)
         (gNextFinalPopupMs s) (gLapSavedPopupActive s)
         (gLapSavedPopupUntilMs s) (gLapSavedIndex s).

(** [pauseUs(nowUs)] *)
Definition pauseUs (nowUs : Z) (s : Stopwatch) : Stopwatch :=
  if decide (gState s <> RUNNING) then s
  else mkStopwatch PAUSED (gStartUs s) (wrap32 (nowUs - gStartUs s))
         (gLapUs s) (gLapCount s) (gFinalLapIndex s) (gFinalShowDelta s)
         (gNextFinalPopupMs s) (gLapSavedPopupActive s)
         (gLapSavedPopupUntilMs s) (gLapSavedIndex s).

(** [togglePauseResumeByDoubleClick(nowUs)] *)
Definition togglePauseResumeByDoubleClick (nowUs : Z) (s : Stopwatch)
  : Stopwatch :=
  match gState s with
  | IDLE => startOrResumeUs nowUs s
  | RUNNING => pauseUs nowUs s
  | PAUSED => startOrResumeUs nowUs s
  | FINISHED => s
  end.

(** [saveLapUs(eventUs, nowMs)] *)
Definition saveLapUs (eventUs nowMs : Z) (s : Stopwatch) : Stopwatch :=
  if decide (gState s <> RUNNING) then s
  else if decide (kMaxLaps <= gLapCount s)%nat then s
  else
    let elapsed := wrap32 (eventUs - gStartUs s) in
    mkStopwatch (gState s) (gStartUs s) (gElapsedUs s)
      (<[gLapCount s := elapsed]> (gLapUs s)) (gLapCount s + 1)%nat
      (gFinalLapIndex s) (gFinalShowDelta s) (gNextFinalPopupMs s)
      true (wrap32 (nowMs + kLapSavedPopupMs)) (gLapCount s).

(** [finishAndShowLaps(nowUs, nowMs)] *)
Definition finishAndShowLaps (nowUs nowMs : Z) (s : Stopwatch) : Stopwatch :=
  let elapsed :=
    if decide (gState s = RUNNING) then wrap32 (nowUs - gStartUs s)
    else gElapsedUs s in
  if decide (gState s = IDLE /\ gLapCount s = 0%nat /\ elapsed = 0) then
    mkStopwatch (gState s) (gStartUs s) elapsed (gLapUs s) (gLapCount s)
      (gFinalLapIndex s) (gFinalShowDelta s) (gNextFinalPopupMs s)
      (gLapSavedPopupActive s) (gLapSavedPopupUntilMs s) (gLapSavedIndex s)
  else
    mkStopwatch FINISHED (gStartUs s) elapsed (gLapUs s) (gLapCount s)
      0%nat false nowMs false (gLapSavedPopupUntilMs s) (gLapSavedIndex s).

(** [processClickSequence(clicks, nowUs, nowMs)] *)
Definition processClickSequence (clicks : nat) (nowUs nowMs : Z)
    (s : Stopwatch) : Stopwatch :=
  match clicks with
  | 1%nat => saveLapUs nowUs nowMs s
  | 2%nat => togglePauseResumeByDoubleClick nowUs s
  | 3%nat => finishAndShowLaps nowUs nowMs s
  | _ => s
  end.

(* ------------------------------------------------------------------ *)
(** ** Whole-program state, reset and the polling loop (sections 7, 10, 12) *)

Record Firmware := mkFirmware {
  isr : IsrState;
  sw : Stopwatch;
  inBtnControl : DebouncedInput;
  gBtnPressStartMs : Z;
  gLongPressHandled : bool;
  gPendingClickCount : nat;
  gClickSequenceDeadlineMs : Z;
  gLastLcdUpdateMs : Z
}.

Definition resetStopwatch : Stopwatch :=
  mkStopwatch IDLE 0 0 (replicate kMaxLaps 0) 0%nat 0%nat false 0 false 0
              0%nat.

Definition resetIsr : IsrState :=
  mkIsr (mkQueue (replicate kEventBufSize (mkEvent 0 0)) 0 0)
        (replicate kSensorCount 0) (replicate kSensorCount false)
        (replicate kSensorCount 0).

(** The part of [resetAll] that runs with interrupts masked: head and tail
    are zeroed (the slots keep their old contents) and the three per-sensor
    arrays are cleared. *)
Definition clearIsr (st : IsrState) : IsrState :=
  mkIsr (mkQueue (gEventBuf (evq st)) 0 0)
        (replicate kSensorCount 0) (replicate kSensorCount false)
        (replicate kSensorCount 0).

(** [resetAll()].  The LCD cache and the port snapshots [gPrevPIND] and
    [gPrevPINB] are not part of the model. *)
Definition resetAll (f : Firmware) : Firmware :=
  mkFirmware (clearIsr (isr f)) resetStopwatch (inBtnControl f) 0 false
             0%nat 0 (gLastLcdUpdateMs f).

(** Body of the [while (popEvent(ev))] loop of step A. *)
Definition dispatchSensorEvent (ev : SensorEvent) (nowMs : Z)
    (s : Stopwatch) : Stopwatch :=
  if decide (sensor_id ev = 0%nat) then startOrResumeUs (t_us ev) s
  else saveLapUs (t_us ev) nowMs s.

(** Step A: the [while] loop, unrolled at most [fuel] times. *)
Fixpoint drainEvents (fuel : nat) (nowMs : Z) (q : EventQueue)
    (s : Stopwatch) : EventQueue * Stopwatch :=
  match fuel with
  | O => (q, s)
  | S fuel' =>
      match popEvent q with
      | (None, q') => (q', s)
      | (Some ev, q') =>
          drainEvents fuel' nowMs q' (dispatchSensorEvent ev nowMs s)
      end
  end.

Definition loopSensors (nowMs : Z) (f : Firmware) : Firmware :=
  let (q, s) := drainEvents kEventBufSize nowMs (evq (isr f)) (sw f) in
  mkFirmware (mkIsr q (gFallUs (isr f)) (gSawFall (isr f))
                    (gLastAcceptedUs (isr f)))
             s (inBtnControl f) (gBtnPressStartMs f) (gLongPressHandled f)
             (gPendingClickCount f) (gClickSequenceDeadlineMs f)
             (gLastLcdUpdateMs f).

(** Step B, first statements: [inBtnControl.update(nowMs)] and
    [if (inBtnControl.fell()) ...]. *)
Definition btnUpdateFell (nowMs : Z) (raw : bool) (f : Firmware) : Firmware :=
  let (e, d) := fell (update (inBtnControl f) nowMs raw) in
  mkFirmware (isr f) (sw f) d
             (if e then nowMs else gBtnPressStartMs f)
             (if e then false else gLongPressHandled f)
             (gPendingClickCount f) (gClickSequenceDeadlineMs f)
             (gLastLcdUpdateMs f).

(** Step B: long press resets everything. *)
Definition btnLongPress (nowMs : Z) (f : Firmware) : Firmware :=
  if isPressed (inBtnControl f) && negb (gLongPressHandled f)
     && (kLongPressMs <=? wrap32 (nowMs - gBtnPressStartMs f))
  then
    let f' := resetAll f in
    mkFirmware (isr f') (sw f') (inBtnControl f') (gBtnPressStartMs f')
               true 0%nat 0 (gLastLcdUpdateMs f')
  else f.

(** Step B: a release counts one short click. *)
Definition btnRose (nowMs : Z) (f : Firmware) : Firmware :=
  let (e, d) := rose (inBtnControl f) in
  if e && negb (gLongPressHandled f) then
    mkFirmware (isr f) (sw f) d (gBtnPressStartMs f) (gLongPressHandled f)
               ((gPendingClickCount f + 1) mod 256)%nat
               (wrap32 (nowMs + kMultiClickGapMs)) (gLastLcdUpdateMs f)
  else
    mkFirmware (isr f) (sw f) d (gBtnPressStartMs f) (gLongPressHandled f)
               (gPendingClickCount f) (gClickSequenceDeadlineMs f)
               (gLastLcdUpdateMs f).

(** Step B: the click window expired. *)
Definition btnResolve (nowMs nowUs : Z) (f : Firmware) : Firmware :=
  if (0 <? gPendingClickCount f)%nat && negb (isPressed (inBtnControl f))
     && (gClickSequenceDeadlineMs f <=? nowMs)
  then
    mkFirmware (isr f)
               (processClickSequence (gPendingClickCount f) nowUs nowMs (sw f))
               (inBtnControl f) (gBtnPressStartMs f) (gLongPressHandled f)
               0%nat 0 (gLastLcdUpdateMs f)
  else f.

Definition loopButton (nowMs nowUs : Z) (raw : bool) (f : Firmware)
  : Firmware :=
  btnResolve nowMs nowUs
    (btnRose nowMs (btnLongPress nowMs (btnUpdateFell nowMs raw f))).

(** Step C: live elapsed time while running. *)
Definition refreshElapsed (nowUs : Z) (s : Stopwatch) : Stopwatch :=
  if decide (gState s = RUNNING) then
    mkStopwatch (gState s) (gStartUs s) (wrap32 (nowUs - gStartUs s))
      (gLapUs s) (gLapCount s) (gFinalLapIndex s) (gFinalShowDelta s)
      (gNextFinalPopupMs s) (gLapSavedPopupActive s)
      (gLapSavedPopupUntilMs s) (gLapSavedIndex s)
  else s.

Definition loopElapsed (nowUs : Z) (f : Firmware) : Firmware :=
  mkFirmware (isr f) (refreshElapsed nowUs (sw f)) (inBtnControl f)
             (gBtnPressStartMs f) (gLongPressHandled f)
             (gPendingClickCount f) (gClickSequenceDeadlineMs f)
             (gLastLcdUpdateMs f).

(** What step D sends to the display. *)
Inductive Screen :=
| NoRender
| MainScreen (elapsedUs : Z)
| LapSavedPopup (lapIndex : nat)
| FinalLapPopup (lapIndex : nat) (showDelta : bool).

Definition withDisplay (f : Firmware) (lastLcd : Z) (s : Stopwatch)
  : Firmware :=
  mkFirmware (isr f) s (inBtnControl f) (gBtnPressStartMs f)
             (gLongPressHandled f) (gPendingClickCount f)
             (gClickSequenceDeadlineMs f) lastLcd.

(** Step D: rate-limited display update and popup timing. *)
Definition loopDisplay (nowMs : Z) (f : Firmware) : Firmware * Screen :=
  if wrap32 (nowMs - gLastLcdUpdateMs f) <? kLcdUpdateIntervalMs
  then (f, NoRender)
  else
    let s := sw f in
    if decide (gState s = FINISHED) then
      if decide (gLapCount s = 0%nat)
      then (withDisplay f nowMs s, MainScreen (gElapsedUs s))
      else if gNextFinalPopupMs s <=? nowMs then
        let next := ((gFinalLapIndex s + 1) mod 256)%nat in
        let idx' :=
          if gFinalShowDelta s
          then (if decide (gLapCount s <= next)%nat then 0%nat else next)
          else gFinalLapIndex s in
        (withDisplay f nowMs
           (mkStopwatch (gState s) (gStartUs s) (gElapsedUs s) (gLapUs s)
              (gLapCount s) idx' (negb (gFinalShowDelta s))
              (wrap32 (nowMs + kFinalPopupCycleMs))
              (gLapSavedPopupActive s) (gLapSavedPopupUntilMs s)
              (gLapSavedIndex s)),
         FinalLapPopup (gFinalLapIndex s) (gFinalShowDelta s))
      else (withDisplay f nowMs s, NoRender)
    else if gLapSavedPopupActive s then
      if gLapSavedPopupUntilMs s <=? nowMs then
        (withDisplay f nowMs
           (mkStopwatch (gState s) (gStartUs s) (gElapsedUs s) (gLapUs s)
              (gLapCount s) (gFinalLapIndex s) (gFinalShowDelta s)
              (gNextFinalPopupMs s) false
              (gLapSavedPopupUntilMs s) (gLapSavedIndex s)),
         MainScreen (gElapsedUs s))
      else (withDisplay f nowMs s, LapSavedPopup (gLapSavedIndex s))
    else (withDisplay f nowMs s, MainScreen (gElapsedUs s)).

(** One iteration of [loop()]: [nowMs = millis()], [nowUs = micros()] and
    [raw] is the button level read by [update]. *)
Definition loop (nowMs nowUs : Z) (raw : bool) (f : Firmware)
  : Firmware * Screen :=
  loopDisplay nowMs
    (loopElapsed nowUs (loopButton nowMs nowUs raw (loopSensors nowMs f))).

(* ------------------------------------------------------------------ *)
(** ** Runs of stopwatch actions *)

(** Successive [saveLapUs] calls, one per [(eventUs, nowMs)] pair. *)
Definition recordLaps (evs : list (Z * Z)) (s : Stopwatch) : Stopwatch :=
  fold_left (fun acc ev => saveLapUs (fst ev) (snd ev) acc) evs s.

(* ------------------------------------------------------------------ *)
(** ** Runs of the capture handler *)

(** One invocation of [handleSensorEdgeIsr] by a pin-change vector. *)
Record IsrEdge := mkEdge {
  edgeSensor : nat;
  edgeHigh : bool;
  edgeUs : Z
}.

Definition handleEdge (e : IsrEdge) (st : IsrState) : IsrState :=
  handleSensorEdgeIsr (edgeSensor e) (edgeHigh e) (edgeUs e) st.

Definition runEdges (edges : list IsrEdge) (st : IsrState) : IsrState :=
  fold_left (fun acc e => handleEdge e acc) edges st.

(** The arrays have their declared sizes. *)
Definition isrWf (st : IsrState) : Prop :=
  queueWf (evq st)
  /\ length (gFallUs st) = kSensorCount
  /\ length (gSawFall st) = kSensorCount
  /\ length (gLastAcceptedUs st) = kSensorCount.

(** An edge is an accepted detection when the handler reaches its last
    two statements; this is visible as a change of [gLastAcceptedUs], and
    the accepted event carries the value stored there. *)
Definition acceptedAt (e : IsrEdge) (st : IsrState) : option SensorEvent :=
  let st' := handleEdge e st in
  if decide (gLastAcceptedUs st' = gLastAcceptedUs st) then None
  else Some (mkEvent (edgeSensor e) (gLastAcceptedUs st' !!! edgeSensor e)).

(** The accepted detections of a run, in order. *)
Fixpoint acceptedLog (edges : list IsrEdge) (st : IsrState)
  : list SensorEvent :=
  match edges with
  | [] => []
  | e :: edges' =>
      match acceptedAt e st with
      | Some ev => ev :: acceptedLog edges' (handleEdge e st)
      | None => acceptedLog edges' (handleEdge e st)
      end
  end.

(** Fall timestamps of the accepted detections of one sensor. *)
Definition acceptedTimes (sensorId : nat) (log : list SensorEvent) : list Z :=
  map t_us (filter (fun ev => sensor_id ev = sensorId) log).

(** Interleaving of the interrupt handler with [popEvent] calls of the
    polling loop; the result lists the events handed to the loop. *)
Inductive IsrAction :=
| AEdge (e : IsrEdge)
| APop.

Fixpoint runIsr (acts : list IsrAction) (st : IsrState)
  : list SensorEvent * IsrState :=
  match acts with
  | [] => ([], st)
  | AEdge e :: acts' => runIsr acts' (handleEdge e st)
  | APop :: acts' =>
      let (o, q) := popEvent (evq st) in
      let st' := mkIsr q (gFallUs st) (gSawFall st) (gLastAcceptedUs st) in
      match o with
      | Some ev => let (out, stf) := runIsr acts' st' in (ev :: out, stf)
      | None => runIsr acts' st'
      end
  end.

(** Every timestamp of [ts] is at least [kSensorRearmUs] (in 32-bit
    arithmetic) after the one before it, the first one after [prev]. *)
Fixpoint spacedFrom (prev : Z) (ts : list Z) : Prop :=
  match ts with
  | [] => True
  | t :: ts' => kSensorRearmUs <= usDiff t prev /\ spacedFrom t ts'
  end.

(* ------------------------------------------------------------------ *)
(** ** Runs of the debounced input *)

(** A poll is one call of [update]: the time it happens at and the level
    read from the pin.  Times are counted without wrap-around; the code
    sees them through [wrap32], as [millis()] delivers them. *)
Definition Poll : Type := Z * bool.

Definition pollUpdate (d : DebouncedInput) (p : Poll) : DebouncedInput :=
  update d (wrap32 (fst p)) (snd p).

Definition runPolls (polls : list Poll) (d : DebouncedInput)
  : DebouncedInput :=
  fold_left pollUpdate polls d.

(** Number of polls at which [stableState] changes. *)
Fixpoint commits (d : DebouncedInput) (polls : list Poll) : nat :=
  match polls with
  | [] => 0%nat
  | p :: rest =>
      ((if eqb (stableState (pollUpdate d p)) (stableState d)
        then 0 else 1)
       + commits (pollUpdate d p) rest)%nat
  end.

(** Poll times never decrease, starting not before [t]. *)
Fixpoint timesFrom (t : Z) (polls : list Poll) : Prop :=
  match polls with
  | [] => True
  | p :: rest => t <= fst p /\ timesFrom (fst p) rest
  end.

(** Each poll whose reading differs from the previous reading comes less
    than [gap] after the last such poll ([lastChange], when there was
    one). *)
Fixpoint closeChanges (gap : Z) (lastRaw : bool) (lastChange : option Z)
    (polls : list Poll) : Prop :=
  match polls with
  | [] => True
  | p :: rest =>
      if eqb (snd p) lastRaw then closeChanges gap lastRaw lastChange rest
      else
        match lastChange with
        | Some c => fst p - c < gap
        | None => True
        end
        /\ closeChanges gap (snd p) (Some (fst p)) rest
  end.

(** The history of readings ends with a run of readings at [level], the
    first of them taken at time [t]. *)
Definition heldSince (hist : list Poll) (level : bool) (t : Z) : Prop :=
  exists older held,
    hist = older ++ (t, level) :: held
    /\ Forall (fun p : Poll => snd p = level) held.

(* ------------------------------------------------------------------ *)
(** ** Runs of the whole program *)

(** State after [setup()]: zero-initialised globals, the button read
    once by [begin], then [resetAll]. *)
Definition bootFirmware (initial : bool) (nowMs : Z) : Firmware :=
  resetAll (mkFirmware resetIsr resetStopwatch
                       (begin kDebounceButtonMs initial nowMs)
                       0 false 0%nat 0 0).

(** The program advances by pin-change interrupts and loop iterations. *)
Inductive FwAction :=
| FwEdge (e : IsrEdge)
| FwLoop (nowMs nowUs : Z) (raw : bool).

Definition stepFirmware (f : Firmware) (a : FwAction) : Firmware :=
  match a with
  | FwEdge e =>
      mkFirmware (handleEdge e (isr f)) (sw f) (inBtnControl f)
                 (gBtnPressStartMs f) (gLongPressHandled f)
                 (gPendingClickCount f) (gClickSequenceDeadlineMs f)
                 (gLastLcdUpdateMs f)
  | FwLoop nowMs nowUs raw => fst (loop nowMs nowUs raw f)
  end.

Definition runFirmware (acts : list FwAction) (f : Firmware) : Firmware :=
  fold_left stepFirmware acts f.

(** The stored laps never decrease. *)
Definition lapsSorted (s : Stopwatch) : Prop :=
  forall i j, (i <= j)%nat -> (j < gLapCount s)%nat ->
              gLapUs s !!! i <= gLapUs s !!! j.

(** The calls the loop makes on the stopwatch, each with the time it
    passes (counted without wrap-around; the code receives it through
    [wrap32]).  [SwStart] is the sensor-0 event, [SwToggle] the double
    click, [SwLap] a lap from a sensor or from a single click, [SwFinish]
    the triple click, [SwTick] step C and [SwReset] the long press. *)
Inductive SwAction :=
| SwStart (t : Z)
| SwToggle (t : Z)
| SwPause (t : Z)
| SwLap (t nowMs : Z)
| SwFinish (t nowMs : Z)
| SwTick (t : Z)
| SwReset.

Definition applySw (s : Stopwatch) (a : SwAction) : Stopwatch :=
  match a with
  | SwStart t => startOrResumeUs (wrap32 t) s
  | SwToggle t => togglePauseResumeByDoubleClick (wrap32 t) s
  | SwPause t => pauseUs (wrap32 t) s
  | SwLap t nowMs => saveLapUs (wrap32 t) nowMs s
  | SwFinish t nowMs => finishAndShowLaps (wrap32 t) nowMs s
  | SwTick t => refreshElapsed (wrap32 t) s
  | SwReset => resetStopwatch
  end.

Definition runSw (acts : list SwAction) (s : Stopwatch) : Stopwatch :=
  fold_left applySw acts s.




(** Sensor 0 starts the run; then the beams of sensors 1 and 2 are cut
    with overlapping pulses, sensor 1 first, sensor 2 released first.  All
    timestamps are in chronological order. *)
Definition overlappingPulses : list FwAction :=
  [FwEdge (mkEdge 0 false 30000); FwEdge (mkEdge 0 true 31000);
   FwLoop 40 40000 true;
   FwEdge (mkEdge 1 false 100000); FwEdge (mkEdge 2 false 101000);
   FwEdge (mkEdge 2 true 102000); FwEdge (mkEdge 1 true 103000);
   FwLoop 110 110000 true].

(** [micros()] at a given [millis()] time. *)
Definition usOf (ms : Z) : Z := wrap32 (ms * 1000).

Definition loopAt (ms : Z) (raw : bool) : FwAction :=
  FwLoop (wrap32 ms) (usOf ms) raw.

(** A pulse on sensor 0 starts the stopwatch, then the button is clicked
    twice, 100 ms apart, and left alone; [base] is the time in ms of the
    beginning of the sequence. *)
Definition doubleClickAt (base : Z) : list FwAction :=
  [FwEdge (mkEdge 0 false (usOf (base + 1)));
   FwEdge (mkEdge 0 true (usOf (base + 2)));
   loopAt (base + 10) true;
   loopAt (base + 100) false; loopAt (base + 130) false;
   loopAt (base + 200) true; loopAt (base + 230) true;
   loopAt (base + 300) false; loopAt (base + 330) false;
   loopAt (base + 400) true; loopAt (base + 430) true;
   loopAt (base + 800) true].

(** The same with three clicks. *)
Definition tripleClickAt (base : Z) : list FwAction :=
  [FwEdge (mkEdge 0 false (usOf (base + 1)));
   FwEdge (mkEdge 0 true (usOf (base + 2)));
   loopAt (base + 10) true;
   loopAt (base + 100) false; loopAt (base + 130) false;
   loopAt (base + 200) true; loopAt (base + 230) true;
   loopAt (base + 300) false; loopAt (base + 330) false;
   loopAt (base + 400) true; loopAt (base + 430) true;
   loopAt (base + 500) false; loopAt (base + 530) false;
   loopAt (base + 600) true; loopAt (base + 630) true;
   loopAt (base + 1000) true].

(** A pulse on sensor 0 starts the stopwatch and a pulse on sensor 1
    marks a lap; the result is what the loop iteration that stores the lap
    sends to the display. *)
Definition lapScreenAt (base : Z) : Screen :=
  snd (loop (wrap32 (base + 200)) (usOf (base + 200)) true
         (runFirmware
            [FwEdge (mkEdge 0 false (usOf (base + 1)));
             FwEdge (mkEdge 0 true (usOf (base + 2)));
             loopAt (base + 10) true;
             FwEdge (mkEdge 1 false (usOf (base + 150)));
             FwEdge (mkEdge 1 true (usOf (base + 151)))]
            (bootFirmware true (wrap32 base)))).

(* ------------------------------------------------------------------ *)
(** ** Runs of the button decoder *)

(** One loop iteration as step B sees it: [millis()], [micros()] and the
    raw button level. *)
Definition Iter : Type := Z * Z * bool.

Definition iterMs (it : Iter) : Z := fst (fst it).
Definition iterUs (it : Iter) : Z := snd (fst it).
Definition iterRaw (it : Iter) : bool := snd it.

Definition stepButton (f : Firmware) (it : Iter) : Firmware :=
  loopButton (iterMs it) (iterUs it) (iterRaw it) f.

Definition runButton (iters : list Iter) (f : Firmware) : Firmware :=
  fold_left stepButton iters f.

(** What the debounced button shows in an iteration: nothing new while
    released, a press, nothing new while pressed, or a release. *)
Inductive BtnPhase := BtnQuiet | BtnPress | BtnHeld | BtnRelease.

Definition btnPhase (f : Firmware) (it : Iter) : option BtnPhase :=
  let d := update (inBtnControl f) (iterMs it) (iterRaw it) in
  match fellEvent d, roseEvent d, isPressed d with
  | false, false, false => Some BtnQuiet
  | true, false, true => Some BtnPress
  | false, false, true => Some BtnHeld
  | false, true, false => Some BtnRelease
  | _, _, _ => None
  end.

(** Where a sequence of short clicks stands: button up after [clicks]
    clicks, the last one released at [released]; or button down since
    [pressed], with [clicks] clicks before. *)
Inductive ClickPos :=
| Up (clicks : nat) (released : option Z)
| Down (clicks : nat) (pressed : Z).

(** One iteration of a sequence of short clicks: while the button is up
    the gap after the last release has not run out; while it is down it
    has been held for less than the long-press time; a release happens
    far enough from the wrap-around of [millis()] for the deadline not to
    wrap. *)
Definition clickStep (pos : ClickPos) (f : Firmware) (it : Iter)
  : option ClickPos :=
  match pos, btnPhase f it with
  | Up k r, Some BtnQuiet =>
      match r with
      | Some R =>
          if iterMs it <? R + kMultiClickGapMs then Some pos else None
      | None => Some pos
      end
  | Up k r, Some BtnPress => Some (Down k (iterMs it))
  | Down k p, Some BtnHeld =>
      if wrap32 (iterMs it - p) <? kLongPressMs then Some pos else None
  | Down k p, Some BtnRelease =>
      if (0 <=? iterMs it) && (iterMs it + kMultiClickGapMs <? 2 ^ 32)
      then Some (Up (S k) (Some (iterMs it))) else None
  | _, _ => None
  end.

Fixpoint clicking (pos : ClickPos) (f : Firmware) (iters : list Iter)
  : option ClickPos :=
  match iters with
  | [] => Some pos
  | it :: rest =>
      match clickStep pos f it with
      | Some pos' => clicking pos' (stepButton f it) rest
      | None => None
      end
  end.

(** The decoder state that goes with a position, for a stopwatch [s0]
    that no click has reached yet. *)
Definition clickInv (s0 : Stopwatch) (pos : ClickPos) (f : Firmware) : Prop :=
  sw f = s0
  /\ match pos with
     | Up k r =>
         gPendingClickCount f = (k mod 256)%nat
         /\ match r with
            | Some R => gClickSequenceDeadlineMs f = R + kMultiClickGapMs
            | None => k = 0%nat
            end
     | Down k p =>
         gPendingClickCount f = (k mod 256)%nat
         /\ gBtnPressStartMs f = p
         /\ gLongPressHandled f = false
     end.

(** Three clicks of 100 ms, 100 ms apart, polled with the debounce delay
    in between, then one quiet iteration. *)
Definition tripleClick : list Iter :=
  [(1000, 1000000, false); (1030, 1030000, false);
   (1100, 1100000, true); (1130, 1130000, true);
   (1200, 1200000, false); (1230, 1230000, false);
   (1300, 1300000, true); (1330, 1330000, true);
   (1400, 1400000, false); (1430, 1430000, false);
   (1500, 1500000, true); (1530, 1530000, true);
   (1600, 1600000, true)].

(** The stopwatch started by a pulse on sensor 0 after boot. *)
Definition runningFirmware : Firmware :=
  runFirmware [FwEdge (mkEdge 0 false 30000); FwEdge (mkEdge 0 true 31000);
               FwLoop 40 40000 true] (bootFirmware true 0).

(** A firmware state with an event waiting in the queue and a fall
    recorded on sensor 2, as [resetAll] may find it. *)
Definition busyFirmware : Firmware :=
  mkFirmware (runEdges [mkEdge 1 false 100000; mkEdge 1 true 101000;
                        mkEdge 2 false 102000] resetIsr)
             resetStopwatch (begin kDebounceButtonMs true 0) 0 false 0%nat
             0 0.

(** After the reset: the pulse begun on sensor 2 ends, a new pulse is
    seen on sensor 3, and the loop pops twice. *)
Definition afterReset : list IsrAction :=
  [AEdge (mkEdge 2 true 103000); AEdge (mkEdge 3 false 200000);
   AEdge (mkEdge 3 true 201000); APop; APop].

(* ------------------------------------------------------------------ *)
(** ** Whole-program invariants *)

(** Every index the program keeps into the lap table is in bounds, and
    an idle stopwatch is a freshly reset one. *)
Definition swBounds (s : Stopwatch) : Prop :=
  length (gLapUs s) = kMaxLaps
  /\ (gLapCount s <= kMaxLaps)%nat
  /\ (gLapSavedPopupActive s = true -> (gLapSavedIndex s < gLapCount s)%nat)
  /\ (gState s = FINISHED -> (0 < gLapCount s)%nat ->
      (gFinalLapIndex s < gLapCount s)%nat)
  /\ (gState s = IDLE -> s = resetStopwatch).

Definition fwInv (f : Firmware) : Prop :=
  isrWf (isr f) /\ swBounds (sw f).

Definition fwActionInRange (a : FwAction) : Prop :=
  match a with
  | FwEdge e => (edgeSensor e < kSensorCount)%nat
  | FwLoop _ _ _ => True
  end.

(** The lap a screen reads from [gLapUs], if any. *)
Definition screenLap (sc : Screen) : option nat :=
  match sc with
  | LapSavedPopup i => Some i
  | FinalLapPopup i _ => Some i
  | _ => None
  end.

(** Sum of the lap deltas [lapDeltaUs 0 .. lapDeltaUs (n-1)]. *)
Fixpoint sumDeltas (s : Stopwatch) (n : nat) : Z :=
  match n with
  | O => 0
  | S k => sumDeltas s k + lapDeltaUs s k
  end.

Definition isSwReset (a : SwAction) : bool :=
  match a with SwReset => true | _ => false end.

(** Two capture states agree on the three slots of sensor [id]. *)
Definition sameSlots (id : nat) (st1 st2 : IsrState) : Prop :=
  gFallUs st1 !!! id = gFallUs st2 !!! id
  /\ gSawFall st1 !!! id = gSawFall st2 !!! id
  /\ gLastAcceptedUs st1 !!! id = gLastAcceptedUs st2 !!! id.

(* ------------------------------------------------------------------ *)
(** ** Pin-change interrupt vectors (section 5) *)

(** Snapshots of the two input ports, kept to find out which pin
    changed. *)
Record Ports := mkPorts { gPrevPIND : Z; gPrevPINB : Z }.

(** [_BV(bit)] of avr-libc. *)
Definition _BV (bit : Z) : Z := Z.shiftl 1 bit.

(** One [if (changed & _BV(bit)) { ... handleSensorEdgeIsr(...) }] block
    of a vector. *)
Definition vectorPin (sensorId : nat) (bit : Z) (cur changed nowUs : Z)
    (st : IsrState) : IsrState :=
  if Z.land changed (_BV bit) =? 0 then st
  else handleSensorEdgeIsr sensorId (negb (Z.land cur (_BV bit) =? 0))
                           nowUs st.

(** [ISR(PCINT2_vect)]: pins 5, 6, 7 of port D are sensors 0, 1, 2.
    [PIND] is the port as read by the vector and [nowUs] is [micros()]. *)
Definition ISR_PCINT2_vect (PIND nowUs : Z) (c : IsrState * Ports)
  : IsrState * Ports :=
  let cur := PIND in
  let changed := Z.lxor cur (gPrevPIND (snd c)) mod 2 ^ 8 in
  (vectorPin 2 7 cur changed nowUs
     (vectorPin 1 6 cur changed nowUs
        (vectorPin 0 5 cur changed nowUs (fst c))),
   mkPorts cur (gPrevPINB (snd c))).

(** [ISR(PCINT0_vect)]: pin 8 is bit 0 of port B, sensor 3. *)
Definition ISR_PCINT0_vect (PINB nowUs : Z) (c : IsrState * Ports)
  : IsrState * Ports :=
  let cur := PINB in
  let changed := Z.lxor cur (gPrevPINB (snd c)) mod 2 ^ 8 in
  (vectorPin 3 0 cur changed nowUs (fst c),
   mkPorts (gPrevPIND (snd c)) cur).

(** A pin-change interrupt, with the port value and the time it reads. *)
Inductive PortIrq :=
| IrqD (PIND nowUs : Z)
| IrqB (PINB nowUs : Z).

Definition stepVector (c : IsrState * Ports) (irq : PortIrq)
  : IsrState * Ports :=
  match irq with
  | IrqD v t => ISR_PCINT2_vect v t c
  | IrqB v t => ISR_PCINT0_vect v t c
  end.

Definition runVectors (irqs : list PortIrq) (c : IsrState * Ports)
  : IsrState * Ports :=
  fold_left stepVector irqs c.

(** The edge a pin produces when its bit differs between two port
    values. *)
Definition pinEdge (sensorId : nat) (bit cur prev nowUs : Z)
  : list IsrEdge :=
  if eqb (Z.testbit cur bit) (Z.testbit prev bit) then []
  else [mkEdge sensorId (Z.testbit cur bit) nowUs].

Definition irqEdges (p : Ports) (irq : PortIrq) : list IsrEdge :=
  match irq with
  | IrqD v t =>
      pinEdge 0 5 v (gPrevPIND p) t ++ pinEdge 1 6 v (gPrevPIND p) t
      ++ pinEdge 2 7 v (gPrevPIND p) t
  | IrqB v t => pinEdge 3 0 v (gPrevPINB p) t
  end.

Definition irqPorts (p : Ports) (irq : PortIrq) : Ports :=
  match irq with
  | IrqD v _ => mkPorts v (gPrevPINB p)
  | IrqB v _ => mkPorts (gPrevPIND p) v
  end.

(** The handler calls a sequence of interrupts amounts to. *)
Fixpoint vectorEdges (irqs : list PortIrq) (p : Ports) : list IsrEdge :=
  match irqs with
  | [] => []
  | irq :: rest => irqEdges p irq ++ vectorEdges rest (irqPorts p irq)
  end.

(** The level of a sensor's pin in the port snapshots. *)
Definition sensorLevel (sensorId : nat) (p : Ports) : bool :=
  match sensorId with
  | 0%nat => Z.testbit (gPrevPIND p) 5
  | 1%nat => Z.testbit (gPrevPIND p) 6
  | 2%nat => Z.testbit (gPrevPIND p) 7
  | _ => Z.testbit (gPrevPINB p) 0
  end.

(** Each level is the opposite of the one before it, the first one the
    opposite of [lvl]. *)
Fixpoint alternating (lvl : bool) (levels : list bool) : Prop :=
  match levels with
  | [] => True
  | l :: rest => l = negb lvl /\ alternating l rest
  end.

(** Two capture states that differ at most in buffer slots holding no
    waiting event. *)
Definition isrSim (st1 st2 : IsrState) : Prop :=
  isrWf st1 /\ isrWf st2
  /\ gEventHead (evq st1) = gEventHead (evq st2)
  /\ gEventTail (evq st1) = gEventTail (evq st2)
  /\ pending (evq st1) = pending (evq st2)
  /\ gFallUs st1 = gFallUs st2
  /\ gSawFall st1 = gSawFall st2
  /\ gLastAcceptedUs st1 = gLastAcceptedUs st2.

(** Both one-shot flags of the debounced input have been consumed, as
    they are at the end of every step B. *)
Definition flagsClear (d : DebouncedInput) : Prop :=
  fellEvent d = false /\ roseEvent d = false.

(** What step B leaves alone while no click is resolved. *)
Definition sameOutside (f g : Firmware) : Prop :=
  isr g = isr f /\ sw g = sw f
  /\ gPendingClickCount g = gPendingClickCount f
  /\ gClickSequenceDeadlineMs g = gClickSequenceDeadlineMs f
  /\ gLongPressHandled g = gLongPressHandled f.

(** The button held down for 1300 ms with two clicks pending, as a long
    press finds it. *)
Definition heldFirmware : Firmware :=
  mkFirmware (isr busyFirmware) (sw runningFirmware)
             (mkDebounced kDebounceButtonMs false false 5000 false false)
             5025 false 2%nat 4900 0.

(** After a long press was handled, and until the button is pressed
    again, step B changes nothing. *)
Definition quietAfterLong (f0 f : Firmware) : Prop :=
  flagsClear (inBtnControl f)
  /\ gLongPressHandled f = true
  /\ gPendingClickCount f = 0%nat
  /\ isr f = isr f0 /\ sw f = sw f0.

(* ------------------------------------------------------------------ *)
(** ** Moving a run in time *)

(** A 32-bit timestamp [k] ticks later. *)
Definition shiftT (k x : Z) : Z := wrap32 (x + k).



Definition shiftEvent (k : Z) (ev : SensorEvent) : SensorEvent :=
  mkEvent (sensor_id ev) (shiftT k (t_us ev)).

Definition shiftEdge (k : Z) (e : IsrEdge) : IsrEdge :=
  mkEdge (edgeSensor e) (edgeHigh e) (shiftT k (edgeUs e)).

Definition shiftIsrAction (k : Z) (a : IsrAction) : IsrAction :=
  match a with
  | AEdge e => AEdge (shiftEdge k e)
  | APop => APop
  end.

(** The capture state with every stored timestamp [k] microseconds
    later. *)
Definition shiftIsr (k : Z) (st : IsrState) : IsrState :=
  mkIsr (mkQueue (map (shiftEvent k) (gEventBuf (evq st)))
                 (gEventHead (evq st)) (gEventTail (evq st)))
        (map (shiftT k) (gFallUs st)) (gSawFall st)
        (map (shiftT k) (gLastAcceptedUs st)).

Definition shiftDebounced (k : Z) (d : DebouncedInput) : DebouncedInput :=
  mkDebounced (debounceMs d) (stableState d) (lastRawState d)
              (shiftT k (lastChangeMs d)) (fellEvent d) (roseEvent d).

Definition shiftPoll (k : Z) (p : Poll) : Poll := (fst p + k, snd p).


(** The poll at which the reading last changed, and the reading since
    then; [start] stands for [begin]. *)
Definition rawRun (start : Poll) (polls : list Poll) : Poll :=
  fold_left (fun acc p => if eqb (snd p) (snd acc) then acc else p)
            polls start.

(* ------------------------------------------------------------------ *)
(** ** LCD text and line cache (sections 8 and 9) *)

(** A [char] buffer is a list of characters.  Reading past the end of a
    list gives the NUL character, which is what a C string holds at its
    end. *)
#[global] Instance ascii_inhabited : Inhabited Ascii.ascii :=
  populate Ascii.zero.

#[global] Instance ascii_eq_dec : EqDecision Ascii.ascii := Ascii.ascii_dec.

Definition text (s : String.string) : list Ascii.ascii :=
  String.list_ascii_of_string s.

Arguments text s%_string.

Definition digit (v : Z) : Ascii.ascii :=
  Ascii.ascii_of_nat (48 + Z.to_nat v).

(** Decimal digits of an [unsigned], most significant first. *)
Fixpoint decimal (fuel : nat) (v : Z) : list Ascii.ascii :=
  match fuel with
  | O => []
  | S fuel' =>
      (if v <? 10 then [] else decimal fuel' (v / 10)) ++ [digit (v mod 10)]
  end.

(** The conversion [%0<width>u] of [snprintf], for a 16-bit [unsigned]. *)
Definition fmtU (width : nat) (v : Z) : list Ascii.ascii :=
  let ds := decimal 5 v in
  replicate (width - length ds)%nat "0"%char ++ ds.

(** [snprintf(out, outLen, ...)] stores at most [outLen - 1] characters
    of the formatted text, then the terminator. *)
Definition snprintf (outLen : nat) (formatted : list Ascii.ascii)
  : list Ascii.ascii :=
  take (outLen - 1)%nat formatted.

(** The [while] loop of [pad16]; [i < 16] bounds the number of turns. *)
Fixpoint pad16_copy (fuel i : nat) (src out16 : list Ascii.ascii)
  : list Ascii.ascii :=
  match fuel with
  | O => out16
  | S fuel' =>
      if (i <? 16)%nat && negb (Ascii.eqb (src !!! i) Ascii.zero)
      then pad16_copy fuel' (S i) src (<[i := src !!! i]> out16)
      else out16
  end.

(** [pad16(src, out16)]: the 16 characters before the terminator of
    [out16]. *)
Definition pad16 (src : list Ascii.ascii) : list Ascii.ascii :=
  pad16_copy 16 0 src (replicate 16 " "%char).

(** The two cache lines (their first 16 characters; the 17th is always
    NUL), the two rows of the display, and the number of lines sent to the
    display so far. *)
Record Lcd := mkLcd {
  gLcdCache0 : list Ascii.ascii;
  gLcdCache1 : list Ascii.ascii;
  lcdRow0 : list Ascii.ascii;
  lcdRow1 : list Ascii.ascii;
  lcdPrints : nat
}.

(** The comparison loop of [lcdWriteLineCached]. *)
Definition sameLine (cache buf : list Ascii.ascii) : bool :=
  forallb (fun i => Ascii.eqb (cache !!! i) (buf !!! i)) (seq 0 16).

(** [lcdWriteLineCached(row, text)].  [lcd.setCursor(0, row)] followed by
    [lcd.print(buf)] replaces the 16 columns of the row; the sketch only
    uses rows 0 and 1. *)
Definition lcdWriteLineCached (row : nat) (line : list Ascii.ascii) (l : Lcd)
  : Lcd :=
  let buf := pad16 line in
  let cache := if decide (row = 0%nat) then gLcdCache0 l else gLcdCache1 l in
  if sameLine cache buf then l
  else if decide (row = 0%nat)
       then mkLcd buf (gLcdCache1 l) buf (lcdRow1 l) (S (lcdPrints l))
       else mkLcd (gLcdCache0 l) buf (lcdRow0 l) buf (S (lcdPrints l)).

(** [formatTimeFromUs(us, out, outLen)] *)
Definition formatTimeFromUs (us : Z) (outLen : nat) : list Ascii.ascii :=
  let ms := us / 1000 in
  let minutes := (ms / 60000) mod 100 in
  let seconds := (ms / 1000) mod 60 in
  let millis := ms mod 1000 in
  snprintf outLen
    (fmtU 2 minutes ++ text ":" ++ fmtU 2 seconds ++ text ":"
     ++ fmtU 3 millis).

(** First line of [renderMainScreen]. *)
Definition mainLine (s : Stopwatch) : list Ascii.ascii :=
  snprintf 17
    (match gState s with
     | IDLE => text "Crono V:"
     | RUNNING => text "Rodando V:"
     | PAUSED => text "Pausado V:"
     | FINISHED => text "Final  V:"
     end ++ fmtU 2 (Z.of_nat (gLapCount s))).

(** [renderMainScreen(elapsedUs)] *)
Definition renderMainScreen (s : Stopwatch) (elapsedUs : Z) (l : Lcd) : Lcd :=
  lcdWriteLineCached 1 (formatTimeFromUs elapsedUs 12)
    (lcdWriteLineCached 0 (mainLine s) l).

Definition lapSavedLine (lapIndex : nat) : list Ascii.ascii :=
  snprintf 17
    (text "Volta " ++ fmtU 2 (Z.of_nat lapIndex + 1) ++ text " salva").

(** [renderLapSavedPopup(lapIndex)] *)
Definition renderLapSavedPopup (s : Stopwatch) (lapIndex : nat) (l : Lcd)
  : Lcd :=
  lcdWriteLineCached 1 (formatTimeFromUs (gLapUs s !!! lapIndex) 12)
    (lcdWriteLineCached 0 (lapSavedLine lapIndex) l).

Definition finalLine (s : Stopwatch) (lapIndex : nat) (showDelta : bool)
  : list Ascii.ascii :=
  snprintf 17
    (text "V" ++ fmtU 2 (Z.of_nat lapIndex + 1) ++ text "/"
     ++ fmtU 2 (Z.of_nat (gLapCount s))
     ++ (if showDelta then text " DELT" else text " ACUM")).

(** [renderFinalLapPopup(lapIndex, showDelta)] *)
Definition renderFinalLapPopup (s : Stopwatch) (lapIndex : nat)
    (showDelta : bool) (l : Lcd) : Lcd :=
  let valueUs :=
    if showDelta then lapDeltaUs s lapIndex else gLapUs s !!! lapIndex in
  lcdWriteLineCached 1 (formatTimeFromUs valueUs 12)
    (lcdWriteLineCached 0 (finalLine s lapIndex showDelta) l).

(** The part of [resetAll] that concerns the display: both cache lines
    are filled with NUL and [renderMainScreen(0)] is called on the reset
    stopwatch. *)
Definition lcdCacheClear (l : Lcd) : Lcd :=
  mkLcd (replicate 16 Ascii.zero) (replicate 16 Ascii.zero)
        (lcdRow0 l) (lcdRow1 l) (lcdPrints l).

Definition lcdResetAll (l : Lcd) : Lcd :=
  renderMainScreen resetStopwatch 0 (lcdCacheClear l).

(** The display part of [setup()]: the caches are zero-initialised,
    [showStartMessage] ends with [lcd.clear()], which blanks both rows, and
    [resetAll] follows.  The welcome texts are not counted in
    [lcdPrints]. *)
Definition lcdSetup : Lcd :=
  lcdResetAll (mkLcd (replicate 16 Ascii.zero) (replicate 16 Ascii.zero)
                     (replicate 16 " "%char) (replicate 16 " "%char) 0).

(** The render call that step D makes for a screen. *)
Definition renderScreen (scr : Screen) (s : Stopwatch) (l : Lcd) : Lcd :=
  match scr with
  | NoRender => l
  | MainScreen elapsedUs => renderMainScreen s elapsedUs l
  | LapSavedPopup lapIndex => renderLapSavedPopup s lapIndex l
  | FinalLapPopup lapIndex showDelta =>
      renderFinalLapPopup s lapIndex showDelta l
  end.

(** The condition under which step B calls [resetAll]. *)
Definition longPressDue (nowMs : Z) (f : Firmware) : bool :=
  isPressed (inBtnControl f) && negb (gLongPressHandled f)
  && (kLongPressMs <=? wrap32 (nowMs - gBtnPressStartMs f)).

(** The program with its display.  In one iteration of [loop()] the
    display is written by [resetAll], when the long press fires, and then
    by the render call of step D; step D changes none of the variables the
    render functions read after it has called them. *)
Definition Panel : Type := Firmware * Lcd.

Definition loopPanel (nowMs nowUs : Z) (raw : bool) (p : Panel) : Panel :=
  let f := fst p in
  let l1 :=
    if longPressDue nowMs (btnUpdateFell nowMs raw (loopSensors nowMs f))
    then lcdResetAll (snd p) else snd p in
  let r := loop nowMs nowUs raw f in
  (fst r, renderScreen (snd r) (sw (fst r)) l1).

Definition stepPanel (p : Panel) (a : FwAction) : Panel :=
  match a with
  | FwEdge e => (stepFirmware (fst p) a, snd p)
  | FwLoop nowMs nowUs raw => loopPanel nowMs nowUs raw p
  end.

Definition runPanel (acts : list FwAction) (p : Panel) : Panel :=
  fold_left stepPanel acts p.

Definition bootPanel (initial : bool) (nowMs : Z) : Panel :=
  (bootFirmware initial nowMs, lcdSetup).

(** The characters of a C string: those before the first NUL. *)
Fixpoint cString (src : list Ascii.ascii) : list Ascii.ascii :=
  match src with
  | [] => []
  | c :: rest => if Ascii.eqb c Ascii.zero then [] else c :: cString rest
  end.

(** Reading a time back from its text [MM:SS:mmm], in milliseconds. *)
Definition digitValue (c : Ascii.ascii) : option Z :=
  let n := Z.of_nat (Ascii.nat_of_ascii c) in
  if (48 <=? n) && (n <=? 57) then Some (n - 48) else None.

Fixpoint readU (acc : Z) (ds : list Ascii.ascii) : option Z :=
  match ds with
  | [] => Some acc
  | c :: rest =>
      match digitValue c with
      | Some v => readU (10 * acc + v) rest
      | None => None
      end
  end.

Definition readTime (line : list Ascii.ascii) : option Z :=
  match line with
  | [m1; m0; c1; s1; s0; c2; k2; k1; k0] =>
      if decide (c1 = ":"%char /\ c2 = ":"%char) then
        match readU 0 [m1; m0], readU 0 [s1; s0], readU 0 [k2; k1; k0] with
        | Some m, Some s, Some k => Some (m * 60000 + s * 1000 + k)
        | _, _, _ => None
        end
      else None
  | _ => None
  end.

(** What the display shows for a screen: the two lines, each filled with
    spaces to 16 columns. *)
Definition padded (line : list Ascii.ascii) : list Ascii.ascii :=
  line ++ replicate (16 - length line)%nat " "%char.

Definition screenRows (scr : Screen) (s : Stopwatch)
  : option (list Ascii.ascii * list Ascii.ascii) :=
  match scr with
  | NoRender => None
  | MainScreen elapsedUs =>
      Some (padded (mainLine s), padded (formatTimeFromUs elapsedUs 12))
  | LapSavedPopup lapIndex =>
      Some (padded (lapSavedLine lapIndex),
            padded (formatTimeFromUs (gLapUs s !!! lapIndex) 12))
  | FinalLapPopup lapIndex showDelta =>
      Some (padded (finalLine s lapIndex showDelta),
            padded (formatTimeFromUs
                      (if showDelta then lapDeltaUs s lapIndex
                       else gLapUs s !!! lapIndex) 12))
  end.

(** The cache lines hold what the display shows. *)
Definition lcdCoherent (l : Lcd) : Prop :=
  length (lcdRow0 l) = 16%nat /\ length (lcdRow1 l) = 16%nat
  /\ gLcdCache0 l = lcdRow0 l /\ gLcdCache1 l = lcdRow1 l.

(** Each cache line holds what the display shows or has been filled with
    NUL by [resetAll]. *)
Definition lcdUsable (l : Lcd) : Prop :=
  length (lcdRow0 l) = 16%nat /\ length (lcdRow1 l) = 16%nat
  /\ (gLcdCache0 l = lcdRow0 l \/ gLcdCache0 l = replicate 16 Ascii.zero)
  /\ (gLcdCache1 l = lcdRow1 l \/ gLcdCache1 l = replicate 16 Ascii.zero).

Definition lcdRow (row : nat) (l : Lcd) : list Ascii.ascii :=
  if decide (row = 0%nat) then lcdRow0 l else lcdRow1 l.

(** A display showing the main screen of a paused stopwatch. *)
Definition pausedLcd : Lcd :=
  renderMainScreen (runSw [SwStart 1000; SwLap 51000 51; SwPause 81000]
                          resetStopwatch) 80000 lcdSetup.

(** A line that [pad16] shows whole: no NUL, at most 16 characters. *)
Definition lineOk (line : list Ascii.ascii) : Prop :=
  Forall (fun c => c <> Ascii.zero) line /\ (length line <= 16)%nat.

Definition panelInv (p : Panel) : Prop :=
  fwInv (fst p) /\ lcdCoherent (snd p).

(** A run that starts the stopwatch, records a lap and lets the display
    be refreshed. *)
Definition lapShown : list FwAction :=
  [FwEdge (mkEdge 0 false 30000); FwEdge (mkEdge 0 true 31000);
   FwLoop 40 40000 true;
   FwEdge (mkEdge 1 false 100000); FwEdge (mkEdge 1 true 101000)].

(** Four clicks: [tripleClick] followed by one more click of 100 ms. *)
Definition fourClicks : list Iter :=
  tripleClick ++ [(1700, 1700000, false); (1730, 1730000, false);
                  (1800, 1800000, true); (1830, 1830000, true)].

(* ================================================================== *)
(** * Properties *)

Ltac Zify.zify_post_hook ::= Z.to_euclidean_division_equations.

#[local] Arguments Nat.modulo : simpl never.
#[local] Arguments Z.modulo : simpl never.
#[local] Arguments Z.pow : simpl never.

(* ------------------------------------------------------------------ *)
(** ** Fixed-width arithmetic *)

Section Wrap.

Lemma wrap32_range x : 0 <= wrap32 x < 2 ^ 32.
Proof. unfold wrap32. apply Z.mod_pos_bound. lia. Qed.

Lemma wrap32_small x : 0 <= x < 2 ^ 32 -> wrap32 x = x.
Proof. unfold wrap32. intros. apply Z.mod_small. lia. Qed.

Lemma wrap32_idem x : wrap32 (wrap32 x) = wrap32 x.
Proof. apply wrap32_small, wrap32_range. Qed.

Lemma wrap32_le x : 0 <= x -> wrap32 x <= x.
Proof. unfold wrap32. intros. apply Z.mod_le; lia. Qed.

Lemma wrap32_sub_l a b : wrap32 (wrap32 a - b) = wrap32 (a - b).
Proof. unfold wrap32. apply Zminus_mod_idemp_l. Qed.

Lemma wrap32_sub_r a b : wrap32 (a - wrap32 b) = wrap32 (a - b).
Proof. unfold wrap32. apply Zminus_mod_idemp_r. Qed.

Lemma wrap32_add_l a b : wrap32 (wrap32 a + b) = wrap32 (a + b).
Proof. unfold wrap32. apply Zplus_mod_idemp_l. Qed.

End Wrap.

(* ------------------------------------------------------------------ *)
(** ** The event queue *)

Section Queue.

Implicit Types (q : EventQueue) (e : SensorEvent).

Lemma pending_length q :
  length (pending q)
  = ((gEventHead q + kEventBufSize - gEventTail q) mod kEventBufSize)%nat.
Proof. unfold pending. now rewrite length_map, length_seq. Qed.

Lemma pending_nil_iff q :
  queueWf q -> pending q = [] <-> gEventHead q = gEventTail q.
Proof.
  intros (_ & Hh & Ht). rewrite <- length_zero_iff_nil, pending_length.
  unfold kEventBufSize in *. lia.
Qed.

Lemma pushEventIsr_full i t q :
  ((gEventHead q + 1) mod kEventBufSize)%nat = gEventTail q ->
  pushEventIsr i t q = q.
Proof. intros H. unfold pushEventIsr. now rewrite decide_True. Qed.

Lemma pushEventIsr_wf i t q : queueWf q -> queueWf (pushEventIsr i t q).
Proof.
  intros (Hl & Hh & Ht). unfold pushEventIsr.
  destruct (decide _); [now repeat split|].
  repeat split; simpl; [now rewrite length_insert|idtac|assumption].
  unfold kEventBufSize. lia.
Qed.

Lemma pushEventIsr_room i t q :
  queueWf q ->
  ((gEventHead q + 1) mod kEventBufSize)%nat <> gEventTail q ->
  pending (pushEventIsr i t q) = pending q ++ [mkEvent i t].
Proof.
  intros (Hl & Hh & Ht) Hroom. unfold pushEventIsr.
  rewrite decide_False by assumption.
  unfold pending; simpl.
  set (n := ((gEventHead q + kEventBufSize - gEventTail q)
             mod kEventBufSize)%nat).
  replace ((((gEventHead q + 1) mod kEventBufSize) + kEventBufSize
            - gEventTail q) mod kEventBufSize)%nat with (S n)
    by (subst n; unfold kEventBufSize in *; lia).
  rewrite seq_S, map_app. simpl. f_equal.
  - apply map_ext_in. intros k Hk. apply in_seq in Hk.
    apply list_lookup_total_insert_ne.
    subst n. unfold kEventBufSize in *. lia.
  - f_equal.
    replace ((gEventTail q + n) mod kEventBufSize)%nat with (gEventHead q)
      by (subst n; unfold kEventBufSize in *; lia).
    apply list_lookup_total_insert_eq. rewrite Hl. assumption.
Qed.

Lemma popEvent_none_iff q :
  fst (popEvent q) = None <-> gEventHead q = gEventTail q.
Proof.
  unfold popEvent. destruct (decide _); simpl; split; congruence.
Qed.

Lemma popEvent_empty q :
  gEventHead q = gEventTail q -> popEvent q = (None, q).
Proof. intros H. unfold popEvent. now rewrite decide_True. Qed.

Lemma popEvent_wf q : queueWf q -> queueWf (snd (popEvent q)).
Proof.
  intros (Hl & Hh & Ht). unfold popEvent.
  destruct (decide _); simpl; repeat split; simpl; try assumption.
  unfold kEventBufSize. lia.
Qed.

Lemma popEvent_some q :
  queueWf q -> gEventHead q <> gEventTail q ->
  exists e q', popEvent q = (Some e, q') /\ pending q = e :: pending q'
               /\ gEventBuf q' = gEventBuf q
               /\ gEventHead q' = gEventHead q.
Proof.
  intros (Hl & Hh & Ht) Hne. unfold popEvent.
  rewrite decide_False by congruence.
  eexists _, _. split; [reflexivity|]. split; [|split; reflexivity].
  unfold pending; simpl.
  set (n' := ((gEventHead q + kEventBufSize
               - (gEventTail q + 1) mod kEventBufSize)
              mod kEventBufSize)%nat).
  replace ((gEventHead q + kEventBufSize - gEventTail q)
           mod kEventBufSize)%nat with (S n')
    by (subst n'; unfold kEventBufSize in *; lia).
  simpl. f_equal.
  - f_equal. unfold kEventBufSize in *. lia.
  - rewrite <- seq_shift, map_map. apply map_ext. intros k.
    f_equal. unfold kEventBufSize. lia.
Qed.

(** Whatever the interleaving of pushes and pops, what has been popped
    followed by what still waits is what was waiting followed by the
    pushes that were stored. *)
Lemma runQueue_fifo ops : forall q,
  queueWf q ->
  fst (runQueue ops q) ++ pending (snd (runQueue ops q))
  = pending q ++ storedPushes ops q.
Proof.
  induction ops as [|[i t|] ops IH]; intros q Hwf; simpl.
  - now rewrite app_nil_r.
  - rewrite IH by now apply pushEventIsr_wf.
    destruct (decide _) as [Hfull|Hroom].
    + now rewrite pushEventIsr_full.
    + rewrite pushEventIsr_room by assumption.
      now rewrite <- app_assoc.
  - destruct (decide (gEventHead q = gEventTail q)) as [He|Hne].
    + rewrite popEvent_empty by assumption. simpl. now apply IH.
    + destruct (popEvent_some q Hwf Hne) as (e & q' & Hp & Hpend & _).
      pose proof (popEvent_wf q Hwf) as Hwf'.
      rewrite Hp in *. simpl in *.
      specialize (IH q' Hwf').
      destruct (runQueue ops q') as [out qf]. simpl in *.
      now rewrite IH, Hpend.
Qed.



End Queue.

(** C4.  On a well-formed queue (sixteen slots, both indices below
    sixteen): nothing is waiting exactly when head equals tail; a push that
    finds the buffer full returns the queue unchanged, and a push that finds
    room appends its event behind the waiting ones without touching them or
    the tail; a pop returns no event exactly when head equals tail, leaving
    the queue as it is, and otherwise returns the oldest waiting event and
    removes it; over any interleaving of pushes and pops, the events popped
    followed by those still waiting are the events initially waiting
    followed by the stored pushes, so each stored event is popped at most
    once and in arrival order. *)
Theorem event_queue_fifo (q : EventQueue) (Hwf : queueWf q) :
  (pending q = [] <-> gEventHead q = gEventTail q)
  /\ (forall i t,
        ((gEventHead q + 1) mod kEventBufSize)%nat = gEventTail q ->
        pushEventIsr i t q = q)
  /\ (forall i t,
        ((gEventHead q + 1) mod kEventBufSize)%nat <> gEventTail q ->
        pending (pushEventIsr i t q) = pending q ++ [mkEvent i t]
        /\ gEventTail (pushEventIsr i t q) = gEventTail q)
  /\ (fst (popEvent q) = None <-> gEventHead q = gEventTail q)
  /\ (gEventHead q = gEventTail q -> popEvent q = (None, q))
  /\ (gEventHead q <> gEventTail q ->
      exists e q', popEvent q = (Some e, q') /\ pending q = e :: pending q'
                   /\ gEventBuf q' = gEventBuf q
                   /\ gEventHead q' = gEventHead q)
  /\ (forall ops,
        fst (runQueue ops q) ++ pending (snd (runQueue ops q))
        = pending q ++ storedPushes ops q).
Proof.
  split; [now apply pending_nil_iff|].
  split; [intros; now apply pushEventIsr_full|].
  split.
  { intros i t Hroom. split; [now apply pushEventIsr_room|].
    unfold pushEventIsr. now rewrite decide_False. }
  split; [apply popEvent_none_iff|].
  split; [apply popEvent_empty|].
  split; [now apply popEvent_some|].
  intros ops. now apply runQueue_fifo.
Qed.

Lemma event_queue_fifo_witness :
  queueWf (evq resetIsr)
  /\ forall ops,
       fst (runQueue ops (evq resetIsr))
       ++ pending (snd (runQueue ops (evq resetIsr)))
       = pending (evq resetIsr) ++ storedPushes ops (evq resetIsr).
Proof.
  assert (Hwf : queueWf (evq resetIsr)).
  { unfold queueWf, kEventBufSize. simpl. lia. }
  split; [exact Hwf|].
  apply (event_queue_fifo (evq resetIsr) Hwf).
Defined.

(* ------------------------------------------------------------------ *)
(** ** Stopwatch actions *)

Section StopwatchActions.

Implicit Types (s : Stopwatch).

Lemma saveLapUs_skip eventUs nowMs s :
  gState s <> RUNNING \/ (kMaxLaps <= gLapCount s)%nat ->
  saveLapUs eventUs nowMs s = s.
Proof.
  intros [H|H]; unfold saveLapUs.
  - now rewrite decide_True.
  - destruct (decide (gState s <> RUNNING)); [reflexivity|].
    now rewrite decide_True.
Qed.

Lemma saveLapUs_append eventUs nowMs s :
  gState s = RUNNING -> (gLapCount s < kMaxLaps)%nat ->
  gState (saveLapUs eventUs nowMs s) = RUNNING
  /\ gStartUs (saveLapUs eventUs nowMs s) = gStartUs s
  /\ gLapCount (saveLapUs eventUs nowMs s) = S (gLapCount s)
  /\ gLapUs (saveLapUs eventUs nowMs s)
     = <[gLapCount s := wrap32 (eventUs - gStartUs s)]> (gLapUs s).
Proof.
  intros Hr Hc. unfold saveLapUs.
  rewrite decide_False by (now intros ?).
  rewrite decide_False by lia. simpl.
  repeat split; try assumption. lia.
Qed.

Lemma recordLaps_count evs : forall s,
  gState s = RUNNING ->
  (gLapCount s + length evs <= kMaxLaps)%nat ->
  gState (recordLaps evs s) = RUNNING
  /\ gLapCount (recordLaps evs s) = (gLapCount s + length evs)%nat.
Proof.
  induction evs as [|[e n] evs IH]; intros s Hr Hc; simpl in *.
  - split; [assumption|lia].
  - destruct (saveLapUs_append e n s Hr ltac:(lia)) as (Hr' & _ & Hc' & _).
    unfold recordLaps in *. simpl.
    destruct (IH (saveLapUs e n s) Hr' ltac:(lia)) as [IH1 IH2].
    split; [assumption|]. rewrite IH2, Hc'. lia.
Qed.

End StopwatchActions.

(** C7.  [saveLapUs] returns the stopwatch unchanged, every field
    included, whenever the state is not RUNNING or [gLapCount] has reached
    [kMaxLaps] = 20; so it is a no-op in PAUSED and in IDLE, and after
    twenty laps recorded from an empty table the count is 20 and a
    twenty-first call changes nothing. *)
Theorem saveLapUs_noop (eventUs nowMs : Z) (s : Stopwatch) :
  (gState s <> RUNNING \/ (kMaxLaps <= gLapCount s)%nat ->
   saveLapUs eventUs nowMs s = s)
  /\ (gState s = PAUSED \/ gState s = IDLE ->
      gLapCount (saveLapUs eventUs nowMs s) = gLapCount s)
  /\ (forall evs,
        gState s = RUNNING -> gLapCount s = 0%nat -> length evs = 20%nat ->
        gLapCount (recordLaps evs s) = 20%nat
        /\ saveLapUs eventUs nowMs (recordLaps evs s) = recordLaps evs s).
Proof.
  split; [apply saveLapUs_skip|]. split.
  - intros H. rewrite saveLapUs_skip; [reflexivity|].
    left. destruct H as [H|H]; rewrite H; discriminate.
  - intros evs Hr Hc Hlen.
    destruct (recordLaps_count evs s Hr) as [_ Hn].
    { unfold kMaxLaps. lia. }
    split; [lia|]. apply saveLapUs_skip. right. unfold kMaxLaps. lia.
Qed.

Lemma saveLapUs_noop_witness :
  saveLapUs 5000 5 (pauseUs 4000 (startOrResumeUs 1000 resetStopwatch))
  = pauseUs 4000 (startOrResumeUs 1000 resetStopwatch)
  /\ gLapCount (saveLapUs 5000 5 resetStopwatch) = 0%nat
  /\ gLapCount (recordLaps (replicate 20 (2000, 2))
                           (startOrResumeUs 1000 resetStopwatch)) = 20%nat
  /\ saveLapUs 5000 5 (recordLaps (replicate 20 (2000, 2))
                                  (startOrResumeUs 1000 resetStopwatch))
     = recordLaps (replicate 20 (2000, 2))
                  (startOrResumeUs 1000 resetStopwatch).
Proof.
  split.
  { apply (saveLapUs_noop 5000 5
             (pauseUs 4000 (startOrResumeUs 1000 resetStopwatch))).
    left. simpl. discriminate. }
  split.
  { apply (saveLapUs_noop 5000 5 resetStopwatch). right. reflexivity. }
  apply (saveLapUs_noop 5000 5 (startOrResumeUs 1000 resetStopwatch));
    reflexivity.
Defined.

Section StartPause.

Implicit Types (s : Stopwatch).

Lemma startOrResumeUs_running nowUs s :
  gState s <> FINISHED ->
  gState (startOrResumeUs nowUs s) = RUNNING
  /\ gStartUs (startOrResumeUs nowUs s) = wrap32 (nowUs - gElapsedUs s)
  /\ gElapsedUs (startOrResumeUs nowUs s) = gElapsedUs s
  /\ gLapUs (startOrResumeUs nowUs s) = gLapUs s
  /\ gLapCount (startOrResumeUs nowUs s) = gLapCount s.
Proof.
  intros H. unfold startOrResumeUs. now rewrite decide_False.
Qed.

Lemma pauseUs_running nowUs s :
  gState s = RUNNING ->
  gState (pauseUs nowUs s) = PAUSED
  /\ gStartUs (pauseUs nowUs s) = gStartUs s
  /\ gElapsedUs (pauseUs nowUs s) = wrap32 (nowUs - gStartUs s)
  /\ gLapUs (pauseUs nowUs s) = gLapUs s
  /\ gLapCount (pauseUs nowUs s) = gLapCount s.
Proof.
  intros H. unfold pauseUs.
  rewrite decide_False by (intros Hn; now apply Hn). now simpl.
Qed.

(** Running for [d] from [nowUs] and then pausing adds [d] to the
    accumulated time, modulo the counter width. *)
Lemma run_then_pause nowUs d s :
  gState s <> FINISHED ->
  gState (pauseUs (wrap32 (nowUs + d)) (startOrResumeUs nowUs s)) = PAUSED
  /\ gElapsedUs (pauseUs (wrap32 (nowUs + d)) (startOrResumeUs nowUs s))
     = wrap32 (gElapsedUs s + d).
Proof.
  intros H.
  destruct (startOrResumeUs_running nowUs s H) as (Hr & Hs & He & _).
  destruct (pauseUs_running (wrap32 (nowUs + d)) _ Hr) as (Hp & _ & He' & _).
  split; [assumption|]. rewrite He', Hs.
  rewrite wrap32_sub_l, wrap32_sub_r. f_equal. lia.
Qed.

End StartPause.

(** C1.  In every state other than FINISHED and for every counter value
    [nowUs], [startOrResumeUs] stores [nowUs - gElapsedUs] (32-bit
    subtraction) as the start reference and moves to RUNNING.  Pausing at
    the very same counter value gives back the accumulated time unchanged,
    hence 0 when nothing had been accumulated.  Running for [d], pausing,
    resuming at any later counter value [t2] and running for [d2] before
    pausing again accumulates [d + d2] on top of what was there, modulo
    2^32; from zero accumulated time and with [d + d2] below 2^32 the
    elapsed time is exactly [d + d2]. *)
Theorem startOrResume_pause_accounting (nowUs : Z) (s : Stopwatch)
    (Hstate : gState s <> FINISHED) :
  (gStartUs (startOrResumeUs nowUs s) = wrap32 (nowUs - gElapsedUs s)
   /\ gState (startOrResumeUs nowUs s) = RUNNING)
  /\ gElapsedUs (pauseUs nowUs (startOrResumeUs nowUs s))
     = wrap32 (gElapsedUs s)
  /\ (gElapsedUs s = 0 ->
      gElapsedUs (pauseUs nowUs (startOrResumeUs nowUs s)) = 0)
  /\ (forall d t2 d2,
        let s1 := pauseUs (wrap32 (nowUs + d)) (startOrResumeUs nowUs s) in
        let s2 := pauseUs (wrap32 (t2 + d2)) (startOrResumeUs t2 s1) in
        gState s2 = PAUSED
        /\ gElapsedUs s2 = wrap32 (gElapsedUs s + d + d2)
        /\ (gElapsedUs s = 0 -> 0 <= d -> 0 <= d2 -> d + d2 < 2 ^ 32 ->
            gElapsedUs s2 = d + d2)).
Proof.
  destruct (startOrResumeUs_running nowUs s Hstate) as (Hr & Hs & He & _).
  destruct (pauseUs_running nowUs _ Hr) as (_ & _ & Hp & _).
  assert (Hsame : gElapsedUs (pauseUs nowUs (startOrResumeUs nowUs s))
                  = wrap32 (gElapsedUs s)).
  { rewrite Hp, Hs, wrap32_sub_r. f_equal. lia. }
  split; [now split|]. split; [exact Hsame|]. split.
  { intros H0. rewrite Hsame, H0. reflexivity. }
  intros d t2 d2 s1 s2.
  destruct (run_then_pause nowUs d s Hstate) as [Hp1 He1].
  fold s1 in Hp1, He1.
  assert (Hnf : gState s1 <> FINISHED) by (rewrite Hp1; discriminate).
  destruct (run_then_pause t2 d2 s1 Hnf) as [Hp2 He2].
  fold s2 in Hp2, He2.
  assert (Htot : gElapsedUs s2 = wrap32 (gElapsedUs s + d + d2)).
  { rewrite He2, He1, wrap32_add_l. reflexivity. }
  split; [assumption|]. split; [assumption|].
  intros H0 Hd Hd2 Hlt. rewrite Htot, H0. apply wrap32_small. lia.
Qed.

Lemma startOrResume_pause_accounting_witness :
  gState resetStopwatch <> FINISHED
  /\ gElapsedUs (pauseUs 7000 (startOrResumeUs 7000 resetStopwatch)) = 0
  /\ gElapsedUs
       (pauseUs (wrap32 (5000 + 1500))
          (startOrResumeUs 5000
             (pauseUs (wrap32 (7000 + 2000))
                (startOrResumeUs 7000 resetStopwatch)))) = 2000 + 1500.
Proof.
  assert (H : gState resetStopwatch <> FINISHED) by (simpl; discriminate).
  pose proof (startOrResume_pause_accounting 7000 resetStopwatch H)
    as (_ & _ & Hz & Hrun).
  split; [exact H|]. split; [apply Hz; reflexivity|].
  apply (Hrun 2000 5000 1500); [reflexivity|lia|lia|lia].
Defined.

(* ------------------------------------------------------------------ *)
(** ** The capture handler *)

Section Capture.

Implicit Types (st : IsrState) (e : IsrEdge).

Lemma handle_fall id nowUs st :
  handleSensorEdgeIsr id false nowUs st
  = mkIsr (evq st) (<[id := nowUs]> (gFallUs st))
          (<[id := true]> (gSawFall st)) (gLastAcceptedUs st).
Proof. reflexivity. Qed.

(** The three ways a rising edge can end. *)
Lemma handle_rise id nowUs st :
  let st' := handleSensorEdgeIsr id true nowUs st in
  (gSawFall st !!! id = false /\ st' = st)
  \/ (gSawFall st !!! id = true
      /\ (usDiff nowUs (gFallUs st !!! id) < kMinActivePulseUs
          \/ usDiff (gFallUs st !!! id) (gLastAcceptedUs st !!! id)
             < kSensorRearmUs)
      /\ st' = mkIsr (evq st) (gFallUs st) (<[id := false]> (gSawFall st))
                     (gLastAcceptedUs st))
  \/ (gSawFall st !!! id = true
      /\ kMinActivePulseUs <= usDiff nowUs (gFallUs st !!! id)
      /\ kSensorRearmUs
         <= usDiff (gFallUs st !!! id) (gLastAcceptedUs st !!! id)
      /\ st' = mkIsr (pushEventIsr id (gFallUs st !!! id) (evq st))
                     (gFallUs st) (<[id := false]> (gSawFall st))
                     (<[id := gFallUs st !!! id]> (gLastAcceptedUs st))).
Proof.
  unfold handleSensorEdgeIsr. simpl.
  destruct (gSawFall st !!! id) eqn:Hsaw; simpl; [|now left].
  right.
  destruct (Z.ltb_spec (usDiff nowUs (gFallUs st !!! id)) kMinActivePulseUs)
    as [Hw|Hw]; [left; repeat split; auto|].
  destruct (Z.ltb_spec
              (usDiff (gFallUs st !!! id) (gLastAcceptedUs st !!! id))
              kSensorRearmUs) as [Hr|Hr]; [left; repeat split; auto|].
  right. repeat split; auto.
Qed.

Lemma handleEdge_wf e st : isrWf st -> isrWf (handleEdge e st).
Proof.
  intros (Hq & Hf & Hs & Hl). destruct e as [id [|] now]; unfold handleEdge;
    simpl edgeSensor; simpl edgeHigh; simpl edgeUs.
  - destruct (handle_rise id now st) as [[_ ->]|[(_ & _ & ->)|(_ & _ & _ & ->)]];
      repeat split; simpl; rewrite ?length_insert; try assumption;
      try apply Hq; try (now apply pushEventIsr_wf).
  - rewrite handle_fall. repeat split; simpl; rewrite ?length_insert;
      try assumption; apply Hq.
Qed.


(** Edges of other sensors leave a sensor's slots alone. *)
Lemma handleEdge_other e st id :
  edgeSensor e <> id ->
  gFallUs (handleEdge e st) !!! id = gFallUs st !!! id
  /\ gSawFall (handleEdge e st) !!! id = gSawFall st !!! id
  /\ gLastAcceptedUs (handleEdge e st) !!! id = gLastAcceptedUs st !!! id.
Proof.
  intros Hne. destruct e as [id' [|] now]; unfold handleEdge;
    simpl edgeSensor in *; simpl edgeHigh; simpl edgeUs.
  - destruct (handle_rise id' now st)
      as [[_ ->]|[(_ & _ & ->)|(_ & _ & _ & ->)]]; simpl;
      rewrite ?list_lookup_total_insert_ne by assumption; auto.
  - rewrite handle_fall. simpl.
    rewrite !list_lookup_total_insert_ne by assumption. auto.
Qed.

Lemma runEdges_other edges id : forall st,
  Forall (fun e => edgeSensor e <> id) edges ->
  gFallUs (runEdges edges st) !!! id = gFallUs st !!! id
  /\ gSawFall (runEdges edges st) !!! id = gSawFall st !!! id
  /\ gLastAcceptedUs (runEdges edges st) !!! id = gLastAcceptedUs st !!! id.
Proof.
  induction edges as [|e edges IH]; intros st Hall; [auto|].
  inversion Hall as [|? ? He Hrest]; subst. simpl.
  destruct (IH (handleEdge e st) Hrest) as (H1 & H2 & H3).
  destruct (handleEdge_other e st id He) as (G1 & G2 & G3).
  rewrite H1, H2, H3. auto.
Qed.

End Capture.

(** C2.  Whatever the state of the handler and whatever edges of other
    sensors are processed in between, a fall of sensor [id] at [t1]
    followed by its rise at [t2] with a pulse width [usDiff t2 t1] below
    [kMinActivePulseUs] enqueues nothing: the rise leaves the event queue
    (buffer, head and tail) and the last-accepted timestamps exactly as
    they were. *)
Theorem short_pulse_never_enqueued (st : IsrState) (id : nat) (t1 t2 : Z)
    (others : list IsrEdge) :
  isrWf st ->
  (id < kSensorCount)%nat ->
  Forall (fun e => edgeSensor e <> id) others ->
  usDiff t2 t1 < kMinActivePulseUs ->
  let before := runEdges others (handleSensorEdgeIsr id false t1 st) in
  evq (handleSensorEdgeIsr id true t2 before) = evq before
  /\ gLastAcceptedUs (handleSensorEdgeIsr id true t2 before)
     = gLastAcceptedUs before.
Proof.
  intros (Hq & Hf & Hs & Hl) Hid Hothers Hshort before.
  destruct (runEdges_other others id (handleSensorEdgeIsr id false t1 st)
              Hothers) as (Hfall & Hsaw & _).
  fold before in Hfall, Hsaw.
  rewrite handle_fall in Hfall, Hsaw. simpl in Hfall, Hsaw.
  rewrite list_lookup_total_insert_eq in Hfall by lia.
  rewrite list_lookup_total_insert_eq in Hsaw by lia.
  destruct (handle_rise id t2 before)
    as [[Hno _]|[(_ & _ & ->)|(_ & Hwide & _)]].
  - congruence.
  - split; reflexivity.
  - rewrite Hfall in Hwide. lia.
Qed.

Lemma short_pulse_never_enqueued_witness :
  evq (handleSensorEdgeIsr 1 true 40150
         (runEdges [mkEdge 2 false 40050; mkEdge 2 true 40100]
            (handleSensorEdgeIsr 1 false 40000 resetIsr)))
  = evq (runEdges [mkEdge 2 false 40050; mkEdge 2 true 40100]
           (handleSensorEdgeIsr 1 false 40000 resetIsr)).
Proof.
  apply (short_pulse_never_enqueued resetIsr 1 40000 40150
           [mkEdge 2 false 40050; mkEdge 2 true 40100]).
  - unfold isrWf, queueWf, kEventBufSize, kSensorCount. simpl. lia.
  - unfold kSensorCount. lia.
  - repeat constructor; simpl; lia.
  - reflexivity.
Defined.

Section Rearm.

Implicit Types (st : IsrState) (e : IsrEdge).

(** What acceptance means on the code: either the edge is a rise that
    passed both filters, the event pushed carries the recorded fall time and
    that time becomes the sensor's rearm reference, or nothing is pushed and
    the references are untouched. *)
Lemma acceptedAt_cases e st :
  isrWf st -> (edgeSensor e < kSensorCount)%nat ->
  (exists fall,
      acceptedAt e st = Some (mkEvent (edgeSensor e) fall)
      /\ edgeHigh e = true
      /\ gSawFall st !!! edgeSensor e = true
      /\ fall = gFallUs st !!! edgeSensor e
      /\ kMinActivePulseUs <= usDiff (edgeUs e) fall
      /\ kSensorRearmUs <= usDiff fall (gLastAcceptedUs st !!! edgeSensor e)
      /\ gLastAcceptedUs (handleEdge e st)
         = <[edgeSensor e := fall]> (gLastAcceptedUs st)
      /\ evq (handleEdge e st) = pushEventIsr (edgeSensor e) fall (evq st))
  \/ (acceptedAt e st = None
      /\ gLastAcceptedUs (handleEdge e st) = gLastAcceptedUs st
      /\ evq (handleEdge e st) = evq st
      /\ (edgeHigh e = false
          \/ gSawFall st !!! edgeSensor e = false
          \/ usDiff (edgeUs e) (gFallUs st !!! edgeSensor e)
             < kMinActivePulseUs
          \/ usDiff (gFallUs st !!! edgeSensor e)
                    (gLastAcceptedUs st !!! edgeSensor e) < kSensorRearmUs)).
Proof.
  intros (Hq & Hf & Hs & Hl) Hid. unfold acceptedAt.
  destruct e as [id [|] now]; unfold handleEdge; simpl edgeSensor in *;
    simpl edgeHigh; simpl edgeUs.
  - destruct (handle_rise id now st)
      as [[Hsaw ->]|[(_ & Hrej & ->)|(Hsaw & Hw & Hr & ->)]]; simpl.
    + right. rewrite decide_True by reflexivity.
      split; [reflexivity|]. split; [reflexivity|]. split; [reflexivity|].
      right. left. exact Hsaw.
    + right. rewrite decide_True by reflexivity.
      split; [reflexivity|]. split; [reflexivity|]. split; [reflexivity|].
      right. right. exact Hrej.
    + left. exists (gFallUs st !!! id).
      assert (Hne : gFallUs st !!! id <> gLastAcceptedUs st !!! id).
      { intros Heq. rewrite Heq in Hr. unfold usDiff, kSensorRearmUs in Hr.
        rewrite Z.sub_diag in Hr. unfold wrap32 in Hr.
        rewrite Z.mod_0_l in Hr by lia. lia. }
      rewrite decide_False.
      * rewrite list_lookup_total_insert_eq by lia. repeat split; auto.
      * intros Heq. apply Hne. rewrite <- Heq.
        rewrite list_lookup_total_insert_eq by lia. reflexivity.
  - right. rewrite handle_fall. simpl. rewrite decide_True by reflexivity.
    split; [reflexivity|]. split; [reflexivity|]. split; [reflexivity|].
    left. reflexivity.
Qed.

Lemma acceptedTimes_cons_same id t log :
  acceptedTimes id (mkEvent id t :: log) = t :: acceptedTimes id log.
Proof. unfold acceptedTimes. now rewrite filter_cons_True. Qed.

Lemma acceptedTimes_cons_other id ev log :
  sensor_id ev <> id ->
  acceptedTimes id (ev :: log) = acceptedTimes id log.
Proof. intros H. unfold acceptedTimes. now rewrite filter_cons_False. Qed.

Lemma acceptedLog_spaced id edges : forall st,
  isrWf st ->
  Forall (fun e => (edgeSensor e < kSensorCount)%nat) edges ->
  spacedFrom (gLastAcceptedUs st !!! id)
             (acceptedTimes id (acceptedLog edges st)).
Proof.
  induction edges as [|e edges IH]; intros st Hwf Hall; [exact I|].
  inversion Hall as [|? ? He Hrest]; subst. simpl.
  pose proof (handleEdge_wf e st Hwf) as Hwf'.
  specialize (IH (handleEdge e st) Hwf' Hrest).
  pose proof Hwf as (_ & _ & _ & Hlen).
  destruct (acceptedAt_cases e st Hwf He)
    as [(fall & -> & _ & _ & _ & _ & Hr & Hlast & _)|(-> & Hlast & _ & _)].
  - rewrite Hlast in IH.
    destruct (decide (edgeSensor e = id)) as [<-|Hne].
    + rewrite list_lookup_total_insert_eq in IH by lia.
      rewrite acceptedTimes_cons_same. simpl. split; assumption.
    + rewrite list_lookup_total_insert_ne in IH by assumption.
      now rewrite acceptedTimes_cons_other.
  - now rewrite Hlast in IH.
Qed.



End Rearm.



(* ------------------------------------------------------------------ *)
(** ** Reset and the capture state *)

Section Reset.

Implicit Types (st : IsrState) (f : Firmware).

Lemma clearIsr_wf st :
  length (gEventBuf (evq st)) = kEventBufSize -> isrWf (clearIsr st).
Proof.
  intros Hlen. unfold isrWf, queueWf, clearIsr; simpl.
  unfold kEventBufSize, kSensorCount in *. repeat split; auto; lia.
Qed.

Lemma pushEventIsr_pending i t q :
  queueWf q ->
  pending (pushEventIsr i t q) = pending q
  \/ pending (pushEventIsr i t q) = pending q ++ [mkEvent i t].
Proof.
  intros Hwf.
  destruct (decide (((gEventHead q + 1) mod kEventBufSize)%nat
                    = gEventTail q)) as [Hfull|Hroom].
  - left. now rewrite pushEventIsr_full.
  - right. now apply pushEventIsr_room.
Qed.

(** Provenance of dispatched events.  If a property [P] holds of the
    events waiting in the queue, of every pulse whose fall has been
    recorded and of every fall the run will see, then it holds of every
    event the run hands to the polling loop. *)
Lemma runIsr_provenance (P : SensorEvent -> Prop) acts : forall st,
  isrWf st ->
  (forall e, In (AEdge e) acts -> (edgeSensor e < kSensorCount)%nat) ->
  Forall P (pending (evq st)) ->
  (forall id, (id < kSensorCount)%nat -> gSawFall st !!! id = true ->
              P (mkEvent id (gFallUs st !!! id))) ->
  (forall id t, In (AEdge (mkEdge id false t)) acts -> P (mkEvent id t)) ->
  Forall P (fst (runIsr acts st)).
Proof.
  induction acts as [|[e|] acts IH]; intros st Hwf Hrange Hpend Hsaw Hfalls;
    simpl.
  - constructor.
  - assert (Hid : (edgeSensor e < kSensorCount)%nat)
      by (apply Hrange; now left).
    apply IH.
    + now apply handleEdge_wf.
    + intros e' Hin. apply Hrange. now right.
    + destruct e as [id [|] now]; unfold handleEdge;
        cbn [edgeSensor edgeHigh edgeUs] in *.
      * destruct (handle_rise id now st)
          as [[_ ->]|[(_ & _ & ->)|(Hs & _ & _ & ->)]]; simpl; auto.
        destruct (pushEventIsr_pending id (gFallUs st !!! id) (evq st))
          as [->| ->]; [apply Hwf|assumption|].
        apply Forall_app. split; [assumption|]. constructor; auto.
      * now rewrite handle_fall.
    + intros id' Hid'. destruct Hwf as (_ & Hlf & Hls & _).
      destruct e as [id [|] now]; unfold handleEdge;
        cbn [edgeSensor edgeHigh edgeUs] in *.
      * destruct (handle_rise id now st)
          as [[_ ->]|[(_ & _ & ->)|(_ & _ & _ & ->)]]; simpl; auto;
          rewrite list_lookup_total_insert; destruct (decide _);
          (discriminate || auto).
      * rewrite handle_fall; simpl.
        rewrite !list_lookup_total_insert, Hlf, Hls.
        destruct (decide _) as [[<- _]|_]; [|auto].
        intros _. apply Hfalls. now left.
    + intros id t Hin. apply Hfalls. now right.
  - assert (Hfalls' : forall id t,
              In (AEdge (mkEdge id false t)) acts -> P (mkEvent id t))
      by (intros id t Hin; apply Hfalls; now right).
    assert (Hrange' : forall e, In (AEdge e) acts ->
                                (edgeSensor e < kSensorCount)%nat)
      by (intros e Hin; apply Hrange; now right).
    destruct (decide (gEventHead (evq st) = gEventTail (evq st))) as [He|Hne].
    + rewrite popEvent_empty by assumption. now apply IH.
    + destruct Hwf as (Hq & Hlf & Hls & Hll).
      destruct (popEvent_some (evq st) Hq Hne) as (ev & q' & Hp & Hpq & Hb & Hh).
      pose proof (popEvent_wf (evq st) Hq) as Hq'.
      rewrite Hp in *. simpl in Hq'. rewrite Hpq in Hpend.
      inversion Hpend as [|? ? Hev Hrest]; subst.
      specialize (IH (mkIsr q' (gFallUs st) (gSawFall st) (gLastAcceptedUs st))).
      destruct (runIsr acts _) as [out stf]. simpl in *.
      constructor; [assumption|].
      apply IH; auto. repeat split; auto; apply Hq'.
Qed.

End Reset.

(** C10.  [resetAll] leaves the event queue empty, with head and tail
    both zero, and clears [gSawFall], [gFallUs] and [gLastAcceptedUs] of
    every sensor; the masked section is one step of the model, so no edge
    can be handled halfway through it.  Right after the reset [popEvent]
    finds nothing and step A of the loop leaves the freshly reset stopwatch
    alone.  From then on, over any interleaving of edges and pops, every
    event handed to the polling loop stems from a fall handled after the
    reset: it carries the sensor and the time of such a fall.  Nothing
    enqueued, and no fall recorded, before the reset is ever dispatched. *)
Theorem resetAll_discards_captured (f : Firmware) :
  length (gEventBuf (evq (isr f))) = kEventBufSize ->
  let st := isr (resetAll f) in
  (gEventHead (evq st) = 0%nat /\ gEventTail (evq st) = 0%nat)
  /\ pending (evq st) = []
  /\ popEvent (evq st) = (None, evq st)
  /\ (forall i, (i < kSensorCount)%nat ->
        gSawFall st !!! i = false /\ gFallUs st !!! i = 0
        /\ gLastAcceptedUs st !!! i = 0)
  /\ (forall nowMs, sw (loopSensors nowMs (resetAll f)) = resetStopwatch)
  /\ (forall acts ev,
        (forall e, In (AEdge e) acts -> (edgeSensor e < kSensorCount)%nat) ->
        In ev (fst (runIsr acts st)) ->
        In (AEdge (mkEdge (sensor_id ev) false (t_us ev))) acts).
Proof.
  intros Hlen st.
  assert (Hwf : isrWf st) by (now apply clearIsr_wf).
  split; [split; reflexivity|].
  split; [reflexivity|].
  split; [reflexivity|].
  split.
  { intros i Hi. subst st. unfold resetAll, clearIsr.
    cbn [isr gSawFall gFallUs gLastAcceptedUs].
    rewrite !lookup_total_replicate_2 by assumption. auto. }
  split; [reflexivity|].
  intros acts ev Hrange Hin.
  assert (Hall : Forall (fun ev => In (AEdge (mkEdge (sensor_id ev) false
                                                     (t_us ev))) acts)
                        (fst (runIsr acts st))).
  { apply runIsr_provenance; [exact Hwf|exact Hrange|idtac|idtac|auto].
    - replace (pending (evq st)) with (@nil SensorEvent) by reflexivity.
      constructor.
    - intros id Hid. subst st. unfold resetAll, clearIsr.
      cbn [isr gSawFall gFallUs].
      rewrite lookup_total_replicate_2 by assumption. discriminate. }
  rewrite List.Forall_forall in Hall. now apply Hall.
Qed.

Lemma resetAll_discards_captured_witness :
  fst (runIsr afterReset (isr (resetAll busyFirmware))) = [mkEvent 3 200000]
  /\ In (AEdge (mkEdge 3 false 200000)) afterReset.
Proof.
  split; [reflexivity|].
  refine (proj2 (proj2 (proj2 (proj2 (proj2
            (resetAll_discards_captured busyFirmware _)))))
            afterReset (mkEvent 3 200000) _ _).
  - reflexivity.
  - intros e Hin. simpl in Hin.
    repeat (destruct Hin as [Hin|Hin];
            [ try discriminate Hin; injection Hin as <-;
              unfold kSensorCount; simpl; lia | ]).
    contradiction.
  - left. reflexivity.
Defined.

(* ------------------------------------------------------------------ *)
(** ** The debounced input *)

Section Debounce.

Implicit Types (d : DebouncedInput) (p : Poll).

Lemma update_debounceMs d now raw :
  debounceMs (update d now raw) = debounceMs d.
Proof.
  unfold update, commitStable, trackRaw.
  destruct (negb (eqb raw (lastRawState d))); simpl;
    destruct (_ && _); reflexivity.
Qed.

(** A poll that reads the level already tracked. *)
Lemma update_same_raw d now raw :
  raw = lastRawState d ->
  lastRawState (update d now raw) = raw
  /\ lastChangeMs (update d now raw) = lastChangeMs d
  /\ (stableState (update d now raw) <> stableState d ->
      stableState (update d now raw) = raw
      /\ debounceMs d <= wrap32 (now - lastChangeMs d))
  /\ (stableState d = raw -> stableState (update d now raw) = raw).
Proof.
  intros ->. unfold update, trackRaw. rewrite eqb_reflx. simpl.
  unfold commitStable.
  destruct (Z.leb_spec (debounceMs d) (wrap32 (now - lastChangeMs d)));
    destruct (eqb_spec (stableState d) (lastRawState d)); simpl;
    repeat split; auto; try congruence; lia.
Qed.

(** A poll that reads the other level: the timer restarts, and only a
    zero debounce interval lets the stable level follow at once. *)
Lemma update_new_raw d now raw :
  raw <> lastRawState d -> 0 <= now < 2 ^ 32 ->
  lastRawState (update d now raw) = raw
  /\ lastChangeMs (update d now raw) = now
  /\ (stableState (update d now raw) <> stableState d ->
      stableState (update d now raw) = raw /\ debounceMs d <= 0)
  /\ (stableState d = raw -> stableState (update d now raw) = raw).
Proof.
  intros Hne Hnow. unfold update, trackRaw.
  destruct (eqb_spec raw (lastRawState d)); [contradiction|]. simpl.
  unfold commitStable. simpl. rewrite Z.sub_diag.
  change (wrap32 0) with 0.
  destruct (Z.leb_spec (debounceMs d) 0);
    destruct (eqb_spec (stableState d) raw); simpl;
    repeat split; auto; try congruence; lia.
Qed.

Lemma commits_settled polls : forall d t c,
  stableState d = lastRawState d ->
  timesFrom t polls ->
  debounceMs d <= t - c ->
  closeChanges (debounceMs d) (lastRawState d) (Some c) polls ->
  commits d polls = 0%nat.
Proof.
  induction polls as [|[t' raw] polls IH]; intros d t c Hst Ht Hgap Hcl;
    [reflexivity|].
  simpl in *. destruct Ht as [Hle Ht].
  destruct (eqb_spec raw (lastRawState d)) as [Heq|Hne]; [|lia].
  destruct (update_same_raw d (wrap32 t') raw Heq) as (Hl & _ & _ & Hs).
  unfold pollUpdate. simpl.
  rewrite (Hs ltac:(congruence)), Hst, <- Heq, eqb_reflx. simpl.
  apply (IH _ t' c); rewrite ?update_debounceMs, ?Hl; try assumption.
  - rewrite Hs by congruence. reflexivity.
  - lia.
  - now rewrite <- Heq in Hcl.
Qed.

Lemma commits_pending polls : forall d t c,
  lastChangeMs d = wrap32 c -> c <= t ->
  timesFrom t polls ->
  closeChanges (debounceMs d) (lastRawState d) (Some c) polls ->
  (commits d polls <= 1)%nat.
Proof.
  induction polls as [|[t' raw] polls IH]; intros d t c Hlc Hct Ht Hcl;
    [simpl; lia|].
  simpl in *. destruct Ht as [Hle Ht]. unfold pollUpdate. simpl.
  destruct (eqb_spec raw (lastRawState d)) as [Heq|Hne].
  - destruct (update_same_raw d (wrap32 t') raw Heq) as (Hl & Hc & Hch & Hs).
    destruct (eqb_spec (stableState (update d (wrap32 t') raw))
                       (stableState d)) as [Hsame|Hdiff].
    + simpl. apply (IH _ t' c); rewrite ?update_debounceMs, ?Hl, ?Hc;
        try assumption; try lia. now rewrite <- Heq in Hcl.
    + destruct (Hch Hdiff) as [Hnew Hgap].
      rewrite Hlc, wrap32_sub_l, wrap32_sub_r in Hgap.
      pose proof (wrap32_le (t' - c) ltac:(lia)).
      rewrite (commits_settled polls _ t' c);
        rewrite ?update_debounceMs, ?Hl; try assumption; try lia.
      now rewrite Heq.
  - destruct Hcl as [Hclose Hcl].
    destruct (update_new_raw d (wrap32 t') raw Hne (wrap32_range t'))
      as (Hl & Hc & Hch & _).
    destruct (eqb_spec (stableState (update d (wrap32 t') raw))
                       (stableState d)) as [Hsame|Hdiff].
    + simpl. apply (IH _ t' t'); rewrite ?update_debounceMs, ?Hl, ?Hc;
        try assumption; try lia.
    + destruct (Hch Hdiff) as [_ Hz]. lia.
Qed.

Lemma commits_fresh polls : forall d t,
  stableState d = lastRawState d ->
  timesFrom t polls ->
  closeChanges (debounceMs d) (lastRawState d) None polls ->
  (commits d polls <= 1)%nat.
Proof.
  induction polls as [|[t' raw] polls IH]; intros d t Hst Ht Hcl;
    [simpl; lia|].
  simpl in *. destruct Ht as [Hle Ht]. unfold pollUpdate. simpl.
  destruct (eqb_spec raw (lastRawState d)) as [Heq|Hne].
  - destruct (update_same_raw d (wrap32 t') raw Heq) as (Hl & _ & _ & Hs).
    rewrite (Hs ltac:(congruence)), Hst, <- Heq, eqb_reflx. simpl.
    apply (IH _ t'); rewrite ?update_debounceMs, ?Hl; try assumption.
    + rewrite Hs by congruence. reflexivity.
    + now rewrite <- Heq in Hcl.
  - destruct Hcl as [_ Hcl].
    destruct (update_new_raw d (wrap32 t') raw Hne (wrap32_range t'))
      as (Hl & Hc & Hch & _).
    destruct (eqb_spec (stableState (update d (wrap32 t') raw))
                       (stableState d)) as [Hsame|Hdiff].
    + simpl. apply (commits_pending polls _ t' t');
        rewrite ?update_debounceMs, ?Hl, ?Hc; try assumption; try lia.
    + destruct (Hch Hdiff) as [Hnew Hz].
      rewrite (commits_settled polls _ t' t');
        rewrite ?update_debounceMs, ?Hl; try assumption; try lia.
Qed.

End Debounce.

Section DebounceHold.

Implicit Types (d : DebouncedInput) (p : Poll) (hist : list Poll).

Lemma hold_step d hist c t p :
  heldSince hist (lastRawState d) c -> lastChangeMs d = wrap32 c ->
  c <= t -> t <= fst p ->
  exists c',
    heldSince (hist ++ [p]) (snd p) c'
    /\ lastRawState (pollUpdate d p) = snd p
    /\ lastChangeMs (pollUpdate d p) = wrap32 c'
    /\ c' <= fst p
    /\ (stableState (pollUpdate d p) <> stableState d ->
        stableState (pollUpdate d p) = snd p
        /\ debounceMs d <= fst p - c').
Proof.
  intros (older & held & -> & Hheld) Hlc Hct Hle.
  destruct p as [t' raw]. unfold pollUpdate. simpl in *.
  destruct (decide (raw = lastRawState d)) as [Heq|Hne].
  - destruct (update_same_raw d (wrap32 t') raw Heq) as (Hl & Hc & Hch & _).
    exists c. split; [|split; [exact Hl|split; [now rewrite Hc|split; [lia|]]]].
    + exists older, (held ++ [(t', raw)]). split.
      * rewrite <- app_assoc. simpl. now rewrite Heq.
      * apply Forall_app. split; [now rewrite Heq|]. now constructor.
    + intros Hd. destruct (Hch Hd) as [Hnew Hgap]. split; [exact Hnew|].
      rewrite Hlc, wrap32_sub_l, wrap32_sub_r in Hgap.
      pose proof (wrap32_le (t' - c) ltac:(lia)). lia.
  - destruct (update_new_raw d (wrap32 t') raw Hne (wrap32_range t'))
      as (Hl & Hc & Hch & _).
    exists t'. split; [|split; [exact Hl|split; [exact Hc|split; [lia|]]]].
    + exists (older ++ (c, lastRawState d) :: held), []. split; [|constructor].
      reflexivity.
    + intros Hd. destruct (Hch Hd) as [Hnew Hz]. split; [exact Hnew|]. lia.
Qed.

(** A commit at the last poll of a run means the committed level has been
    read at every poll for at least the debounce interval. *)
Lemma hold_run pre : forall d hist c t p,
  heldSince hist (lastRawState d) c -> lastChangeMs d = wrap32 c ->
  c <= t -> timesFrom t (pre ++ [p]) ->
  stableState (pollUpdate (runPolls pre d) p) <> stableState (runPolls pre d) ->
  stableState (pollUpdate (runPolls pre d) p) = snd p
  /\ exists c', heldSince (hist ++ pre ++ [p]) (snd p) c'
                /\ debounceMs d <= fst p - c'.
Proof.
  induction pre as [|p1 pre IH]; intros d hist c t p Hheld Hlc Hct Ht Hdiff.
  - simpl in *. destruct Ht as [Hle _].
    destruct (hold_step d hist c t p Hheld Hlc Hct Hle)
      as (c' & Hh & _ & _ & _ & Hcommit).
    destruct (Hcommit Hdiff) as [Hnew Hgap]. split; [assumption|].
    now exists c'.
  - simpl in Ht. destruct Ht as [Hle Ht].
    destruct (hold_step d hist c t p1 Hheld Hlc Hct Hle)
      as (c1 & Hh & Hl & Hc & Hc1 & _).
    rewrite <- Hl in Hh.
    destruct (IH (pollUpdate d p1) (hist ++ [p1]) c1 (fst p1) p Hh Hc Hc1 Ht
                 Hdiff) as [Hnew (c' & Hh' & Hgap)].
    split; [exact Hnew|]. exists c'.
    rewrite <- app_assoc in Hh'. simpl in Hh'. split; [exact Hh'|].
    unfold pollUpdate in Hgap. now rewrite update_debounceMs in Hgap.
Qed.

Lemma timesFrom_prefix pre : forall t p rest,
  timesFrom t (pre ++ p :: rest) -> timesFrom t (pre ++ [p]).
Proof.
  induction pre as [|q pre IH]; intros t p rest H; simpl in *.
  - tauto.
  - destruct H as [Hle H]. split; [assumption|]. now apply (IH _ _ rest).
Qed.

End DebounceHold.

(** C8.  Poll the input at times that never decrease.  From any state
    in which the stable level agrees with the last reading (as [begin]
    leaves it, and as it is once a level has settled), if every poll whose
    reading differs from the previous reading comes less than [debounceMs]
    after the last such poll, then [stableState] changes at most once over
    the whole sequence, however many times the reading flips.  And along
    any run from [begin], whenever a poll changes [stableState], the new
    stable level is the level just read, and the readings taken since some
    poll at least [debounceMs] earlier (that poll and the current one
    included) all show that level. *)
Theorem debounce_single_transition (dbMs : Z) (initial : bool) (t0 : Z)
    (polls : list Poll) :
  timesFrom t0 polls ->
  (forall d,
      debounceMs d = dbMs -> stableState d = lastRawState d ->
      closeChanges dbMs (lastRawState d) None polls ->
      (commits d polls <= 1)%nat)
  /\ (let d0 := begin dbMs initial (wrap32 t0) in
      forall pre p rest,
        polls = pre ++ p :: rest ->
        stableState (pollUpdate (runPolls pre d0) p)
        <> stableState (runPolls pre d0) ->
        stableState (pollUpdate (runPolls pre d0) p) = snd p
        /\ exists c,
             heldSince ((t0, initial) :: pre ++ [p]) (snd p) c
             /\ dbMs <= fst p - c).
Proof.
  intros Ht. split.
  - intros d <- Hsettled Hclose. now apply (commits_fresh polls d t0).
  - intros d0 pre p rest -> Hdiff.
    apply (hold_run pre d0 [(t0, initial)] t0 t0 p); auto; try lia.
    + exists [], []. split; [reflexivity|constructor].
    + now apply (timesFrom_prefix pre t0 p rest).
Qed.

Lemma debounce_single_transition_witness :
  Nat.le (commits (begin 25 true (wrap32 0))
            [(10, false); (12, true); (15, false); (20, false); (45, false);
             (50, false)]) 1%nat
  /\ exists c,
       heldSince [(0, true); (10, false); (12, true); (15, false);
                  (20, false); (45, false)] false c
       /\ 25 <= 45 - c.
Proof.
  assert (Ht : timesFrom 0 [(10, false); (12, true); (15, false);
                            (20, false); (45, false); (50, false)])
    by (simpl; lia).
  destruct (debounce_single_transition 25 true 0 _ Ht) as [Hone Hheld].
  split.
  - apply Hone; [reflexivity|reflexivity|]. simpl. lia.
  - apply (Hheld [(10, false); (12, true); (15, false); (20, false)]
                 (45, false) [(50, false)]).
    + reflexivity.
    + vm_compute. discriminate.
Defined.

(* ------------------------------------------------------------------ *)
(** ** Lap order *)

Section LapOrder.

Variable t0 : Z.

Implicit Types (s : Stopwatch) (a : SwAction).










End LapOrder.


(** Why start must not be repeated while running: step C has refreshed
    [gElapsedUs] at the previous iteration, so a second pulse on sensor 0
    moves the start reference forward by the time since that iteration and
    the next lap comes out smaller than the previous one, although all
    times are in order. *)
Lemma restart_while_running_shifts_laps :
  let s := runSw [SwStart 0; SwTick 1000000; SwLap 1009000 1010;
                  SwStart 1009500; SwLap 1009600 1010] resetStopwatch in
  gStartUs s = 9500
  /\ gLapUs s !!! 0%nat = 1009000 /\ gLapUs s !!! 1%nat = 1000100.
Proof. repeat split; reflexivity. Qed.

(** Why the run must stay within 2^32 us: lap times are 32-bit, so a lap
    taken later than that after the start wraps to a small value. *)
Lemma laps_wrap_past_horizon :
  let s := runSw [SwStart 0; SwLap 4294000000 4294000;
                  SwLap 4295000000 4295000] resetStopwatch in
  gLapUs s !!! 0%nat = 4294000000 /\ gLapUs s !!! 1%nat = 32704.
Proof. split; reflexivity. Qed.



(* ------------------------------------------------------------------ *)
(** ** Deadlines and counter wrap-around *)

(** The elapsed-time tests of the debounce, the rearm filter, the minimum
    pulse width, the long press and the display rate limit go through
    [usDiff] or the same subtraction: they do not depend on where the
    counter stands, wrap-around included. *)
Lemma usDiff_shift a b k :
  usDiff (wrap32 (a + k)) (wrap32 (b + k)) = usDiff a b.
Proof. unfold usDiff, wrap32. lia. Qed.

(** C5 on the code.  The click deadline and the two popup deadlines are
    stored as [nowMs + interval] and tested with [deadline <= nowMs].
    Started 1000 ms after the counter was zero, a double click pauses the
    running stopwatch and stores no lap, and a sensor lap shows the
    "lap saved" popup.  Started 500 ms before [millis()] wraps, the same
    double click is taken as two single clicks (two laps, still RUNNING),
    because each deadline wraps to a small value that the counter has
    already passed; and the popup of the sensor lap is dropped at once. *)
Theorem stored_deadlines_break_at_wraparound :
  let early := runFirmware (doubleClickAt 1000) (bootFirmware true 1000) in
  let late :=
    runFirmware (doubleClickAt (2 ^ 32 - 500))
                (bootFirmware true (wrap32 (2 ^ 32 - 500))) in
  (gState (sw early) = PAUSED /\ gLapCount (sw early) = 0%nat)
  /\ (gState (sw late) = RUNNING /\ gLapCount (sw late) = 2%nat)
  /\ lapScreenAt 1000 = LapSavedPopup 0
  /\ lapScreenAt (2 ^ 32 - 500) = MainScreen 199000.
Proof. vm_compute. repeat split; reflexivity. Qed.

(* ------------------------------------------------------------------ *)
(** ** The multi-click decoder *)

Section Clicks.

Implicit Types (f : Firmware) (it : Iter) (pos : ClickPos).

Lemma btnResolve_fire nowMs nowUs f :
  (0 < gPendingClickCount f)%nat ->
  isPressed (inBtnControl f) = false ->
  gClickSequenceDeadlineMs f <= nowMs ->
  btnResolve nowMs nowUs f
  = mkFirmware (isr f)
      (processClickSequence (gPendingClickCount f) nowUs nowMs (sw f))
      (inBtnControl f) (gBtnPressStartMs f) (gLongPressHandled f)
      0%nat 0 (gLastLcdUpdateMs f).
Proof.
  intros Hc Hp Hd. unfold btnResolve. rewrite Hp.
  destruct (Nat.ltb_spec 0 (gPendingClickCount f)); [|lia].
  destruct (Z.leb_spec (gClickSequenceDeadlineMs f) nowMs); [|lia].
  reflexivity.
Qed.

Lemma btnResolve_wait nowMs nowUs f :
  gPendingClickCount f = 0%nat \/ isPressed (inBtnControl f) = true
  \/ nowMs < gClickSequenceDeadlineMs f ->
  btnResolve nowMs nowUs f = f.
Proof.
  intros H. unfold btnResolve.
  destruct (Nat.ltb_spec 0 (gPendingClickCount f)); simpl; [|reflexivity].
  destruct (isPressed (inBtnControl f)); simpl; [reflexivity|].
  destruct (Z.leb_spec (gClickSequenceDeadlineMs f) nowMs); [|reflexivity].
  destruct H as [H|[H|H]]; [lia|discriminate|lia].
Qed.

Lemma clickStep_inv s0 pos f it pos' :
  clickInv s0 pos f -> clickStep pos f it = Some pos' ->
  clickInv s0 pos' (stepButton f it).
Proof.
  intros [Hsw Hpos] Hstep.
  unfold clickStep, btnPhase in Hstep.
  unfold stepButton, loopButton, btnUpdateFell, fell.
  destruct (update (inBtnControl f) (iterMs it) (iterRaw it))
    as [db st lr lc fe re] eqn:Hd.
  unfold isPressed in Hstep. simpl in Hstep.
  destruct pos as [k r|k p]; destruct fe, re, st; simpl in Hstep;
    try discriminate.
  - (* press *)
    injection Hstep as <-.
    unfold btnLongPress, isPressed; simpl.
    rewrite Z.sub_diag. change (kLongPressMs <=? wrap32 0) with false.
    simpl. unfold btnRose, rose; simpl.
    unfold btnResolve, isPressed; simpl. rewrite andb_false_r. simpl.
    destruct Hpos as [Hc _]. repeat split; assumption.
  - (* quiet *)
    unfold btnLongPress, isPressed; simpl.
    unfold btnRose, rose; simpl.
    unfold btnResolve, isPressed; simpl.
    destruct Hpos as [Hc Hr]. destruct r as [R|].
    + destruct (Z.ltb_spec (iterMs it) (R + kMultiClickGapMs));
        [|discriminate].
      injection Hstep as <-. rewrite Hr.
      destruct (Z.leb_spec (R + kMultiClickGapMs) (iterMs it)); [lia|].
      rewrite andb_false_r. repeat split; assumption.
    + injection Hstep as <-. subst k. rewrite Hc. simpl.
      repeat split; assumption.
  - (* release *)
    destruct (Z.leb_spec 0 (iterMs it)); [|discriminate].
    destruct (Z.ltb_spec (iterMs it + kMultiClickGapMs) (2 ^ 32));
      [|discriminate].
    simpl in Hstep. injection Hstep as <-.
    destruct Hpos as (Hc & Hp & Hl).
    unfold btnLongPress, isPressed; simpl.
    unfold btnRose, rose; simpl. rewrite Hl. simpl.
    rewrite (wrap32_small (iterMs it + kMultiClickGapMs))
      by (unfold kMultiClickGapMs in *; lia).
    unfold btnResolve, isPressed; simpl.
    destruct (Z.leb_spec (iterMs it + kMultiClickGapMs) (iterMs it));
      [unfold kMultiClickGapMs in *; lia|].
    rewrite andb_false_r. repeat split; simpl; try assumption.
    rewrite Hc. lia.
  - (* held *)
    destruct (Z.ltb_spec (wrap32 (iterMs it - p)) kLongPressMs);
      [|discriminate].
    injection Hstep as <-.
    destruct Hpos as (Hc & Hp & Hl).
    unfold btnLongPress, isPressed; simpl. rewrite Hl, Hp. simpl.
    destruct (Z.leb_spec kLongPressMs (wrap32 (iterMs it - p))); [lia|].
    unfold btnRose, rose; simpl.
    unfold btnResolve, isPressed; simpl. rewrite andb_false_r.
    repeat split; assumption.
Qed.

Lemma clicking_inv s0 iters : forall pos f pos',
  clickInv s0 pos f -> clicking pos f iters = Some pos' ->
  clickInv s0 pos' (runButton iters f).
Proof.
  induction iters as [|it iters IH]; intros pos f pos' Hinv Hrun; simpl in *.
  - now injection Hrun as <-.
  - destruct (clickStep pos f it) as [pos1|] eqn:Hstep; [|discriminate].
    apply (IH pos1); [|assumption].
    now apply (clickStep_inv s0 pos f it pos1).
Qed.

Lemma clicking_prefix pre : forall pos f post pos',
  clicking pos f (pre ++ post) = Some pos' ->
  exists pos1, clicking pos f pre = Some pos1.
Proof.
  induction pre as [|it pre IH]; intros pos f post pos' Hrun; simpl in *.
  - now exists pos.
  - destruct (clickStep pos f it) as [pos1|]; [|discriminate].
    now apply (IH pos1 _ post pos').
Qed.

(** The iteration in which the gap after the last release has run out. *)
Lemma click_expiry s0 k R f it :
  clickInv s0 (Up k (Some R)) f -> (0 < k < 256)%nat ->
  btnPhase f it = Some BtnQuiet ->
  R + kMultiClickGapMs <= iterMs it ->
  sw (stepButton f it)
  = processClickSequence k (iterUs it) (iterMs it) s0
  /\ gPendingClickCount (stepButton f it) = 0%nat
  /\ gClickSequenceDeadlineMs (stepButton f it) = 0.
Proof.
  intros (Hsw & Hc & Hd) Hk Hphase Hlate.
  rewrite Nat.mod_small in Hc by lia.
  unfold btnPhase in Hphase.
  unfold stepButton, loopButton, btnUpdateFell, fell.
  destruct (update (inBtnControl f) (iterMs it) (iterRaw it))
    as [db st lr lc fe re] eqn:Hu.
  unfold isPressed in Hphase. simpl in Hphase.
  destruct fe, re, st; simpl in Hphase; try discriminate.
  unfold btnLongPress, isPressed; simpl.
  unfold btnRose, rose; simpl.
  unfold btnResolve, isPressed; simpl. rewrite Hc, Hd, Hsw.
  destruct (Nat.ltb_spec 0 k); [|lia].
  destruct (Z.leb_spec (R + kMultiClickGapMs) (iterMs it)); [|lia].
  simpl. repeat split; reflexivity.
Qed.

End Clicks.

(** Dispatch of a click sequence, away from the wrap-around of
    [millis()].  In step B, once [gPendingClickCount] is positive, the
    button is released and [nowMs] is at or above [gClickSequenceDeadlineMs],
    [processClickSequence] runs once with the pending count and with the
    [nowUs] and [nowMs] of this iteration, and count and deadline are set
    to zero; otherwise nothing is dispatched.  One click calls [saveLapUs]
    with [nowUs] as event time, two call
    [togglePauseResumeByDoubleClick], three call [finishAndShowLaps], and
    any other count leaves the stopwatch alone.  Hence, starting with no
    pending click, three short presses, each begun before the gap after
    the previous release ran out, leave the stopwatch untouched at every
    iteration, and the first quiet iteration at or after the last release
    plus [kMultiClickGapMs] applies [finishAndShowLaps] exactly once and
    clears the count and the deadline.  Here every release is taken at
    least [kMultiClickGapMs] before [millis()] wraps, so that the stored
    deadline does not wrap. *)
Theorem click_sequence_dispatch :
  (forall f nowMs nowUs,
      (0 < gPendingClickCount f)%nat ->
      isPressed (inBtnControl f) = false ->
      gClickSequenceDeadlineMs f <= nowMs ->
      btnResolve nowMs nowUs f
      = mkFirmware (isr f)
          (processClickSequence (gPendingClickCount f) nowUs nowMs (sw f))
          (inBtnControl f) (gBtnPressStartMs f) (gLongPressHandled f)
          0%nat 0 (gLastLcdUpdateMs f))
  /\ (forall f nowMs nowUs,
        gPendingClickCount f = 0%nat \/ isPressed (inBtnControl f) = true
        \/ nowMs < gClickSequenceDeadlineMs f ->
        btnResolve nowMs nowUs f = f)
  /\ (forall nowUs nowMs s,
        processClickSequence 1 nowUs nowMs s = saveLapUs nowUs nowMs s
        /\ processClickSequence 2 nowUs nowMs s
           = togglePauseResumeByDoubleClick nowUs s
        /\ processClickSequence 3 nowUs nowMs s
           = finishAndShowLaps nowUs nowMs s
        /\ (forall n, n = 0%nat \/ (4 <= n)%nat ->
                      processClickSequence n nowUs nowMs s = s))
  /\ (forall f iters R last,
        gPendingClickCount f = 0%nat ->
        clicking (Up 0 None) f iters = Some (Up 3 (Some R)) ->
        btnPhase (runButton iters f) last = Some BtnQuiet ->
        R + kMultiClickGapMs <= iterMs last ->
        (forall pre post, iters = pre ++ post -> sw (runButton pre f) = sw f)
        /\ sw (stepButton (runButton iters f) last)
           = finishAndShowLaps (iterUs last) (iterMs last) (sw f)
        /\ gPendingClickCount (stepButton (runButton iters f) last) = 0%nat
        /\ gClickSequenceDeadlineMs (stepButton (runButton iters f) last)
           = 0).
Proof.
  split; [intros; now apply btnResolve_fire|].
  split; [intros; now apply btnResolve_wait|]. split.
  { intros nowUs nowMs s. repeat split; try reflexivity.
    intros n [->|Hn]; [reflexivity|].
    do 4 (destruct n as [|n]; [lia|]). reflexivity. }
  intros f iters R last Hzero Hrun Hquiet Hlate.
  assert (Hinv0 : clickInv (sw f) (Up 0 None) f).
  { repeat split; auto. }
  split.
  - intros pre post ->.
    destruct (clicking_prefix pre _ f post _ Hrun) as [pos1 Hpre].
    now destruct (clicking_inv (sw f) pre _ f pos1 Hinv0 Hpre) as [Hsw _].
  - pose proof (clicking_inv (sw f) iters _ f _ Hinv0 Hrun) as Hinv.
    apply (click_expiry (sw f) 3 R (runButton iters f) last Hinv);
      [lia|assumption|assumption].
Qed.

Lemma click_sequence_dispatch_example :
  sw (stepButton (runButton tripleClick runningFirmware)
                 (1900, 1900000, true))
  = finishAndShowLaps 1900000 1900 (sw runningFirmware)
  /\ gState (finishAndShowLaps 1900000 1900 (sw runningFirmware)) = FINISHED.
Proof.
  split; [|reflexivity].
  destruct click_sequence_dispatch as (_ & _ & _ & Hscenario).
  apply (Hscenario runningFirmware tripleClick 1530 (1900, 1900000, true)).
  - reflexivity.
  - vm_compute. reflexivity.
  - vm_compute. reflexivity.
  - vm_compute. discriminate.
Defined.

(** C9 on the code.  Started 1000 ms after the counter was zero, three
    short clicks 100 ms apart followed by a pause finish the running
    stopwatch, once, and store no lap.  Started 500 ms before [millis()]
    wraps, the deadlines set at the first two releases wrap to small values
    that [nowMs] has already passed, so each of these clicks is dispatched
    in the iteration of its release as a single click; the third click,
    made after the wrap, is dispatched alone when its gap runs out.  The
    result is three laps and a stopwatch still RUNNING: three single-click
    actions instead of one finish. *)
Theorem triple_click_splits_at_wraparound :
  let early := runFirmware (tripleClickAt 1000) (bootFirmware true 1000) in
  let late :=
    runFirmware (tripleClickAt (2 ^ 32 - 500))
                (bootFirmware true (wrap32 (2 ^ 32 - 500))) in
  (gState (sw early) = FINISHED /\ gLapCount (sw early) = 0%nat
   /\ gPendingClickCount early = 0%nat)
  /\ (gState (sw late) = RUNNING /\ gLapCount (sw late) = 3%nat
      /\ gPendingClickCount late = 0%nat).
Proof. vm_compute. repeat split; reflexivity. Qed.

(* ================================================================== *)
(** * Further properties of the sketch *)

(* ------------------------------------------------------------------ *)
(** ** Capacity of the event queue *)

(** X1.  A well-formed queue never holds more than fifteen events: one of
    the sixteen slots stays free to tell a full buffer from an empty one.
    The buffer is full exactly when fifteen events wait; a push is then
    dropped, and with fewer than fifteen waiting it is stored behind them.
    Pushes and pops keep the queue well formed, so the bound holds after
    any interleaving. *)
Theorem event_queue_capacity (q : EventQueue) :
  queueWf q ->
  (length (pending q) <= 15)%nat
  /\ (length (pending q) = 15%nat
      <-> ((gEventHead q + 1) mod kEventBufSize)%nat = gEventTail q)
  /\ (forall i t, length (pending q) = 15%nat -> pushEventIsr i t q = q)
  /\ (forall i t, (length (pending q) < 15)%nat ->
        pending (pushEventIsr i t q) = pending q ++ [mkEvent i t])
  /\ (forall ops,
        queueWf (snd (runQueue ops q))
        /\ (length (pending (snd (runQueue ops q))) <= 15)%nat).
Proof.
  intros Hwf.
  assert (Hbound : forall q', queueWf q' -> (length (pending q') <= 15)%nat).
  { intros q' (_ & Hh & Ht). rewrite pending_length.
    unfold kEventBufSize in *. lia. }
  assert (Hfull : length (pending q) = 15%nat
                  <-> ((gEventHead q + 1) mod kEventBufSize)%nat
                      = gEventTail q).
  { destruct Hwf as (_ & Hh & Ht). rewrite pending_length.
    unfold kEventBufSize in *. lia. }
  split; [now apply Hbound|]. split; [exact Hfull|]. split.
  { intros i t H. apply pushEventIsr_full. now apply Hfull. }
  split.
  { intros i t H. apply pushEventIsr_room; [assumption|].
    intros Hc. apply Hfull in Hc. lia. }
  intros ops.
  assert (Hrun : queueWf (snd (runQueue ops q))).
  { clear Hfull. revert q Hwf.
    induction ops as [|[i t|] ops IH]; intros q Hwf; simpl.
    - assumption.
    - apply IH. now apply pushEventIsr_wf.
    - pose proof (popEvent_wf q Hwf) as Hwf'.
      destruct (popEvent q) as [[e|] q']; simpl in *.
      + specialize (IH q' Hwf'). now destruct (runQueue ops q').
      + now apply IH. }
  split; [exact Hrun|now apply Hbound].
Qed.

Lemma event_queue_capacity_witness :
  (length (pending (snd (runQueue (repeat (QPush 1 7) 20) (evq resetIsr))))
   <= 15)%nat.
Proof.
  refine (proj2 (proj2 (proj2 (proj2 (proj2
            (event_queue_capacity (evq resetIsr) _)))) _)).
  unfold queueWf, kEventBufSize. simpl. lia.
Defined.

(* ------------------------------------------------------------------ *)
(** ** Step A of the loop *)



(* ------------------------------------------------------------------ *)
(** ** Pairing of falls and rises *)

(** X3.  For a sensor in range: a rise with no fall recorded changes
    nothing at all; a fall validates at most one rise, since a second rise
    in a row leaves the state exactly as the first one left it; and of two
    falls in a row only the later one counts, the pulse being measured
    from it. *)
Theorem fall_rise_pairing (st : IsrState) (id : nat) (t1 t2 : Z) :
  isrWf st -> (id < kSensorCount)%nat ->
  (gSawFall st !!! id = false -> handleSensorEdgeIsr id true t1 st = st)
  /\ handleSensorEdgeIsr id true t2 (handleSensorEdgeIsr id true t1 st)
     = handleSensorEdgeIsr id true t1 st
  /\ handleSensorEdgeIsr id false t2 (handleSensorEdgeIsr id false t1 st)
     = handleSensorEdgeIsr id false t2 st.
Proof.
  intros (Hq & Hf & Hs & Hl) Hid.
  assert (Hnone : forall st' t, gSawFall st' !!! id = false ->
                    handleSensorEdgeIsr id true t st' = st').
  { intros st' t Hno.
    destruct (handle_rise id t st')
      as [[_ ->]|[(Hyes & _)|(Hyes & _)]]; congruence. }
  split; [now apply Hnone|]. split.
  - apply Hnone.
    destruct (handle_rise id t1 st)
      as [[Hno ->]|[(_ & _ & ->)|(_ & _ & _ & ->)]]; simpl;
      [assumption| |]; apply list_lookup_total_insert_eq; lia.
  - rewrite !handle_fall. simpl. now rewrite !list_insert_insert_eq.
Qed.

Lemma fall_rise_pairing_witness :
  handleSensorEdgeIsr 1 true 40900
    (handleSensorEdgeIsr 1 true 40500
       (handleSensorEdgeIsr 1 false 40000 resetIsr))
  = handleSensorEdgeIsr 1 true 40500
      (handleSensorEdgeIsr 1 false 40000 resetIsr).
Proof.
  refine (proj1 (proj2 (fall_rise_pairing
            (handleSensorEdgeIsr 1 false 40000 resetIsr) 1 40500 40900 _ _))).
  - vm_compute. repeat split; lia.
  - unfold kSensorCount. lia.
Defined.

(* ------------------------------------------------------------------ *)
(** ** The stopwatch state machine *)

Section StateMachine.

Implicit Types (s : Stopwatch) (a : SwAction).

Lemma applySw_finished a s :
  isSwReset a = false -> gState s = FINISHED ->
  gState (applySw s a) = FINISHED
  /\ gStartUs (applySw s a) = gStartUs s
  /\ gElapsedUs (applySw s a) = gElapsedUs s
  /\ gLapUs (applySw s a) = gLapUs s
  /\ gLapCount (applySw s a) = gLapCount s.
Proof.
  intros Ha Hfin. destruct a as [t|t|t|t m|t m|t|]; simpl in *;
    try discriminate;
    unfold togglePauseResumeByDoubleClick, startOrResumeUs, pauseUs,
      saveLapUs, finishAndShowLaps, refreshElapsed;
    rewrite ?Hfin; simpl; auto.
Qed.

Lemma applySw_idle a s :
  s = resetStopwatch -> gState (applySw s a) = IDLE ->
  applySw s a = resetStopwatch.
Proof.
  intros -> Hidle. destruct a as [t|t|t|t m|t m|t|]; simpl in *;
    try discriminate; reflexivity.
Qed.

Lemma applySw_not_idle a s :
  isSwReset a = false -> gState s <> IDLE -> gState (applySw s a) <> IDLE.
Proof.
  intros Ha Hs. destruct a as [t|t|t|t m|t m|t|]; simpl in *;
    try discriminate;
    unfold togglePauseResumeByDoubleClick, startOrResumeUs, pauseUs,
      saveLapUs, finishAndShowLaps, refreshElapsed;
    destruct (gState s) eqn:Hst; try contradiction; simpl;
    repeat (destruct (decide _); simpl); try discriminate;
    rewrite ?Hst; try discriminate;
    match goal with H : _ /\ _ |- _ => destruct H; discriminate end.
Qed.

Lemma applySw_idle_inv a s :
  (gState s = IDLE -> s = resetStopwatch) ->
  gState (applySw s a) = IDLE -> applySw s a = resetStopwatch.
Proof.
  intros Hs Hidle. destruct (isSwReset a) eqn:Ha.
  - destruct a; try discriminate. reflexivity.
  - destruct (decide (gState s = IDLE)) as [Hi|Hn].
    + apply applySw_idle; [now apply Hs|assumption].
    + exfalso. now apply (applySw_not_idle a s Ha Hn).
Qed.

End StateMachine.

(** X4.  FINISHED can only be left by a reset.  Whatever sequence of
    start/resume, toggle, pause, lap, finish and elapsed-refresh calls
    follows, at whatever times, the state stays FINISHED and the start
    reference, the elapsed time, the lap table and the lap count keep the
    values they had when the run was finished. *)
Theorem finished_is_frozen (acts : list SwAction) (s : Stopwatch) :
  forallb (fun a => negb (isSwReset a)) acts = true ->
  gState s = FINISHED ->
  gState (runSw acts s) = FINISHED
  /\ gStartUs (runSw acts s) = gStartUs s
  /\ gElapsedUs (runSw acts s) = gElapsedUs s
  /\ gLapUs (runSw acts s) = gLapUs s
  /\ gLapCount (runSw acts s) = gLapCount s.
Proof.
  revert s. induction acts as [|a acts IH]; intros s Hno Hfin; simpl in *.
  - auto.
  - apply andb_prop in Hno as [Ha Hno]. apply negb_true_iff in Ha.
    destruct (applySw_finished a s Ha Hfin) as (H1 & H2 & H3 & H4 & H5).
    destruct (IH (applySw s a) Hno H1) as (G1 & G2 & G3 & G4 & G5).
    unfold runSw in *. rewrite G2, G3, G4, G5. auto.
Qed.

Lemma finished_is_frozen_witness :
  gState (runSw [SwStart 9000; SwLap 9500 9; SwToggle 9900; SwFinish 9950 9]
            (runSw [SwStart 0; SwLap 1000 1; SwFinish 2000 2] resetStopwatch))
  = FINISHED
  /\ gElapsedUs
       (runSw [SwStart 9000; SwLap 9500 9; SwToggle 9900; SwFinish 9950 9]
          (runSw [SwStart 0; SwLap 1000 1; SwFinish 2000 2] resetStopwatch))
     = 2000.
Proof.
  destruct (finished_is_frozen
              [SwStart 9000; SwLap 9500 9; SwToggle 9900; SwFinish 9950 9]
              (runSw [SwStart 0; SwLap 1000 1; SwFinish 2000 2] resetStopwatch))
    as (H1 & _ & H3 & _); [reflexivity|reflexivity|].
  split; [exact H1|]. rewrite H3. reflexivity.
Defined.

(** X5.  An idle stopwatch is a freshly reset one: in every state reached
    from reset by stopwatch calls, with any time arguments, state IDLE
    means that every field has its reset value (no elapsed time, no lap, no
    popup).  In particular a finish in IDLE never does anything, and IDLE
    is only left through [startOrResumeUs]. *)
Theorem idle_is_pristine (acts : list SwAction) :
  (gState (runSw acts resetStopwatch) = IDLE ->
   runSw acts resetStopwatch = resetStopwatch)
  /\ (forall nowUs nowMs,
        gState (runSw acts resetStopwatch) = IDLE ->
        finishAndShowLaps nowUs nowMs (runSw acts resetStopwatch)
        = runSw acts resetStopwatch)
  /\ (forall a,
        gState (runSw acts resetStopwatch) = IDLE ->
        gState (applySw (runSw acts resetStopwatch) a) = IDLE
        \/ gState (applySw (runSw acts resetStopwatch) a) = RUNNING).
Proof.
  assert (Hinv : forall acts' s, (gState s = IDLE -> s = resetStopwatch) ->
            gState (runSw acts' s) = IDLE -> runSw acts' s = resetStopwatch).
  { induction acts' as [|a acts' IH]; intros s Hs Hidle; simpl in *.
    - now apply Hs.
    - apply IH; [|assumption]. now apply applySw_idle_inv. }
  assert (Hidle : gState (runSw acts resetStopwatch) = IDLE ->
                  runSw acts resetStopwatch = resetStopwatch).
  { apply Hinv. reflexivity. }
  split; [exact Hidle|]. split.
  - intros nowUs nowMs H. rewrite (Hidle H). reflexivity.
  - intros a H. rewrite (Hidle H).
    destruct a as [t|t|t|t m|t m|t|]; simpl; auto.
Qed.

(* ------------------------------------------------------------------ *)
(** ** Lap deltas *)

Section LapDeltas.

Implicit Types (s : Stopwatch).

Lemma lapDeltaUs_succ s i :
  lapDeltaUs s (S i) = wrap32 (gLapUs s !!! S i - gLapUs s !!! i).
Proof.
  unfold lapDeltaUs. rewrite decide_False by lia.
  now replace (S i - 1)%nat with i by lia.
Qed.

Lemma sumDeltas_sorted s :
  (forall i, (i < gLapCount s)%nat -> 0 <= gLapUs s !!! i < 2 ^ 32) ->
  lapsSorted s ->
  forall n, (n < gLapCount s)%nat -> sumDeltas s (S n) = gLapUs s !!! n.
Proof.
  intros Hrange Hsorted. induction n as [|n IH]; intros Hn.
  - reflexivity.
  - change (sumDeltas s (S (S n)))
      with (sumDeltas s (S n) + lapDeltaUs s (S n)).
    rewrite IH by lia. rewrite lapDeltaUs_succ.
    pose proof (Hsorted n (S n) ltac:(lia) Hn).
    pose proof (Hrange n ltac:(lia)). pose proof (Hrange (S n) Hn).
    rewrite wrap32_small by lia. lia.
Qed.

End LapDeltas.

(** X6.  With lap values in the 32-bit range: adding a lap's delta to
    the previous lap gives the lap back, modulo 2^32.  When the stored laps
    are non-decreasing, each delta is the plain non-negative difference of
    consecutive laps and the deltas up to a lap add up to that lap.  When a
    lap is smaller than the one before it, its delta wraps around to 2^32
    minus the shortfall. *)
Theorem lapDeltaUs_telescopes (s : Stopwatch) :
  (forall i, (i < gLapCount s)%nat -> 0 <= gLapUs s !!! i < 2 ^ 32) ->
  (forall i, (S i < gLapCount s)%nat ->
      wrap32 (gLapUs s !!! i + lapDeltaUs s (S i)) = gLapUs s !!! S i)
  /\ (lapsSorted s ->
      forall i, (S i < gLapCount s)%nat ->
        lapDeltaUs s (S i) = gLapUs s !!! S i - gLapUs s !!! i
        /\ 0 <= lapDeltaUs s (S i))
  /\ (lapsSorted s ->
      forall n, (n < gLapCount s)%nat -> sumDeltas s (S n) = gLapUs s !!! n)
  /\ (forall i, (S i < gLapCount s)%nat ->
        gLapUs s !!! S i < gLapUs s !!! i ->
        lapDeltaUs s (S i) = 2 ^ 32 - (gLapUs s !!! i - gLapUs s !!! S i)).
Proof.
  intros Hrange. split.
  { intros i Hi. rewrite lapDeltaUs_succ.
    pose proof (Hrange i ltac:(lia)). pose proof (Hrange (S i) Hi).
    unfold wrap32. lia. }
  split.
  { intros Hsorted i Hi. rewrite lapDeltaUs_succ.
    pose proof (Hsorted i (S i) ltac:(lia) Hi).
    pose proof (Hrange i ltac:(lia)). pose proof (Hrange (S i) Hi).
    rewrite wrap32_small by lia. lia. }
  split; [intros Hsorted; now apply sumDeltas_sorted|].
  intros i Hi Hlt. rewrite lapDeltaUs_succ.
  pose proof (Hrange i ltac:(lia)). pose proof (Hrange (S i) Hi).
  unfold wrap32. lia.
Qed.

Lemma lapDeltaUs_telescopes_witness :
  lapDeltaUs (sw (runFirmware overlappingPulses (bootFirmware true 0))) 1
  = 2 ^ 32 - (71000 - 70000).
Proof.
  refine (proj2 (proj2 (proj2 (lapDeltaUs_telescopes
            (sw (runFirmware overlappingPulses (bootFirmware true 0))) _)))
            0%nat _ _).
  - intros i Hi. change (gLapCount _) with 2%nat in Hi.
    destruct i as [|[|i]]; [vm_compute; split; congruence
                           |vm_compute; split; congruence|lia].
  - change (gLapCount _) with 2%nat. lia.
  - vm_compute. reflexivity.
Defined.

(* ------------------------------------------------------------------ *)
(** ** Bounds kept by the whole program *)

Section Bounds.

Implicit Types (s : Stopwatch) (f : Firmware).

Ltac bounds_intro :=
  intros (Hlen & Hcnt & Hact & Hfin & Hidle).

Ltac bounds_split :=
  unfold swBounds; simpl;
  split; [|split; [|split; [|split]]].

Lemma swBounds_reset : swBounds resetStopwatch.
Proof.
  bounds_split; try reflexivity; try discriminate.
  unfold kMaxLaps. lia.
Qed.

Lemma swBounds_start nowUs s : swBounds s -> swBounds (startOrResumeUs nowUs s).
Proof.
  bounds_intro. unfold startOrResumeUs.
  destruct (decide (gState s = FINISHED)); [repeat split; assumption|].
  bounds_split; try assumption; discriminate.
Qed.

Lemma swBounds_pause nowUs s : swBounds s -> swBounds (pauseUs nowUs s).
Proof.
  bounds_intro. unfold pauseUs.
  destruct (decide (gState s <> RUNNING)); [repeat split; assumption|].
  bounds_split; try assumption; discriminate.
Qed.

Lemma swBounds_toggle nowUs s :
  swBounds s -> swBounds (togglePauseResumeByDoubleClick nowUs s).
Proof.
  intros H. unfold togglePauseResumeByDoubleClick.
  destruct (gState s); auto using swBounds_start, swBounds_pause.
Qed.

Lemma swBounds_lap eventUs nowMs s :
  swBounds s -> swBounds (saveLapUs eventUs nowMs s).
Proof.
  bounds_intro. unfold saveLapUs.
  destruct (decide (gState s <> RUNNING)) as [Hn|Hr];
    [repeat split; assumption|].
  destruct (decide (kMaxLaps <= gLapCount s)%nat);
    [repeat split; assumption|].
  bounds_split.
  - now rewrite length_insert.
  - lia.
  - intros _. lia.
  - intros Hf _. exfalso. apply Hr. rewrite Hf. discriminate.
  - intros Hi. exfalso. apply Hr. rewrite Hi. discriminate.
Qed.

Lemma swBounds_finish nowUs nowMs s :
  swBounds s -> swBounds (finishAndShowLaps nowUs nowMs s).
Proof.
  bounds_intro. unfold finishAndShowLaps.
  destruct (decide (gState s = IDLE /\ gLapCount s = 0%nat /\ _))
    as [(Hi & _ & _)|Hgo].
  - rewrite (Hidle Hi). simpl. apply swBounds_reset.
  - bounds_split; try assumption; try discriminate.
    intros _ Hpos. assumption.
Qed.

Lemma swBounds_refresh nowUs s : swBounds s -> swBounds (refreshElapsed nowUs s).
Proof.
  bounds_intro. unfold refreshElapsed.
  destruct (decide (gState s = RUNNING)) as [Hr|Hn];
    [|repeat split; assumption].
  bounds_split; try assumption. intros Hi. congruence.
Qed.

Lemma swBounds_click clicks nowUs nowMs s :
  swBounds s -> swBounds (processClickSequence clicks nowUs nowMs s).
Proof.
  intros H. unfold processClickSequence.
  destruct clicks as [|[|[|[|n]]]];
    auto using swBounds_lap, swBounds_toggle, swBounds_finish.
Qed.

Lemma swBounds_dispatch ev nowMs s :
  swBounds s -> swBounds (dispatchSensorEvent ev nowMs s).
Proof.
  intros H. unfold dispatchSensorEvent.
  destruct (decide _); auto using swBounds_start, swBounds_lap.
Qed.

Lemma drainEvents_inv fuel nowMs : forall q s,
  queueWf q -> swBounds s ->
  queueWf (fst (drainEvents fuel nowMs q s))
  /\ swBounds (snd (drainEvents fuel nowMs q s)).
Proof.
  induction fuel as [|fuel IH]; intros q s Hq Hs; simpl; [auto|].
  pose proof (popEvent_wf q Hq) as Hq'.
  destruct (popEvent q) as [[e|] q']; simpl in *; [|auto].
  apply IH; [assumption|now apply swBounds_dispatch].
Qed.

Lemma fwInv_resetAll f : fwInv f -> fwInv (resetAll f).
Proof.
  intros [(Hq & _) _]. split; [|apply swBounds_reset].
  apply clearIsr_wf. apply Hq.
Qed.

Lemma fwInv_loopSensors nowMs f : fwInv f -> fwInv (loopSensors nowMs f).
Proof.
  intros [(Hq & Hf & Hs & Hl) Hsw]. unfold loopSensors.
  destruct (drainEvents_inv kEventBufSize nowMs (evq (isr f)) (sw f) Hq Hsw)
    as [Hq' Hsw'].
  destruct (drainEvents _ _ _ _) as [q s]. simpl in *.
  split; [repeat split; assumption || apply Hq'|assumption].
Qed.

Lemma fwInv_loopButton nowMs nowUs raw f :
  fwInv f -> fwInv (loopButton nowMs nowUs raw f).
Proof.
  intros Hinv. unfold loopButton.
  assert (H1 : fwInv (btnUpdateFell nowMs raw f)).
  { unfold btnUpdateFell, fell. simpl. exact Hinv. }
  assert (H2 : fwInv (btnLongPress nowMs (btnUpdateFell nowMs raw f))).
  { unfold btnLongPress. destruct (_ && _); [|assumption].
    apply fwInv_resetAll in H1. exact H1. }
  assert (H3 : fwInv (btnRose nowMs
                        (btnLongPress nowMs (btnUpdateFell nowMs raw f)))).
  { unfold btnRose, rose. simpl. destruct (_ && _); exact H2. }
  unfold btnResolve. destruct (_ && _); [|assumption].
  destruct H3 as [Hi Hs]. split; [exact Hi|].
  simpl. now apply swBounds_click.
Qed.

Lemma fwInv_loopElapsed nowUs f : fwInv f -> fwInv (loopElapsed nowUs f).
Proof.
  intros [Hi Hs]. split; [exact Hi|]. simpl. now apply swBounds_refresh.
Qed.

Lemma fwInv_loopDisplay nowMs f :
  fwInv f ->
  fwInv (fst (loopDisplay nowMs f))
  /\ (forall i, screenLap (snd (loopDisplay nowMs f)) = Some i ->
        (i < gLapCount (sw (fst (loopDisplay nowMs f))))%nat).
Proof.
  intros [Hi Hsw]. pose proof Hsw as (Hlen & Hcnt & Hact & Hfin & Hidle).
  assert (Hkeep : forall last sc,
            screenLap sc = None ->
            fwInv (fst (withDisplay f last (sw f), sc))
            /\ (forall i, screenLap (snd (withDisplay f last (sw f), sc))
                          = Some i ->
                  (i < gLapCount (sw (fst (withDisplay f last (sw f), sc))))%nat)).
  { intros last sc Hsc. simpl. split; [split; assumption|].
    intros i Heq. congruence. }
  unfold loopDisplay.
  destruct (_ <? _).
  { simpl. split; [split; assumption|discriminate]. }
  destruct (decide (gState (sw f) = FINISHED)) as [Hf|Hnf].
  - destruct (decide (gLapCount (sw f) = 0%nat)) as [Hz|Hnz];
      [now apply Hkeep|].
    specialize (Hfin Hf ltac:(lia)).
    destruct (_ <=? _); [|now apply Hkeep].
    simpl. split.
    + split; [exact Hi|]. bounds_split; try assumption.
      * intros _ _. destruct (gFinalShowDelta (sw f)); [|assumption].
        destruct (decide _); lia.
      * intros Hc. congruence.
    + intros i Heq. injection Heq as <-. assumption.
  - destruct (gLapSavedPopupActive (sw f)) eqn:Hpop; [|now apply Hkeep].
    destruct (_ <=? _).
    + simpl. split; [|discriminate]. split; [exact Hi|].
      bounds_split; try assumption; try discriminate.
      intros Hc. rewrite (Hidle Hc) in Hpop. discriminate.
    + simpl. split; [split; assumption|].
      intros i Heq. injection Heq as <-. now apply Hact.
Qed.

Lemma fwInv_step a f : fwActionInRange a -> fwInv f -> fwInv (stepFirmware f a).
Proof.
  intros Ha Hinv. destruct a as [e|nowMs nowUs raw]; simpl.
  - destruct Hinv as [Hi Hs]. split; [|exact Hs]. now apply handleEdge_wf.
  - unfold loop. apply fwInv_loopDisplay, fwInv_loopElapsed, fwInv_loopButton,
      fwInv_loopSensors, Hinv.
Qed.

Lemma fwInv_run acts : forall f,
  Forall fwActionInRange acts -> fwInv f -> fwInv (runFirmware acts f).
Proof.
  induction acts as [|a acts IH]; intros f Hall Hinv; [assumption|].
  inversion Hall; subst. simpl. apply IH; [assumption|].
  now apply fwInv_step.
Qed.

Lemma fwInv_boot initial nowMs : fwInv (bootFirmware initial nowMs).
Proof.
  unfold bootFirmware. apply fwInv_resetAll. split; [|apply swBounds_reset].
  unfold isrWf, queueWf, kEventBufSize, kSensorCount. simpl. lia.
Qed.

End Bounds.

(** X7.  In every state the program reaches after [setup()], through
    any interleaving of sensor interrupts (sensors 0 to 3) and loop
    iterations with any clock values and button levels: the event buffer
    has its sixteen slots and head and tail are below sixteen, the
    per-sensor arrays have four entries, the lap table has twenty entries
    and [gLapCount] is at most twenty, and the lap indices kept for the
    "lap saved" popup and for the final review point at stored laps.
    Hence no array is ever indexed out of bounds, and whenever an
    iteration renders a lap popup, the lap it shows is one of the
    [gLapCount] stored ones. *)
Theorem firmware_bounds (initial : bool) (t0 : Z) (acts : list FwAction) :
  Forall fwActionInRange acts ->
  let f := runFirmware acts (bootFirmware initial t0) in
  (queueWf (evq (isr f))
   /\ length (gFallUs (isr f)) = kSensorCount
   /\ length (gSawFall (isr f)) = kSensorCount
   /\ length (gLastAcceptedUs (isr f)) = kSensorCount)
  /\ (length (gLapUs (sw f)) = kMaxLaps
      /\ (gLapCount (sw f) <= kMaxLaps)%nat)
  /\ (gLapSavedPopupActive (sw f) = true ->
      (gLapSavedIndex (sw f) < gLapCount (sw f))%nat)
  /\ (gState (sw f) = FINISHED -> (0 < gLapCount (sw f))%nat ->
      (gFinalLapIndex (sw f) < gLapCount (sw f))%nat)
  /\ (forall nowMs nowUs raw i,
        screenLap (snd (loop nowMs nowUs raw f)) = Some i ->
        (i < gLapCount (sw (fst (loop nowMs nowUs raw f))))%nat
        /\ (i < length (gLapUs (sw (fst (loop nowMs nowUs raw f)))))%nat).
Proof.
  intros Hall f.
  assert (Hinv : fwInv f).
  { apply fwInv_run; [assumption|apply fwInv_boot]. }
  pose proof Hinv as [Hisr (Hlen & Hcnt & Hact & Hfin & _)].
  split; [exact Hisr|]. split; [now split|]. split; [exact Hact|].
  split; [exact Hfin|].
  intros nowMs nowUs raw i Hsc. unfold loop in *.
  set (g := loopElapsed nowUs (loopButton nowMs nowUs raw
                                 (loopSensors nowMs f))) in *.
  assert (Hg : fwInv g).
  { subst g. now apply fwInv_loopElapsed, fwInv_loopButton,
      fwInv_loopSensors. }
  destruct (fwInv_loopDisplay nowMs g Hg) as [[_ (Hlen' & Hcnt' & _)] Hshow].
  specialize (Hshow i Hsc). split; [exact Hshow|].
  rewrite Hlen'. lia.
Qed.

Lemma firmware_bounds_witness :
  (gLapCount (sw (runFirmware overlappingPulses (bootFirmware true 0)))
   <= kMaxLaps)%nat.
Proof.
  refine (proj2 (proj1 (proj2 (firmware_bounds true 0 overlappingPulses _)))).
  unfold overlappingPulses, kSensorCount.
  repeat constructor; simpl; lia.
Defined.

(* ------------------------------------------------------------------ *)
(** ** Step D of the loop *)

(** X8.  The display step gives nothing back to the rest of the program.
    Whatever it renders, it leaves the capture state, the button and click
    state, the run state, the start reference, the elapsed time, the lap
    table and the lap count as they were; it only moves its own time stamp
    and the popup fields.  Less than [kLcdUpdateIntervalMs] after the
    previous update (32-bit difference) it does nothing at all. *)
Theorem loopDisplay_no_feedback (nowMs : Z) (f : Firmware) :
  let f' := fst (loopDisplay nowMs f) in
  (isr f' = isr f /\ inBtnControl f' = inBtnControl f
   /\ gBtnPressStartMs f' = gBtnPressStartMs f
   /\ gLongPressHandled f' = gLongPressHandled f
   /\ gPendingClickCount f' = gPendingClickCount f
   /\ gClickSequenceDeadlineMs f' = gClickSequenceDeadlineMs f)
  /\ (gState (sw f') = gState (sw f) /\ gStartUs (sw f') = gStartUs (sw f)
      /\ gElapsedUs (sw f') = gElapsedUs (sw f)
      /\ gLapUs (sw f') = gLapUs (sw f)
      /\ gLapCount (sw f') = gLapCount (sw f))
  /\ (wrap32 (nowMs - gLastLcdUpdateMs f) < kLcdUpdateIntervalMs ->
      loopDisplay nowMs f = (f, NoRender)).
Proof.
  unfold loopDisplay.
  destruct (Z.ltb_spec (wrap32 (nowMs - gLastLcdUpdateMs f))
                       kLcdUpdateIntervalMs) as [Hsoon|Hdue].
  { simpl. repeat split. }
  split; [|split; [|intros; lia]];
    repeat (destruct (decide _) || destruct (_ <=? _)
            || destruct (gLapSavedPopupActive _));
    simpl; repeat split.
Qed.

(** X9.  The final review walks through the laps.  In FINISHED state
    with at least one lap, a valid index and the accumulated view next, two
    display steps that are both due render that lap's accumulated time and
    then its delta, and move on to the following lap, back to lap 0 after
    the last one; each render sets the next popup time
    [kFinalPopupCycleMs] later. *)
Theorem final_review_cycles (now1 now2 : Z) (f : Firmware) :
  gState (sw f) = FINISHED ->
  (gFinalLapIndex (sw f) < gLapCount (sw f))%nat ->
  (gLapCount (sw f) <= kMaxLaps)%nat ->
  gFinalShowDelta (sw f) = false ->
  kLcdUpdateIntervalMs <= wrap32 (now1 - gLastLcdUpdateMs f) ->
  gNextFinalPopupMs (sw f) <= now1 ->
  kLcdUpdateIntervalMs <= wrap32 (now2 - now1) ->
  wrap32 (now1 + kFinalPopupCycleMs) <= now2 ->
  let r1 := loopDisplay now1 f in
  let r2 := loopDisplay now2 (fst r1) in
  snd r1 = FinalLapPopup (gFinalLapIndex (sw f)) false
  /\ snd r2 = FinalLapPopup (gFinalLapIndex (sw f)) true
  /\ gFinalLapIndex (sw (fst r2))
     = ((gFinalLapIndex (sw f) + 1) mod gLapCount (sw f))%nat
  /\ gFinalShowDelta (sw (fst r2)) = false
  /\ gNextFinalPopupMs (sw (fst r2)) = wrap32 (now2 + kFinalPopupCycleMs).
Proof.
  intros Hfin Hidx Hcnt Hacum Hdue1 Hpop1 Hdue2 Hpop2 r1 r2.
  assert (Hr1 : r1 = (withDisplay f now1
                        (mkStopwatch FINISHED (gStartUs (sw f))
                           (gElapsedUs (sw f)) (gLapUs (sw f))
                           (gLapCount (sw f)) (gFinalLapIndex (sw f)) true
                           (wrap32 (now1 + kFinalPopupCycleMs))
                           (gLapSavedPopupActive (sw f))
                           (gLapSavedPopupUntilMs (sw f))
                           (gLapSavedIndex (sw f))),
                      FinalLapPopup (gFinalLapIndex (sw f)) false)).
  { subst r1. unfold loopDisplay.
    destruct (Z.ltb_spec (wrap32 (now1 - gLastLcdUpdateMs f))
                         kLcdUpdateIntervalMs); [lia|].
    rewrite decide_True by assumption.
    rewrite decide_False by lia.
    destruct (Z.leb_spec (gNextFinalPopupMs (sw f)) now1); [|lia].
    rewrite Hacum, Hfin. reflexivity. }
  subst r2. rewrite Hr1. unfold loopDisplay. simpl.
  destruct (Z.ltb_spec (wrap32 (now2 - now1)) kLcdUpdateIntervalMs); [lia|].
  rewrite decide_False by lia.
  destruct (Z.leb_spec (wrap32 (now1 + kFinalPopupCycleMs)) now2); [|lia].
  simpl. repeat split.
  unfold kMaxLaps in *.
  replace ((gFinalLapIndex (sw f) + 1) mod 256)%nat
    with (gFinalLapIndex (sw f) + 1)%nat by lia.
  destruct (decide _) as [Hlast|Hmore].
  - replace (gFinalLapIndex (sw f) + 1)%nat with (gLapCount (sw f)) by lia.
    symmetry. apply Nat.Div0.mod_same.
  - symmetry. apply Nat.mod_small. lia.
Qed.

Lemma final_review_cycles_witness :
  snd (loopDisplay 4000
         (fst (loopDisplay 2500
                 (mkFirmware resetIsr
                    (runSw [SwStart 0; SwLap 1000 1; SwLap 1500 1;
                            SwFinish 2000 2] resetStopwatch)
                    (begin kDebounceButtonMs true 0) 0 false 0%nat 0 0))))
  = FinalLapPopup 0 true.
Proof.
  refine (proj1 (proj2 (final_review_cycles 2500 4000
            (mkFirmware resetIsr
               (runSw [SwStart 0; SwLap 1000 1; SwLap 1500 1;
                       SwFinish 2000 2] resetStopwatch)
               (begin kDebounceButtonMs true 0) 0 false 0%nat 0 0)
            _ _ _ _ _ _ _ _)));
    first [ reflexivity
          | vm_compute; intros Hc; discriminate Hc
          | vm_compute; lia ].
Defined.

(* ------------------------------------------------------------------ *)
(** ** Independence of the sensors *)

Section Independence.

Implicit Types (st : IsrState) (e : IsrEdge).

(** What an edge of sensor [id] does to that sensor's three slots, and
    whether it is accepted, as a function of those slots alone. *)
Lemma handleEdge_slots e st :
  isrWf st -> (edgeSensor e < kSensorCount)%nat ->
  let id := edgeSensor e in
  let acc := edgeHigh e && gSawFall st !!! id
             && (kMinActivePulseUs <=? usDiff (edgeUs e) (gFallUs st !!! id))
             && (kSensorRearmUs
                 <=? usDiff (gFallUs st !!! id) (gLastAcceptedUs st !!! id)) in
  acceptedAt e st
  = (if acc then Some (mkEvent id (gFallUs st !!! id)) else None)
  /\ gFallUs (handleEdge e st) !!! id
     = (if edgeHigh e then gFallUs st !!! id else edgeUs e)
  /\ gSawFall (handleEdge e st) !!! id = negb (edgeHigh e)
  /\ gLastAcceptedUs (handleEdge e st) !!! id
     = (if acc then gFallUs st !!! id else gLastAcceptedUs st !!! id).
Proof.
  intros Hwf Hid id acc. pose proof Hwf as (Hq & Hf & Hs & Hl).
  destruct (acceptedAt_cases e st Hwf Hid)
    as [(fall & Hacc & Hhigh & Hsaw & -> & Hw & Hr & Hlast & _)
       |(Hacc & Hlast & _ & Hrej)].
  - assert (Hyes : acc = true).
    { subst acc id. rewrite Hhigh, Hsaw. simpl.
      apply andb_true_intro. split; apply Z.leb_le; assumption. }
    rewrite Hyes, Hacc, Hlast, Hhigh.
    rewrite list_lookup_total_insert_eq by lia.
    destruct e as [i h now]. simpl in *. subst h. unfold handleEdge. simpl.
    destruct (handle_rise i now st)
      as [[Hno _]|[(_ & Hc & _)|(_ & _ & _ & ->)]]; [congruence| |].
    + destruct Hc; lia.
    + simpl. rewrite list_lookup_total_insert_eq by lia. auto.
  - assert (Hno : acc = false).
    { subst acc id. destruct Hrej as [H|[H|[H|H]]].
      - now rewrite H.
      - rewrite H. now rewrite andb_false_r.
      - apply Z.leb_gt in H. rewrite H. now rewrite andb_false_r.
      - apply Z.leb_gt in H. rewrite H. now rewrite andb_false_r. }
    rewrite Hno, Hacc, Hlast.
    destruct e as [i h now]. simpl in *. unfold handleEdge. simpl edgeSensor.
    simpl edgeHigh. simpl edgeUs. destruct h.
    + destruct (handle_rise i now st)
        as [[Hns ->]|[(_ & _ & ->)|(Hs1 & Hw1 & Hr1 & _)]]; simpl.
      * repeat split; auto.
      * rewrite list_lookup_total_insert_eq by lia. auto.
      * exfalso. subst acc id. simpl in Hno. rewrite Hs1 in Hno.
        apply Z.leb_le in Hw1, Hr1. rewrite Hw1, Hr1 in Hno. discriminate.
    + rewrite handle_fall. simpl.
      rewrite !list_lookup_total_insert_eq by lia. auto.
Qed.

Lemma independent_run id edges : forall st1 st2,
  isrWf st1 -> isrWf st2 ->
  Forall (fun e => (edgeSensor e < kSensorCount)%nat) edges ->
  sameSlots id st1 st2 ->
  acceptedTimes id (acceptedLog edges st1)
  = acceptedTimes id
      (acceptedLog (filter (fun e => edgeSensor e = id) edges) st2)
  /\ sameSlots id (runEdges edges st1)
       (runEdges (filter (fun e => edgeSensor e = id) edges) st2).
Proof.
  induction edges as [|e edges IH]; intros st1 st2 Hwf1 Hwf2 Hall Hsame.
  - split; [reflexivity|exact Hsame].
  - inversion Hall as [|? ? He Hrest]; subst.
    pose proof (handleEdge_wf e st1 Hwf1) as Hwf1'.
    destruct (decide (edgeSensor e = id)) as [Heq|Hne].
    + rewrite filter_cons_True by assumption. simpl.
      pose proof (handleEdge_wf e st2 Hwf2) as Hwf2'.
      destruct (handleEdge_slots e st1 Hwf1 He) as (Ha1 & Hf1 & Hs1 & Hl1).
      destruct (handleEdge_slots e st2 Hwf2 He) as (Ha2 & Hf2 & Hs2 & Hl2).
      rewrite Heq in *. destruct Hsame as (Sf & Ss & Sl).
      rewrite <- Sf, <- Ss, <- Sl in *.
      assert (Hsame' : sameSlots id (handleEdge e st1) (handleEdge e st2)).
      { repeat split; congruence. }
      destruct (IH _ _ Hwf1' Hwf2' Hrest Hsame') as [IHt IHs].
      split; [|exact IHs].
      rewrite Ha1, Ha2. destruct (_ && _); [|exact IHt].
      rewrite !acceptedTimes_cons_same. now f_equal.
    + rewrite filter_cons_False by assumption. simpl.
      assert (Hsame' : sameSlots id (handleEdge e st1) st2).
      { destruct (handleEdge_other e st1 id Hne) as (G1 & G2 & G3).
        destruct Hsame as (Sf & Ss & Sl). repeat split; congruence. }
      destruct (IH _ _ Hwf1' Hwf2 Hrest Hsame') as [IHt IHs].
      split; [|exact IHs].
      destruct (handleEdge_slots e st1 Hwf1 He) as (Ha1 & _).
      rewrite Ha1. destruct (_ && _); [|exact IHt].
      now rewrite acceptedTimes_cons_other.
Qed.

End Independence.

(** X10.  The sensors do not interfere.  The detections accepted for a
    sensor along a run of the handler, and that sensor's slots at the end,
    are the same as if the edges of the other sensors had never happened:
    they depend on the sensor's own edges only. *)
Theorem sensors_independent (st : IsrState) (edges : list IsrEdge)
    (id : nat) :
  isrWf st ->
  Forall (fun e => (edgeSensor e < kSensorCount)%nat) edges ->
  let own := filter (fun e => edgeSensor e = id) edges in
  acceptedTimes id (acceptedLog edges st)
  = acceptedTimes id (acceptedLog own st)
  /\ gFallUs (runEdges edges st) !!! id = gFallUs (runEdges own st) !!! id
  /\ gSawFall (runEdges edges st) !!! id = gSawFall (runEdges own st) !!! id
  /\ gLastAcceptedUs (runEdges edges st) !!! id
     = gLastAcceptedUs (runEdges own st) !!! id.
Proof.
  intros Hwf Hall own.
  destruct (independent_run id edges st st Hwf Hwf Hall) as [Ht Hs].
  - repeat split.
  - split; [exact Ht|exact Hs].
Qed.

Lemma sensors_independent_witness :
  acceptedTimes 1
    (acceptedLog [mkEdge 1 false 100000; mkEdge 2 false 101000;
                  mkEdge 2 true 102000; mkEdge 1 true 103000] resetIsr)
  = acceptedTimes 1
      (acceptedLog [mkEdge 1 false 100000; mkEdge 1 true 103000] resetIsr).
Proof.
  refine (proj1 (sensors_independent resetIsr
            [mkEdge 1 false 100000; mkEdge 2 false 101000;
             mkEdge 2 true 102000; mkEdge 1 true 103000] 1 _ _)).
  - unfold isrWf, queueWf, kEventBufSize, kSensorCount. simpl. lia.
  - unfold kSensorCount. repeat constructor; simpl; lia.
Defined.

(* ------------------------------------------------------------------ *)
(** ** The pin-change vectors *)

Section Vectors.

Implicit Types (st : IsrState) (p : Ports).

#[local] Arguments Z.testbit : simpl never.

Lemma land_BV_testbit x bit :
  0 <= bit -> (Z.land x (_BV bit) =? 0) = negb (Z.testbit x bit).
Proof.
  intros Hbit. unfold _BV. rewrite Z.shiftl_1_l.
  destruct (Z.testbit x bit) eqn:Hb; simpl.
  - apply Z.eqb_neq. intros H0.
    assert (Hc : Z.testbit (Z.land x (2 ^ bit)) bit = true)
      by (rewrite Z.land_spec, Hb, Z.pow2_bits_true; auto).
    rewrite H0, Z.bits_0 in Hc. discriminate.
  - apply Z.eqb_eq. apply Z.bits_inj'. intros n Hn.
    rewrite Z.land_spec, Z.bits_0, Z.pow2_bits_eqb by assumption.
    destruct (Z.eqb_spec bit n) as [<-|]; [now rewrite Hb|apply andb_false_r].
Qed.

Lemma vectorPin_edge sensorId bit cur prev nowUs st :
  0 <= bit < 8 ->
  vectorPin sensorId bit cur (Z.lxor cur prev mod 2 ^ 8) nowUs st
  = runEdges (pinEdge sensorId bit cur prev nowUs) st.
Proof.
  intros Hbit. unfold vectorPin, pinEdge.
  rewrite !land_BV_testbit by lia.
  rewrite Z.mod_pow2_bits_low by lia. rewrite Z.lxor_spec.
  destruct (Z.testbit cur bit), (Z.testbit prev bit); reflexivity.
Qed.

Lemma runEdges_app edges1 edges2 st :
  runEdges (edges1 ++ edges2) st = runEdges edges2 (runEdges edges1 st).
Proof. unfold runEdges. apply fold_left_app. Qed.

Lemma stepVector_edges irq st p :
  stepVector (st, p) irq = (runEdges (irqEdges p irq) st, irqPorts p irq).
Proof.
  destruct irq as [v t|v t]; simpl.
  - unfold ISR_PCINT2_vect. simpl.
    rewrite !vectorPin_edge by lia. now rewrite !runEdges_app.
  - unfold ISR_PCINT0_vect. simpl. now rewrite vectorPin_edge by lia.
Qed.

Lemma pinEdge_range sensorId bit cur prev nowUs :
  (sensorId < kSensorCount)%nat ->
  Forall (fun e => (edgeSensor e < kSensorCount)%nat)
         (pinEdge sensorId bit cur prev nowUs).
Proof.
  intros H. unfold pinEdge.
  destruct (eqb _ _); [apply Forall_nil_2|].
  apply Forall_cons_2; [exact H|apply Forall_nil_2].
Qed.

Lemma pinEdge_filter id sensorId bit cur prev nowUs :
  filter (fun e => edgeSensor e = id) (pinEdge sensorId bit cur prev nowUs)
  = if decide (sensorId = id) then pinEdge sensorId bit cur prev nowUs else [].
Proof.
  unfold pinEdge. destruct (eqb _ _); [now destruct (decide _)|].
  destruct (decide (sensorId = id)).
  - now rewrite filter_cons_True.
  - now rewrite filter_cons_False.
Qed.

Lemma pinEdge_alternating sensorId bit cur prev nowUs rest :
  alternating (Z.testbit cur bit) rest ->
  alternating (Z.testbit prev bit)
    (map edgeHigh (pinEdge sensorId bit cur prev nowUs) ++ rest).
Proof.
  intros Hrest. unfold pinEdge.
  destruct (eqb_spec (Z.testbit cur bit) (Z.testbit prev bit)) as [He|Hne];
    simpl.
  - now rewrite <- He.
  - split; [|assumption].
    destruct (Z.testbit cur bit), (Z.testbit prev bit);
      try reflexivity; contradiction.
Qed.

Lemma vectorEdges_alternating id irqs : forall p,
  (id < kSensorCount)%nat ->
  alternating (sensorLevel id p)
    (map edgeHigh (filter (fun e => edgeSensor e = id) (vectorEdges irqs p))).
Proof.
  induction irqs as [|irq irqs IH]; intros p Hid; [exact I|].
  simpl. rewrite filter_app, map_app.
  specialize (IH (irqPorts p irq) Hid).
  unfold kSensorCount in Hid.
  destruct irq as [v t|v t]; simpl in *;
    rewrite ?filter_app, ?map_app, !pinEdge_filter;
    destruct id as [|[|[|[|id]]]]; try lia; simpl in *;
    rewrite ?app_nil_r; try assumption;
    now apply pinEdge_alternating.
Qed.

End Vectors.

(** X11.  The two pin-change vectors turn port readings into handler
    calls.  A sequence of interrupts has the effect of calling
    [handleSensorEdgeIsr] once for each watched pin (bits 5, 6, 7 of port D
    for sensors 0, 1, 2, bit 0 of port B for sensor 3) whose bit differs
    from the previous reading, in sensor order within one interrupt, with
    the new level of the pin and the time read by that interrupt, and of
    remembering the reading.  Only sensors 0 to 3 are ever passed, changes
    of the other bits have no effect, and for each sensor the levels
    passed alternate, starting with the opposite of the snapshot: after a
    sensor's first edge, each of its rises follows a fall. *)
Theorem vectors_deliver_edges (irqs : list PortIrq) (st : IsrState)
    (p : Ports) :
  fst (runVectors irqs (st, p)) = runEdges (vectorEdges irqs p) st
  /\ snd (runVectors irqs (st, p)) = fold_left irqPorts irqs p
  /\ Forall (fun e => (edgeSensor e < kSensorCount)%nat) (vectorEdges irqs p)
  /\ (forall id, (id < kSensorCount)%nat ->
        alternating (sensorLevel id p)
          (map edgeHigh
               (filter (fun e => edgeSensor e = id) (vectorEdges irqs p))))
  /\ (forall v t,
        Z.testbit v 5 = Z.testbit (gPrevPIND p) 5 ->
        Z.testbit v 6 = Z.testbit (gPrevPIND p) 6 ->
        Z.testbit v 7 = Z.testbit (gPrevPIND p) 7 ->
        fst (ISR_PCINT2_vect v t (st, p)) = st)
  /\ (forall v t,
        Z.testbit v 0 = Z.testbit (gPrevPINB p) 0 ->
        fst (ISR_PCINT0_vect v t (st, p)) = st).
Proof.
  split; [|split; [|split; [|split; [|split]]]].
  - revert st p. induction irqs as [|irq irqs IH]; intros st p; simpl.
    + reflexivity.
    + rewrite stepVector_edges, IH. now rewrite runEdges_app.
  - revert st p. induction irqs as [|irq irqs IH]; intros st p; simpl.
    + reflexivity.
    + rewrite stepVector_edges. apply IH.
  - revert p. induction irqs as [|irq irqs IH]; intros p; simpl.
    + constructor.
    + apply Forall_app. split; [|apply IH].
      destruct irq as [v t|v t]; simpl;
        repeat (apply Forall_app; split);
        apply pinEdge_range; unfold kSensorCount; lia.
  - intros id Hid. now apply vectorEdges_alternating.
  - intros v t H5 H6 H7.
    change (ISR_PCINT2_vect v t (st, p)) with (stepVector (st, p) (IrqD v t)).
    rewrite stepVector_edges. simpl. unfold pinEdge.
    rewrite H5, H6, H7, !eqb_reflx. reflexivity.
  - intros v t H0.
    change (ISR_PCINT0_vect v t (st, p)) with (stepVector (st, p) (IrqB v t)).
    rewrite stepVector_edges. simpl. unfold pinEdge.
    rewrite H0, eqb_reflx. reflexivity.
Qed.

(* ------------------------------------------------------------------ *)
(** ** Reset forgets the past *)

Section ResetForgets.

Implicit Types (st : IsrState) (q : EventQueue).

Lemma pushEventIsr_sim i t q1 q2 :
  queueWf q1 -> queueWf q2 ->
  gEventHead q1 = gEventHead q2 -> gEventTail q1 = gEventTail q2 ->
  pending q1 = pending q2 ->
  gEventHead (pushEventIsr i t q1) = gEventHead (pushEventIsr i t q2)
  /\ gEventTail (pushEventIsr i t q1) = gEventTail (pushEventIsr i t q2)
  /\ pending (pushEventIsr i t q1) = pending (pushEventIsr i t q2).
Proof.
  intros Hw1 Hw2 Hh Ht Hp.
  destruct (decide (((gEventHead q1 + 1) mod kEventBufSize)%nat
                    = gEventTail q1)) as [Hfull|Hroom].
  - rewrite !pushEventIsr_full by congruence. auto.
  - rewrite !pushEventIsr_room by congruence.
    unfold pushEventIsr. rewrite !decide_False by congruence. simpl.
    repeat split; congruence.
Qed.

Lemma handleEdge_sim e st1 st2 :
  isrSim st1 st2 -> isrSim (handleEdge e st1) (handleEdge e st2).
Proof.
  intros (Hw1 & Hw2 & Hh & Ht & Hp & Hf & Hs & Hl).
  split; [now apply handleEdge_wf|]. split; [now apply handleEdge_wf|].
  destruct e as [id [|] now]; unfold handleEdge; simpl edgeSensor;
    simpl edgeHigh; simpl edgeUs.
  - destruct (handle_rise id now st1)
      as [[Hn1 ->]|[(Hy1 & Hr1 & ->)|(Hy1 & Hw1' & Hr1 & ->)]];
      destruct (handle_rise id now st2)
        as [[Hn2 ->]|[(Hy2 & Hr2 & ->)|(Hy2 & Hw2' & Hr2 & ->)]];
      rewrite <- ?Hf, <- ?Hs, <- ?Hl in *; simpl;
      try congruence; try (destruct Hr1; lia); try (destruct Hr2; lia);
      try (repeat split; congruence).
    destruct (pushEventIsr_sim id (gFallUs st1 !!! id) (evq st1) (evq st2))
      as (G1 & G2 & G3); try assumption; try apply Hw1; try apply Hw2.
    repeat split; congruence.
  - rewrite !handle_fall. simpl. repeat split; congruence.
Qed.

Lemma runIsr_sim acts : forall st1 st2,
  isrSim st1 st2 -> fst (runIsr acts st1) = fst (runIsr acts st2).
Proof.
  induction acts as [|[e|] acts IH]; intros st1 st2 Hsim; simpl.
  - reflexivity.
  - apply IH. now apply handleEdge_sim.
  - destruct Hsim as (Hw1 & Hw2 & Hh & Ht & Hp & Hf & Hs & Hl).
    destruct (decide (gEventHead (evq st1) = gEventTail (evq st1)))
      as [He|Hne].
    + rewrite !popEvent_empty by congruence.
      apply IH. repeat split; try assumption; try apply Hw1; try apply Hw2.
    + destruct (popEvent_some (evq st1) ltac:(apply Hw1) Hne)
        as (e1 & q1 & Hp1 & Hpend1 & _ & Hh1).
      destruct (popEvent_some (evq st2) ltac:(apply Hw2)
                  ltac:(congruence))
        as (e2 & q2 & Hp2 & Hpend2 & _ & Hh2).
      pose proof (popEvent_wf (evq st1) ltac:(apply Hw1)) as Hq1.
      pose proof (popEvent_wf (evq st2) ltac:(apply Hw2)) as Hq2.
      assert (Ht' : gEventTail q1 = gEventTail q2).
      { unfold popEvent in Hp1, Hp2.
        rewrite decide_False in Hp1 by congruence.
        rewrite decide_False in Hp2 by congruence.
        injection Hp1 as _ <-. injection Hp2 as _ <-. simpl. congruence. }
      rewrite Hp1, Hp2 in *. simpl in Hq1, Hq2.
      rewrite Hpend1, Hpend2 in Hp. injection Hp as -> Hp'.
      specialize (IH (mkIsr q1 (gFallUs st1) (gSawFall st1)
                            (gLastAcceptedUs st1))
                     (mkIsr q2 (gFallUs st2) (gSawFall st2)
                            (gLastAcceptedUs st2))).
      destruct (runIsr acts (mkIsr q1 _ _ _)) as [out1 f1].
      destruct (runIsr acts (mkIsr q2 _ _ _)) as [out2 f2].
      simpl in *. f_equal. apply IH.
      destruct Hw1 as (_ & A1 & A2 & A3). destruct Hw2 as (_ & B1 & B2 & B3).
      repeat split; simpl; try assumption; try congruence;
        try apply Hq1; try apply Hq2.
Qed.

End ResetForgets.

(** X12.  [resetAll] forgets the past.  The events handed to the loop
    after a reset, over any interleaving of edges and pops, are the same
    as after power-on: the slots of the buffer keep their old contents but
    none of them is ever read before being written again.  A second reset
    right after the first changes nothing, and the reset stopwatch and
    click counter are those of a fresh start. *)
Theorem resetAll_forgets (f : Firmware) (acts : list IsrAction) :
  length (gEventBuf (evq (isr f))) = kEventBufSize ->
  fst (runIsr acts (isr (resetAll f))) = fst (runIsr acts resetIsr)
  /\ resetAll (resetAll f) = resetAll f
  /\ sw (resetAll f) = resetStopwatch
  /\ gPendingClickCount (resetAll f) = 0%nat
  /\ gLongPressHandled (resetAll f) = false.
Proof.
  intros Hlen. split; [|repeat split].
  apply runIsr_sim.
  split; [now apply clearIsr_wf|].
  split; [apply clearIsr_wf; reflexivity|].
  repeat split.
Qed.

Lemma resetAll_forgets_witness :
  fst (runIsr afterReset (isr (resetAll busyFirmware)))
  = fst (runIsr afterReset resetIsr).
Proof.
  refine (proj1 (resetAll_forgets busyFirmware afterReset _)).
  reflexivity.
Defined.

(* ------------------------------------------------------------------ *)
(** ** Long press *)

Section LongPress.

Implicit Types (f : Firmware) (it : Iter).

Lemma stepButton_quiet f0 f it :
  quietAfterLong f0 f ->
  stableState (inBtnControl f) = false \/ iterRaw it = true ->
  quietAfterLong f0 (stepButton f it)
  /\ (stableState (inBtnControl f) = false -> iterRaw it = false ->
      stableState (inBtnControl (stepButton f it)) = false).
Proof.
  destruct f as [i s [db st lr lc fe re] ps lh pc dl ll].
  destruct it as [[ms us] raw].
  unfold quietAfterLong, flagsClear, stepButton, loopButton, iterMs, iterUs,
    iterRaw. simpl.
  intros ((-> & ->) & -> & -> & Hi & Hs) Hor.
  unfold btnUpdateFell, update, trackRaw, commitStable. simpl.
  destruct (negb (eqb raw lr)); simpl;
    destruct (db <=? _); simpl;
    destruct st, raw; simpl;
    unfold btnLongPress, btnRose, btnResolve, isPressed; simpl;
    try (destruct Hor; discriminate);
    repeat split; auto; try discriminate.
Qed.

Lemma runButton_quiet_held held : forall f0 f,
  quietAfterLong f0 f ->
  stableState (inBtnControl f) = false ->
  Forall (fun i => iterRaw i = false) held ->
  quietAfterLong f0 (runButton held f)
  /\ stableState (inBtnControl (runButton held f)) = false.
Proof.
  induction held as [|it held IH]; intros f0 f Hq Hst Hall; simpl.
  - auto.
  - inversion Hall as [|? ? Hraw Hrest]; subst.
    destruct (stepButton_quiet f0 f it Hq (or_introl Hst)) as [Hq' Hst'].
    apply IH; auto.
Qed.

Lemma runButton_quiet_released released : forall f0 f,
  quietAfterLong f0 f ->
  Forall (fun i => iterRaw i = true) released ->
  quietAfterLong f0 (runButton released f).
Proof.
  induction released as [|it rel IH]; intros f0 f Hq Hall; simpl.
  - auto.
  - inversion Hall as [|? ? Hraw Hrest]; subst.
    apply IH; auto.
    apply (stepButton_quiet f0 f it Hq (or_intror Hraw)).
Qed.

End LongPress.

(** X13.  Long press.  With the debounced button down and no long press
    handled yet, an iteration that still reads the button down does
    nothing before [kLongPressMs] have passed since the press.  Once they
    have, it resets everything and drops the clicks that were pending;
    from then on, for as long as the button is held and after it is
    released, step B changes nothing: there is no second reset and the
    release is not counted as a click. *)
Theorem long_press_resets_once (f : Firmware) (it : Iter)
    (held released : list Iter) :
  flagsClear (inBtnControl f) ->
  stableState (inBtnControl f) = false ->
  gLongPressHandled f = false ->
  iterRaw it = false ->
  Forall (fun i => iterRaw i = false) held ->
  Forall (fun i => iterRaw i = true) released ->
  let f1 := stepButton f it in
  (wrap32 (iterMs it - gBtnPressStartMs f) < kLongPressMs ->
   sameOutside f f1)
  /\ (kLongPressMs <= wrap32 (iterMs it - gBtnPressStartMs f) ->
      isr f1 = clearIsr (isr f)
      /\ sw f1 = resetStopwatch
      /\ gPendingClickCount f1 = 0%nat
      /\ gClickSequenceDeadlineMs f1 = 0
      /\ gLongPressHandled f1 = true
      /\ let f2 := runButton (held ++ released) f1 in
         isr f2 = isr f1 /\ sw f2 = sw f1
         /\ gPendingClickCount f2 = 0%nat
         /\ gLongPressHandled f2 = true).
Proof.
  intros Hfl Hst Hlh Hraw Hheld Hrel f1.
  assert (Hstep :
    (wrap32 (iterMs it - gBtnPressStartMs f) < kLongPressMs ->
     sameOutside f f1)
    /\ (kLongPressMs <= wrap32 (iterMs it - gBtnPressStartMs f) ->
        isr f1 = clearIsr (isr f) /\ sw f1 = resetStopwatch
        /\ gPendingClickCount f1 = 0%nat
        /\ gClickSequenceDeadlineMs f1 = 0
        /\ gLongPressHandled f1 = true
        /\ flagsClear (inBtnControl f1)
        /\ stableState (inBtnControl f1) = false)).
  { subst f1.
    destruct f as [i s [db st lr lc fe re] ps lh pc dl ll].
    destruct it as [[ms us] raw].
    destruct Hfl as [Hfe Hre].
    unfold stepButton, loopButton, iterMs, iterUs, iterRaw, sameOutside,
      flagsClear in *.
    simpl in *. subst.
    unfold btnUpdateFell, update, trackRaw, commitStable. simpl.
    assert (Hcommit : forall c, (db <=? c) && false = false)
      by (intros c; apply andb_false_r).
    destruct lr; simpl; rewrite Hcommit; simpl;
      unfold btnLongPress, isPressed; simpl;
      (destruct (kLongPressMs <=? wrap32 (ms - ps)) eqn:Hlong;
       [apply Z.leb_le in Hlong | apply Z.leb_gt in Hlong]);
      simpl; unfold btnRose, btnResolve, isPressed; simpl;
      rewrite ?andb_false_r; simpl;
      (split; [intros Hlt | intros Hge]); try lia;
      repeat split; reflexivity. }
  destruct Hstep as [Hbefore Hafter].
  split; [exact Hbefore|].
  intros Hge. destruct (Hafter Hge) as (Hi & Hs & Hc & Hd & Hl & Hfl1 & Hst1).
  repeat split; auto.
  all: unfold runButton; rewrite fold_left_app;
    fold (runButton held f1);
    fold (runButton released (runButton held f1)).
  all: assert (Hq1 : quietAfterLong f1 f1) by (repeat split; auto; apply Hfl1).
  all: destruct (runButton_quiet_held held f1 f1 Hq1 Hst1 Hheld) as [Hq2 _].
  all: pose proof (runButton_quiet_released released f1 _ Hq2 Hrel)
         as (_ & Hl3 & Hc3 & Hi3 & Hs3); assumption.
Qed.

Lemma long_press_resets_once_witness :
  sw (stepButton heldFirmware (6225, 6225000, false)) = resetStopwatch
  /\ gPendingClickCount
       (runButton ([(6300, 6300000, false)] ++ [(6400, 6400000, true);
                                                 (6430, 6430000, true)])
          (stepButton heldFirmware (6225, 6225000, false))) = 0%nat.
Proof.
  assert (Hfl : flagsClear (inBtnControl heldFirmware)) by (split; reflexivity).
  assert (Hh : Forall (fun i : Iter => iterRaw i = false)
                 [(6300, 6300000, false)])
    by (repeat constructor).
  assert (Hr : Forall (fun i : Iter => iterRaw i = true)
                 [(6400, 6400000, true); (6430, 6430000, true)])
    by (repeat constructor).
  assert (Hlong : kLongPressMs
                  <= wrap32 (iterMs (6225, 6225000, false)
                             - gBtnPressStartMs heldFirmware))
    by (vm_compute; discriminate).
  destruct (long_press_resets_once heldFirmware (6225, 6225000, false)
              [(6300, 6300000, false)]
              [(6400, 6400000, true); (6430, 6430000, true)]
              Hfl eq_refl eq_refl eq_refl Hh Hr) as [_ Hafter].
  destruct (Hafter Hlong) as (_ & Hs & _ & _ & _ & _ & _ & Hc & _).
  split; [exact Hs | exact Hc].
Defined.

(* ------------------------------------------------------------------ *)
(** ** First detection after a reset *)

(** X14.  The rearm reference of a reset handler is the timestamp 0, not
    the absence of a detection.  Hence after [resetAll] the first
    detection accepted for a sensor, whatever the edges, has a fall
    timestamp of at least [kSensorRearmUs]; and a well-formed first pulse
    (fall at [t1], rise at [t2], wide enough) is queued exactly when
    [t1 >= kSensorRearmUs]: a ball passing during the first 25 ms after
    [micros()] starts or wraps is not seen. *)
Theorem first_detection_after_reset (f : Firmware) (edges : list IsrEdge)
    (id : nat) (t1 t2 : Z) :
  length (gEventBuf (evq (isr f))) = kEventBufSize ->
  Forall (fun e => (edgeSensor e < kSensorCount)%nat) edges ->
  (id < kSensorCount)%nat ->
  0 <= t1 < 2 ^ 32 ->
  kMinActivePulseUs <= usDiff t2 t1 ->
  let st := isr (resetAll f) in
  (forall t, head (acceptedTimes id (acceptedLog edges st)) = Some t ->
             kSensorRearmUs <= wrap32 t)
  /\ pending (evq (runEdges [mkEdge id false t1; mkEdge id true t2] st))
     = (if t1 <? kSensorRearmUs then [] else [mkEvent id t1]).
Proof.
  intros Hlen Hall Hid Ht1 Hw st.
  assert (Hwf : isrWf st) by (now apply clearIsr_wf).
  split.
  - intros t Hhd.
    pose proof (acceptedLog_spaced id edges st Hwf Hall) as Hsp.
    destruct (acceptedTimes id (acceptedLog edges st)) as [|t' ts];
      [discriminate|].
    injection Hhd as ->. destruct Hsp as [Hsp _].
    subst st.
    change (gLastAcceptedUs (isr (resetAll f)))
      with (replicate kSensorCount 0) in Hsp.
    rewrite lookup_total_replicate_2 in Hsp by assumption.
    unfold usDiff in Hsp. now rewrite Z.sub_0_r in Hsp.
  - subst st. unfold runEdges. simpl fold_left. unfold handleEdge.
    simpl edgeSensor. simpl edgeHigh. simpl edgeUs.
    rewrite handle_fall.
    set (st1 := mkIsr _ _ _ _).
    assert (Hsaw : gSawFall st1 !!! id = true).
    { subst st1. cbn [gSawFall]. apply list_lookup_total_insert_eq.
      destruct Hwf as (_ & Hlf & Hls & _).
      change (isr (resetAll f)) with (clearIsr (isr f)) in Hlf, Hls. lia. }
    assert (Hfall : gFallUs st1 !!! id = t1).
    { subst st1. cbn [gFallUs]. apply list_lookup_total_insert_eq.
      destruct Hwf as (_ & Hlf & Hls & _).
      change (isr (resetAll f)) with (clearIsr (isr f)) in Hlf, Hls. lia. }
    assert (Hlast : gLastAcceptedUs st1 !!! id = 0).
    { subst st1. cbn [gLastAcceptedUs].
      change (gLastAcceptedUs (isr (resetAll f)))
        with (replicate kSensorCount 0).
      now apply lookup_total_replicate_2. }
    assert (Hd : usDiff t1 0 = t1).
    { unfold usDiff. rewrite Z.sub_0_r. now apply wrap32_small. }
    destruct (handle_rise id t2 st1)
      as [[Hn _]|[(_ & Hrej & ->)|(_ & _ & Hr & ->)]];
      [congruence| |];
      rewrite Hfall, Hlast, Hd in *; simpl evq.
    + destruct Hrej as [Hrej|Hrej]; [lia|].
      destruct (Z.ltb_spec t1 kSensorRearmUs); [|lia].
      subst st1. reflexivity.
    + destruct (Z.ltb_spec t1 kSensorRearmUs); [lia|].
      subst st1. simpl evq.
      rewrite pushEventIsr_room.
      * reflexivity.
      * repeat split; simpl; [assumption|unfold kEventBufSize; lia..].
      * simpl. unfold kEventBufSize. lia.
Qed.

Lemma first_detection_after_reset_witness :
  pending (evq (runEdges [mkEdge 1 false 24000; mkEdge 1 true 25000]
                  (isr (resetAll busyFirmware)))) = []
  /\ pending (evq (runEdges [mkEdge 1 false 26000; mkEdge 1 true 27000]
                     (isr (resetAll busyFirmware))))
     = [mkEvent 1 26000].
Proof.
  assert (Hid : (1 < kSensorCount)%nat) by (unfold kSensorCount; lia).
  assert (Hnil : Forall (fun e => (edgeSensor e < kSensorCount)%nat) [])
    by constructor.
  split.
  - refine (proj2 (first_detection_after_reset busyFirmware [] 1 24000 25000
                     eq_refl Hnil Hid _ _)).
    + lia.
    + vm_compute. discriminate.
  - refine (proj2 (first_detection_after_reset busyFirmware [] 1 26000 27000
                     eq_refl Hnil Hid _ _)).
    + lia.
    + vm_compute. discriminate.
Defined.

(* ------------------------------------------------------------------ *)
(** ** Measurements do not depend on the absolute time *)

Section TimeShift.

Variable k : Z.

Lemma wrap32_shift_sub a b :
  wrap32 (wrap32 (a + k) - shiftT k b) = wrap32 (wrap32 a - b).
Proof. unfold shiftT, wrap32. lia. Qed.




End TimeShift.



Section CaptureShift.

Variable k : Z.

Implicit Types (st : IsrState) (q : EventQueue).

Lemma usDiff_shiftT a b : usDiff (shiftT k a) (shiftT k b) = usDiff a b.
Proof. unfold usDiff, shiftT, wrap32. lia. Qed.

Lemma shiftT_lookup (l : list Z) i :
  (i < length l)%nat -> map (shiftT k) l !!! i = shiftT k (l !!! i).
Proof. intros H. now apply list_lookup_total_fmap. Qed.

Lemma shiftIsr_push i t st :
  pushEventIsr i (shiftT k t) (evq (shiftIsr k st))
  = evq (shiftIsr k (mkIsr (pushEventIsr i t (evq st)) (gFallUs st)
                           (gSawFall st) (gLastAcceptedUs st))).
Proof.
  unfold pushEventIsr, shiftIsr. simpl.
  destruct (decide _); simpl; [reflexivity|].
  f_equal. symmetry. apply (list_fmap_insert (shiftEvent k)).
Qed.

Lemma handleEdge_shift e st :
  isrWf st -> (edgeSensor e < kSensorCount)%nat ->
  handleEdge (shiftEdge k e) (shiftIsr k st) = shiftIsr k (handleEdge e st).
Proof.
  intros (Hq & Hf & Hs & Hl) Hid.
  destruct e as [id high now]. unfold handleEdge, shiftEdge.
  simpl edgeSensor in *. simpl edgeHigh. simpl edgeUs.
  unfold handleSensorEdgeIsr. simpl negb.
  destruct high; simpl negb; cbv iota.
  - change (gSawFall (shiftIsr k st)) with (gSawFall st).
    change (gFallUs (shiftIsr k st)) with (map (shiftT k) (gFallUs st)).
    change (gLastAcceptedUs (shiftIsr k st))
      with (map (shiftT k) (gLastAcceptedUs st)).
    destruct (gSawFall st !!! id); simpl negb; cbv iota; [|reflexivity].
    rewrite !shiftT_lookup by lia. rewrite !usDiff_shiftT.
    destruct (_ <? kMinActivePulseUs); [reflexivity|].
    destruct (_ <? kSensorRearmUs); [reflexivity|].
    rewrite shiftIsr_push. unfold shiftIsr. simpl.
    f_equal. symmetry. apply (list_fmap_insert (shiftT k)).
  - unfold shiftIsr. simpl. f_equal.
    symmetry. apply (list_fmap_insert (shiftT k)).
Qed.

Lemma popEvent_shift q :
  queueWf q ->
  popEvent (mkQueue (map (shiftEvent k) (gEventBuf q)) (gEventHead q)
                    (gEventTail q))
  = (option_map (shiftEvent k) (fst (popEvent q)),
     mkQueue (map (shiftEvent k) (gEventBuf (snd (popEvent q))))
             (gEventHead (snd (popEvent q)))
             (gEventTail (snd (popEvent q)))).
Proof.
  intros (Hl & Hh & Ht). unfold popEvent. simpl.
  destruct (decide _); simpl; [reflexivity|].
  f_equal. f_equal. apply list_lookup_total_fmap. lia.
Qed.

Lemma runIsr_shift acts : forall st,
  isrWf st ->
  Forall (fun a => match a with
                   | AEdge e => (edgeSensor e < kSensorCount)%nat
                   | APop => True
                   end) acts ->
  runIsr (map (shiftIsrAction k) acts) (shiftIsr k st)
  = (map (shiftEvent k) (fst (runIsr acts st)),
     shiftIsr k (snd (runIsr acts st))).
Proof.
  induction acts as [|[e|] acts IH]; intros st Hwf Hall;
    inversion Hall as [|? ? Ha Hrest]; subst; simpl.
  - reflexivity.
  - rewrite handleEdge_shift by assumption.
    apply IH; [now apply handleEdge_wf|assumption].
  - pose proof Hwf as (Hq & Hf & Hs & Hl).
    rewrite (popEvent_shift (evq st) Hq).
    pose proof (popEvent_wf (evq st) Hq) as Hq'.
    destruct (popEvent (evq st)) as [o q']. simpl in *.
    specialize (IH (mkIsr q' (gFallUs st) (gSawFall st)
                          (gLastAcceptedUs st))).
    unfold shiftIsr in IH at 1. simpl in IH.
    rewrite IH by (repeat split; assumption || apply Hq').
    destruct o as [ev|]; simpl;
      destruct (runIsr acts _) as [out stf]; reflexivity.
Qed.

End CaptureShift.

(** X16.  Sensor capture does not depend on the absolute time either.
    Shift every timestamp held in the capture state and every edge
    timestamp by [k] microseconds modulo 2^32: over any interleaving of
    edges and pops the same detections are accepted or rejected and the
    loop is handed the same events, [k] microseconds later.  The pulse
    width filter and the rearm filter are thus unaffected by the
    wrap-around of [micros()]. *)
Theorem capture_time_shift (k : Z) (acts : list IsrAction) (st : IsrState) :
  isrWf st ->
  Forall (fun a => match a with
                   | AEdge e => (edgeSensor e < kSensorCount)%nat
                   | APop => True
                   end) acts ->
  fst (runIsr (map (shiftIsrAction k) acts) (shiftIsr k st))
  = map (shiftEvent k) (fst (runIsr acts st))
  /\ snd (runIsr (map (shiftIsrAction k) acts) (shiftIsr k st))
     = shiftIsr k (snd (runIsr acts st))
  /\ pending (evq (shiftIsr k (snd (runIsr acts st))))
     = map (shiftEvent k) (pending (evq (snd (runIsr acts st)))).
Proof.
  intros Hwf Hall. rewrite (runIsr_shift k acts st Hwf Hall). simpl.
  split; [reflexivity|]. split; [reflexivity|].
  unfold pending, shiftIsr. simpl. rewrite map_map.
  apply map_ext_in. intros i Hi.
  assert (Hwf' : isrWf (snd (runIsr acts st))).
  { clear Hi. revert st Hwf Hall.
    induction acts as [|[e|] acts IH]; intros st Hwf Hall;
      inversion Hall as [|? ? Ha Hrest]; subst; simpl.
    - assumption.
    - apply IH; [now apply handleEdge_wf|assumption].
    - pose proof Hwf as (Hq & Hf & Hs & Hl).
      pose proof (popEvent_wf (evq st) Hq) as Hq'.
      destruct (popEvent (evq st)) as [o q']. simpl in Hq'.
      specialize (IH (mkIsr q' (gFallUs st) (gSawFall st)
                            (gLastAcceptedUs st))
                     ltac:(repeat split; assumption || apply Hq') Hrest).
      destruct o; [destruct (runIsr acts _)|]; exact IH. }
  destruct Hwf' as ((Hlen & _ & _) & _).
  apply list_lookup_total_fmap. rewrite Hlen. unfold kEventBufSize. lia.
Qed.

Lemma capture_time_shift_witness :
  fst (runIsr (map (shiftIsrAction (2 ^ 32 - 100500))
                 [AEdge (mkEdge 1 false 100000); AEdge (mkEdge 1 true 101000);
                  APop])
         (shiftIsr (2 ^ 32 - 100500) resetIsr))
  = [mkEvent 1 (2 ^ 32 - 500)].
Proof.
  refine (proj1 (capture_time_shift (2 ^ 32 - 100500)
            [AEdge (mkEdge 1 false 100000); AEdge (mkEdge 1 true 101000);
             APop] resetIsr _ _)).
  - unfold isrWf, queueWf, kEventBufSize, kSensorCount. simpl. lia.
  - unfold kSensorCount. repeat constructor; simpl; lia.
Defined.

Section DebounceShift.

Variable k : Z.

Implicit Types (d : DebouncedInput) (p : Poll).

Lemma pollUpdate_shift d p :
  pollUpdate (shiftDebounced k d) (shiftPoll k p)
  = shiftDebounced k (pollUpdate d p).
Proof.
  destruct d as [db st lr lc fe re]. destruct p as [t raw].
  unfold pollUpdate, shiftPoll, update, trackRaw, shiftDebounced. simpl.
  assert (Hnow : wrap32 (t + k) = shiftT k (wrap32 t))
    by (unfold shiftT, wrap32; lia).
  destruct (negb (eqb raw lr)); unfold commitStable; simpl.
  - rewrite !Z.sub_diag.
    destruct (_ && _); simpl; now rewrite Hnow.
  - rewrite wrap32_shift_sub.
    destruct (_ && _); reflexivity.
Qed.

Lemma runPolls_shift polls : forall d,
  runPolls (map (shiftPoll k) polls) (shiftDebounced k d)
  = shiftDebounced k (runPolls polls d).
Proof.
  induction polls as [|p polls IH]; intros d; simpl; [reflexivity|].
  now rewrite pollUpdate_shift, IH.
Qed.

Lemma commits_shift polls : forall d,
  commits (shiftDebounced k d) (map (shiftPoll k) polls) = commits d polls.
Proof.
  induction polls as [|p polls IH]; intros d; simpl; [reflexivity|].
  now rewrite pollUpdate_shift, IH.
Qed.

End DebounceShift.

(** X17.  The debounce filter does not depend on the absolute time:
    polls made [k] milliseconds later (modulo 2^32) on an input whose last
    change is recorded [k] milliseconds later give the same stable level,
    the same events and the same number of transitions, also when the polls
    cross the wrap-around of [millis()] . *)
Theorem debounce_time_shift (k : Z) (polls : list Poll) (d : DebouncedInput) :
  runPolls (map (shiftPoll k) polls) (shiftDebounced k d)
  = shiftDebounced k (runPolls polls d)
  /\ stableState (runPolls (map (shiftPoll k) polls) (shiftDebounced k d))
     = stableState (runPolls polls d)
  /\ commits (shiftDebounced k d) (map (shiftPoll k) polls) = commits d polls
  /\ (forall t0 initial,
        shiftDebounced k (begin (debounceMs d) initial (wrap32 t0))
        = begin (debounceMs d) initial (wrap32 (t0 + k))).
Proof.
  split; [apply runPolls_shift|].
  split; [now rewrite runPolls_shift|].
  split; [apply commits_shift|].
  intros t0 initial. unfold shiftDebounced, begin. simpl. f_equal.
  unfold shiftT, wrap32. lia.
Qed.

(* ------------------------------------------------------------------ *)
(** ** The stable level follows a steady reading *)

Section DebounceSettle.

Implicit Types (d : DebouncedInput) (p : Poll).

Lemma rawRun_tracks polls : forall d start,
  lastRawState d = snd start ->
  lastChangeMs d = wrap32 (fst start) ->
  lastRawState (runPolls polls d) = snd (rawRun start polls)
  /\ lastChangeMs (runPolls polls d) = wrap32 (fst (rawRun start polls))
  /\ debounceMs (runPolls polls d) = debounceMs d.
Proof.
  induction polls as [|[t raw] polls IH]; intros d start Hl Hc; simpl.
  - auto.
  - unfold rawRun, runPolls in *. simpl.
    destruct (eqb_spec raw (snd start)) as [Heq|Hne].
    + destruct (update_same_raw d (wrap32 t) raw ltac:(congruence))
        as (Hl' & Hc' & _).
      destruct (IH (pollUpdate d (t, raw)) start) as (G1 & G2 & G3).
      * unfold pollUpdate. simpl. congruence.
      * unfold pollUpdate. simpl. congruence.
      * repeat split; try assumption.
        rewrite G3. apply update_debounceMs.
    + destruct (update_new_raw d (wrap32 t) raw ltac:(congruence)
                  (wrap32_range t)) as (Hl' & Hc' & _).
      destruct (IH (pollUpdate d (t, raw)) (t, raw)) as (G1 & G2 & G3).
      * exact Hl'.
      * exact Hc'.
      * repeat split; try assumption.
        rewrite G3. apply update_debounceMs.
Qed.

Lemma rawRun_snoc start pre p :
  rawRun start (pre ++ [p])
  = if eqb (snd p) (snd (rawRun start pre)) then rawRun start pre else p.
Proof. unfold rawRun. now rewrite fold_left_app. Qed.

End DebounceSettle.

(** X18.  The stable level follows a steady reading.  Along any run of
    polls from [begin], let [c] be the time of the poll at which the
    reading last changed (the time of [begin] if it never did).  The input
    records the latest reading and [c]; and as soon as a poll comes at
    least [debounceMs] and less than 2^32 ms after [c], [stableState] is
    the level read. *)
Theorem debounce_settles (dbMs : Z) (initial : bool) (t0 : Z)
    (pre : list Poll) (p : Poll) :
  0 <= dbMs ->
  let d := runPolls (pre ++ [p]) (begin dbMs initial (wrap32 t0)) in
  let c := fst (rawRun (t0, initial) (pre ++ [p])) in
  lastRawState d = snd p
  /\ lastChangeMs d = wrap32 c
  /\ (dbMs <= fst p - c < 2 ^ 32 -> stableState d = snd p).
Proof.
  intros Hdb d c.
  destruct (rawRun_tracks (pre ++ [p]) (begin dbMs initial (wrap32 t0))
              (t0, initial) eq_refl eq_refl) as (Hl & Hc & _).
  fold d in Hl, Hc. fold c in Hc.
  assert (Hlvl : snd (rawRun (t0, initial) (pre ++ [p])) = snd p).
  { rewrite rawRun_snoc.
    destruct (eqb_spec (snd p) (snd (rawRun (t0, initial) pre)));
      congruence. }
  split; [congruence|]. split; [exact Hc|].
  intros Hheld.
  subst d. unfold runPolls in *. rewrite fold_left_app in *.
  simpl fold_left in *.
  set (d1 := fold_left pollUpdate pre (begin dbMs initial (wrap32 t0))) in *.
  assert (Hdb1 : debounceMs d1 = dbMs).
  { destruct (rawRun_tracks pre (begin dbMs initial (wrap32 t0))
                (t0, initial) eq_refl eq_refl) as (_ & _ & G). exact G. }
  destruct p as [t raw]. unfold pollUpdate, update in *.
  simpl fst in *. simpl snd in *.
  set (d2 := trackRaw d1 (wrap32 t) raw) in *.
  assert (Hc2 : lastChangeMs d2 = wrap32 c).
  { rewrite <- Hc. unfold commitStable. destruct (_ && _); reflexivity. }
  assert (Hdb2 : debounceMs d2 = dbMs).
  { subst d2. unfold trackRaw. destruct (negb _); simpl; exact Hdb1. }
  unfold commitStable.
  rewrite Hc2, Hdb2, wrap32_sub_l, wrap32_sub_r, (wrap32_small (t - c))
    by lia.
  destruct (Z.leb_spec dbMs (t - c)); [|lia]. simpl.
  destruct (eqb_spec (stableState d2) raw); simpl; [assumption|reflexivity].
Qed.

Lemma debounce_settles_witness :
  stableState (runPolls ([(10, false); (12, true); (15, false); (20, false)]
                           ++ [(40, false)])
                 (begin 25 true (wrap32 0))) = false.
Proof.
  refine (proj2 (proj2 (debounce_settles 25 true 0
            [(10, false); (12, true); (15, false); (20, false)]
            (40, false) _)) _).
  - lia.
  - vm_compute. split; [discriminate|reflexivity].
Defined.

(* ------------------------------------------------------------------ *)
(** ** Button events *)

Section ButtonEvents.

Implicit Types (f : Firmware) (d : DebouncedInput).

Lemma loopSensors_button nowMs f :
  inBtnControl (loopSensors nowMs f) = inBtnControl f
  /\ gBtnPressStartMs (loopSensors nowMs f) = gBtnPressStartMs f
  /\ gLongPressHandled (loopSensors nowMs f) = gLongPressHandled f.
Proof. unfold loopSensors. destruct (drainEvents _ _ _ _). auto. Qed.

Lemma loopDisplay_button nowMs f :
  inBtnControl (fst (loopDisplay nowMs f)) = inBtnControl f
  /\ gBtnPressStartMs (fst (loopDisplay nowMs f)) = gBtnPressStartMs f
  /\ gLongPressHandled (fst (loopDisplay nowMs f)) = gLongPressHandled f.
Proof.
  unfold loopDisplay.
  repeat (destruct (decide _) || destruct (_ <=? _) || destruct (_ <? _)
          || destruct (gLapSavedPopupActive _));
    simpl; auto.
Qed.

(** What one step B does to the debounced input and to the record of the
    press. *)
Lemma loopButton_button nowMs nowUs raw f :
  let d' := update (inBtnControl f) nowMs raw in
  let f' := loopButton nowMs nowUs raw f in
  flagsClear (inBtnControl f')
  /\ debounceMs (inBtnControl f') = debounceMs (inBtnControl f)
  /\ stableState (inBtnControl f') = stableState d'
  /\ (fellEvent d' = true -> stableState d' = false ->
      gBtnPressStartMs f' = nowMs /\ gLongPressHandled f' = false).
Proof.
  intros d' f'. subst f'.
  pose proof (update_debounceMs (inBtnControl f) nowMs raw) as Hdb.
  fold d' in Hdb.
  unfold loopButton, btnUpdateFell, fell. fold d'.
  destruct d' as [db st lr lc fe re]. simpl in *.
  unfold btnLongPress, btnRose, rose, btnResolve, isPressed.
  destruct fe, st; simpl; rewrite ?Z.sub_diag;
    try change (kLongPressMs <=? wrap32 0) with false; simpl;
    repeat match goal with
      | |- context [if ?c then _ else _] => destruct c; simpl
      end;
    repeat split; auto; discriminate.
Qed.

Lemma loop_button nowMs nowUs raw f :
  let d' := update (inBtnControl f) nowMs raw in
  let f' := fst (loop nowMs nowUs raw f) in
  flagsClear (inBtnControl f')
  /\ debounceMs (inBtnControl f') = debounceMs (inBtnControl f)
  /\ stableState (inBtnControl f') = stableState d'
  /\ (fellEvent d' = true -> stableState d' = false ->
      gBtnPressStartMs f' = nowMs /\ gLongPressHandled f' = false).
Proof.
  intros d' f'. subst d' f'. unfold loop.
  destruct (loopDisplay_button nowMs
              (loopElapsed nowUs
                 (loopButton nowMs nowUs raw (loopSensors nowMs f))))
    as (-> & -> & ->).
  unfold loopElapsed. simpl.
  destruct (loopSensors_button nowMs f) as (Hb & _ & _).
  pose proof (loopButton_button nowMs nowUs raw (loopSensors nowMs f)) as H.
  simpl in H. rewrite Hb in H. exact H.
Qed.

Lemma runFirmware_button acts : forall f,
  flagsClear (inBtnControl f) ->
  flagsClear (inBtnControl (runFirmware acts f))
  /\ debounceMs (inBtnControl (runFirmware acts f))
     = debounceMs (inBtnControl f).
Proof.
  induction acts as [|[e|ms us raw] acts IH]; intros f Hf; simpl.
  - auto.
  - apply (IH (stepFirmware f (FwEdge e))). exact Hf.
  - destruct (loop_button ms us raw f) as (Hc & Hd & _).
    destruct (IH (fst (loop ms us raw f)) Hc) as [G1 G2].
    split; [exact G1|congruence].
Qed.

Lemma update_events d nowMs raw :
  flagsClear d ->
  let d' := update d nowMs raw in
  fellEvent d' = stableState d && negb (stableState d')
  /\ roseEvent d' = negb (stableState d) && stableState d'.
Proof.
  destruct d as [db st lr lc fe re]. intros [Hfe Hre]. simpl in *. subst.
  unfold update, trackRaw, commitStable. simpl.
  destruct (negb (eqb raw lr)); simpl;
    destruct (db <=? _); simpl; destruct st, raw; simpl; auto.
Qed.

End ButtonEvents.

(** X19.  Every press and every release of the debounced button is seen
    once.  In any state reached after [setup()] both event flags of the
    button have been consumed and its debounce time is
    [kDebounceButtonMs]; hence in the next iteration [fell()] is true
    exactly when the stable level goes from released to pressed in that
    iteration and [rose()] exactly when it goes from pressed to released,
    never both; and an iteration that sees a press records its time and
    re-enables the long press. *)
Theorem button_events_exact (initial : bool) (t0 : Z) (acts : list FwAction)
    (nowMs nowUs : Z) (raw : bool) :
  let f := runFirmware acts (bootFirmware initial t0) in
  let d := inBtnControl f in
  let d' := update d nowMs raw in
  let f' := fst (loop nowMs nowUs raw f) in
  flagsClear d
  /\ debounceMs d = kDebounceButtonMs
  /\ fellEvent d' = stableState d && negb (stableState d')
  /\ roseEvent d' = negb (stableState d) && stableState d'
  /\ fellEvent d' && roseEvent d' = false
  /\ btnPhase f (nowMs, nowUs, raw) <> None
  /\ stableState (inBtnControl f') = stableState d'
  /\ (fellEvent d' = true ->
      gBtnPressStartMs f' = nowMs /\ gLongPressHandled f' = false).
Proof.
  intros f d d' f'.
  destruct (runFirmware_button acts (bootFirmware initial t0))
    as [Hclear Hdb]; [split; reflexivity|].
  fold f in Hclear, Hdb. fold d in Hclear, Hdb.
  destruct (update_events d nowMs raw Hclear) as [Hfell Hrose].
  fold d' in Hfell, Hrose.
  destruct (loop_button nowMs nowUs raw f) as (_ & _ & Hst & Hpress).
  fold d in Hst, Hpress. fold d' in Hst, Hpress. fold f' in Hst, Hpress.
  split; [exact Hclear|]. split; [exact Hdb|].
  split; [exact Hfell|]. split; [exact Hrose|].
  split; [rewrite Hfell, Hrose; destruct (stableState d), (stableState d');
          reflexivity|].
  split.
  { unfold btnPhase, iterMs, iterRaw, isPressed. simpl. fold d. fold d'.
    rewrite Hfell, Hrose.
    destruct (stableState d), (stableState d'); discriminate. }
  split; [exact Hst|].
  intros Hf. apply Hpress; [exact Hf|].
  rewrite Hfell in Hf. destruct (stableState d), (stableState d');
    try discriminate; reflexivity.
Qed.

(* ------------------------------------------------------------------ *)
(** ** Time on the display *)

Section LcdText.

Lemma digit_cases v (P : Z -> Prop) :
  0 <= v <= 9 ->
  P 0 -> P 1 -> P 2 -> P 3 -> P 4 -> P 5 -> P 6 -> P 7 -> P 8 -> P 9 -> P v.
Proof.
  intros Hv. intros.
  assert (Hc : v = 0 \/ v = 1 \/ v = 2 \/ v = 3 \/ v = 4 \/ v = 5 \/ v = 6
               \/ v = 7 \/ v = 8 \/ v = 9) by lia.
  repeat (destruct Hc as [->|Hc]; [assumption|]). now subst.
Qed.

Lemma digitValue_digit v : 0 <= v <= 9 -> digitValue (digit v) = Some v.
Proof. intros Hv. apply (digit_cases v); auto. Qed.

Lemma digit_not_nul v :
  0 <= v <= 9 -> Ascii.eqb (digit v) Ascii.zero = false.
Proof. intros Hv. apply (digit_cases v); auto. Qed.

Lemma decimal_S fuel v :
  decimal (S fuel) v
  = (if v <? 10 then [] else decimal fuel (v / 10)) ++ [digit (v mod 10)].
Proof. reflexivity. Qed.

Lemma fmtU_2 v :
  0 <= v < 100 -> fmtU 2 v = [digit (v / 10); digit (v mod 10)].
Proof.
  intros Hv. unfold fmtU. rewrite !decimal_S.
  destruct (Z.ltb_spec v 10) as [Hs|Hs].
  - replace (v / 10) with 0 by lia. reflexivity.
  - destruct (Z.ltb_spec (v / 10) 10) as [_|Hb]; [|lia].
    replace (v / 10 mod 10) with (v / 10) by lia. reflexivity.
Qed.

Lemma fmtU_3 v :
  0 <= v < 1000 ->
  fmtU 3 v = [digit (v / 100); digit (v / 10 mod 10); digit (v mod 10)].
Proof.
  intros Hv. unfold fmtU. rewrite !decimal_S.
  destruct (Z.ltb_spec v 10) as [Hs|Hs].
  - replace (v / 100) with 0 by lia. replace (v / 10 mod 10) with 0 by lia.
    reflexivity.
  - destruct (Z.ltb_spec (v / 10) 10) as [Hb|Hb].
    + replace (v / 100) with 0 by lia. reflexivity.
    + destruct (Z.ltb_spec (v / 10 / 10) 10) as [_|Hc]; [|lia].
      replace (v / 10 / 10 mod 10) with (v / 100) by lia. reflexivity.
Qed.

(** The text of a time, digit by digit. *)
Lemma formatTimeFromUs_digits us outLen :
  (10 <= outLen)%nat ->
  let m := (us / 1000 / 60000) mod 100 in
  let s := (us / 1000 / 1000) mod 60 in
  let k := (us / 1000) mod 1000 in
  formatTimeFromUs us outLen
  = [digit (m / 10); digit (m mod 10); ":"%char;
     digit (s / 10); digit (s mod 10); ":"%char;
     digit (k / 100); digit (k / 10 mod 10); digit (k mod 10)].
Proof.
  intros Hlen m s k. unfold formatTimeFromUs. fold m s k.
  rewrite (fmtU_2 m), (fmtU_2 s), (fmtU_3 k) by (subst m s k; lia).
  unfold snprintf. apply take_ge. simpl. lia.
Qed.

Lemma readU_2 a b :
  0 <= a <= 9 -> 0 <= b <= 9 -> readU 0 [digit a; digit b] = Some (10 * a + b).
Proof.
  intros Ha Hb. cbn [readU]. rewrite !digitValue_digit by assumption.
  cbn [readU]. f_equal; lia.
Qed.

Lemma readU_3 a b c :
  0 <= a <= 9 -> 0 <= b <= 9 -> 0 <= c <= 9 ->
  readU 0 [digit a; digit b; digit c] = Some (100 * a + 10 * b + c).
Proof.
  intros Ha Hb Hc. cbn [readU]. rewrite !digitValue_digit by assumption.
  cbn [readU]. f_equal; lia.
Qed.

Lemma readTime_format us outLen :
  (10 <= outLen)%nat ->
  readTime (formatTimeFromUs us outLen)
  = Some ((us / 1000 / 60000) mod 100 * 60000
          + (us / 1000 / 1000) mod 60 * 1000 + (us / 1000) mod 1000).
Proof.
  intros Hlen. rewrite formatTimeFromUs_digits by assumption.
  unfold readTime. rewrite decide_True by (split; reflexivity).
  rewrite !readU_2, readU_3 by lia. f_equal. lia.
Qed.

End LcdText.

(** X20.  The time shown is exact.  For every 32-bit time in
    microseconds [formatTimeFromUs] writes the nine characters
    [MM:SS:mmm] (so it fits the 12-byte buffers it is given), and reading
    minutes, seconds and milliseconds back from the text gives the time in
    whole milliseconds: the reduction of the minutes modulo 100 never takes
    effect, since 2^32 microseconds are less than 72 minutes.  Hence two
    times are shown alike exactly when they agree in whole milliseconds. *)
Theorem formatTimeFromUs_exact (us : Z) (outLen : nat) :
  0 <= us < 2 ^ 32 -> (10 <= outLen)%nat ->
  length (formatTimeFromUs us outLen) = 9%nat
  /\ readTime (formatTimeFromUs us outLen) = Some (us / 1000)
  /\ (forall us', 0 <= us' < 2 ^ 32 ->
        formatTimeFromUs us outLen = formatTimeFromUs us' outLen
        <-> us / 1000 = us' / 1000).
Proof.
  intros Hus Hlen.
  assert (Hread : forall u, 0 <= u < 2 ^ 32 ->
            readTime (formatTimeFromUs u outLen) = Some (u / 1000)).
  { intros u Hu. rewrite readTime_format by assumption. f_equal. lia. }
  split; [now rewrite formatTimeFromUs_digits|].
  split; [now apply Hread|].
  intros us' Hus'. split.
  - intros Heq. pose proof (Hread us Hus) as H1.
    rewrite Heq, (Hread us' Hus') in H1. now injection H1.
  - intros Heq. rewrite !formatTimeFromUs_digits by assumption.
    now rewrite Heq.
Qed.

Lemma formatTimeFromUs_exact_witness :
  formatTimeFromUs 4294967295 12 = text "71:34:967"
  /\ readTime (formatTimeFromUs 4294967295 12) = Some 4294967.
Proof.
  split; [reflexivity|].
  refine (proj1 (proj2 (formatTimeFromUs_exact 4294967295 12 _ _))); lia.
Defined.

(* ------------------------------------------------------------------ *)
(** ** Padding a line *)

Section Pad16.

Implicit Types (src out : list Ascii.ascii).

Lemma cString_lookup src i :
  (i < length (cString src))%nat ->
  src !!! i <> Ascii.zero /\ cString src !!! i = src !!! i.
Proof.
  revert i. induction src as [|c rest IH]; intros i Hi; simpl in *; [lia|].
  destruct (Ascii.eqb_spec c Ascii.zero) as [->|Hc]; simpl in *; [lia|].
  destruct i as [|i]; simpl; [now split|]. apply IH. lia.
Qed.

Lemma cString_end src :
  src !!! length (cString src) = Ascii.zero.
Proof.
  induction src as [|c rest IH]; simpl; [reflexivity|].
  destruct (Ascii.eqb_spec c Ascii.zero) as [->|Hc]; simpl; [reflexivity|].
  exact IH.
Qed.

Lemma cString_no_nul src : Forall (fun c => c <> Ascii.zero) (cString src).
Proof.
  induction src as [|c rest IH]; simpl; [constructor|].
  destruct (Ascii.eqb_spec c Ascii.zero); [constructor|].
  now constructor.
Qed.

Lemma cString_id src :
  Forall (fun c => c <> Ascii.zero) src -> cString src = src.
Proof.
  induction 1 as [|c rest Hc _ IH]; simpl; [reflexivity|].
  destruct (Ascii.eqb_spec c Ascii.zero); [contradiction|]. now rewrite IH.
Qed.

(** The loop of [pad16] after any number of turns. *)
Lemma pad16_copy_spec src fuel : forall i out,
  (i + fuel = 16)%nat -> length out = 16%nat ->
  (i <= length (cString src))%nat ->
  length (pad16_copy fuel i src out) = 16%nat
  /\ forall j,
       pad16_copy fuel i src out !!! j
       = if decide (i <= j < length (cString src) /\ j < 16)%nat
         then src !!! j else out !!! j.
Proof.
  induction fuel as [|fuel IH]; intros i out Hi Hlen Hle; simpl.
  - split; [assumption|]. intros j.
    destruct (decide _) as [Hj|]; [lia|reflexivity].
  - destruct (Nat.ltb_spec i 16) as [Hlt|]; [|lia]. simpl.
    destruct (decide (i < length (cString src))%nat) as [Hin|Hout].
    + destruct (cString_lookup src i Hin) as [Hnz _].
      destruct (Ascii.eqb_spec (src !!! i) Ascii.zero); [contradiction|].
      simpl.
      destruct (IH (S i) (<[i := src !!! i]> out)) as [Hl Hj];
        [lia|now rewrite length_insert|lia|].
      split; [exact Hl|]. intros j. rewrite Hj.
      destruct (decide (S i <= j < _ /\ _)%nat),
        (decide (i <= j < _ /\ _)%nat); try lia; try reflexivity.
      * assert (j = i) as -> by lia.
        apply list_lookup_total_insert_eq. lia.
      * apply list_lookup_total_insert_ne. lia.
    + assert (Hz : src !!! i = Ascii.zero).
      { replace i with (length (cString src)) by lia. apply cString_end. }
      rewrite Hz. simpl.
      split; [assumption|]. intros j.
      destruct (decide _); [lia|reflexivity].
Qed.

(** Two buffers of 16 characters that agree at every index are equal. *)
Lemma line_ext (a b : list Ascii.ascii) :
  length a = 16%nat -> length b = 16%nat ->
  (forall j, (j < 16)%nat -> a !!! j = b !!! j) -> a = b.
Proof.
  intros Ha Hb Hj. apply (list_eq_same_length a b 16); try assumption.
  intros i x y Hi Hx Hy.
  rewrite list_lookup_alt in Hx, Hy. destruct Hx as [_ <-], Hy as [_ <-].
  now apply Hj.
Qed.

Lemma pad16_length src : length (pad16 src) = 16%nat.
Proof.
  apply (pad16_copy_spec src 16 0); [reflexivity|apply length_replicate|lia].
Qed.

Lemma pad16_lookup src j :
  (j < 16)%nat ->
  pad16 src !!! j
  = if decide (j < length (cString src))%nat then src !!! j else " "%char.
Proof.
  intros Hj. unfold pad16.
  destruct (pad16_copy_spec src 16 0 (replicate 16 " "%char)) as [_ H];
    [reflexivity|apply length_replicate|lia|].
  rewrite H.
  destruct (decide _), (decide _); try lia; try reflexivity.
  now apply lookup_total_replicate_2.
Qed.

Lemma padded_length line :
  (length line <= 16)%nat -> length (padded line) = 16%nat.
Proof.
  intros H. unfold padded. rewrite length_app, length_replicate. lia.
Qed.

(** A line of at most 16 characters without NUL is not cut. *)
Lemma pad16_padded line :
  Forall (fun c => c <> Ascii.zero) line -> (length line <= 16)%nat ->
  pad16 line = padded line.
Proof.
  intros Hnz Hlen. apply line_ext.
  - apply pad16_length.
  - now apply padded_length.
  - intros j Hj. rewrite pad16_lookup by assumption.
    rewrite (cString_id line Hnz). unfold padded.
    destruct (decide (j < length line)%nat).
    + now rewrite lookup_total_app_l.
    + rewrite lookup_total_app_r by lia.
      symmetry. apply lookup_total_replicate_2. lia.
Qed.

Lemma pad16_no_nul src : Forall (fun c => c <> Ascii.zero) (pad16 src).
Proof.
  refine (Forall_lookup_total_2 _ _ _).
  intros j Hj. rewrite pad16_length in Hj.
  rewrite pad16_lookup by assumption.
  destruct (decide _) as [Hin|]; [|discriminate].
  now destruct (cString_lookup src j Hin).
Qed.

End Pad16.

(** X21.  [pad16] always delivers 16 characters, none of them NUL: at
    each column the character of the source text when the column lies
    before the end of the text (its first NUL), a space otherwise.  So a
    text of at most 16 characters is shown whole and filled up with spaces,
    a longer one loses what is beyond column 16, and padding a padded line
    changes nothing. *)
Theorem pad16_spec (src : list Ascii.ascii) :
  length (pad16 src) = 16%nat
  /\ (forall j, (j < 16)%nat ->
        pad16 src !!! j
        = if decide (j < length (cString src))%nat then src !!! j
          else " "%char)
  /\ Forall (fun c => c <> Ascii.zero) (pad16 src)
  /\ pad16 src = padded (take 16 (cString src))
  /\ pad16 (pad16 src) = pad16 src.
Proof.
  split; [apply pad16_length|]. split; [apply pad16_lookup|].
  split; [apply pad16_no_nul|]. split.
  - apply line_ext.
    + apply pad16_length.
    + apply padded_length. rewrite length_take. lia.
    + intros j Hj. rewrite pad16_lookup by assumption. unfold padded.
      rewrite length_take.
      destruct (decide (j < length (cString src))%nat) as [Hin|Hout].
      * rewrite lookup_total_app_l by (rewrite length_take; lia).
        rewrite lookup_total_take_lt by lia.
        symmetry. now apply cString_lookup.
      * rewrite lookup_total_app_r by (rewrite length_take; lia).
        symmetry. apply lookup_total_replicate_2. rewrite length_take. lia.
  - rewrite (pad16_padded (pad16 src)).
    + unfold padded. rewrite pad16_length. simpl. apply app_nil_r.
    + apply pad16_no_nul.
    + rewrite pad16_length. lia.
Qed.

(* ------------------------------------------------------------------ *)
(** ** The line cache *)

Section LineCache.

Implicit Types (l : Lcd) (line : list Ascii.ascii).

Lemma sameLine_iff (a b : list Ascii.ascii) :
  length a = 16%nat -> length b = 16%nat ->
  sameLine a b = true <-> a = b.
Proof.
  intros Ha Hb. unfold sameLine. rewrite forallb_forall. split.
  - intros H. apply line_ext; try assumption.
    intros j Hj. apply Ascii.eqb_eq, H, in_seq. lia.
  - intros -> j _. apply Ascii.eqb_refl.
Qed.

Lemma sameLine_nul line : sameLine (replicate 16 Ascii.zero) (pad16 line) = false.
Proof.
  destruct (sameLine _ _) eqn:Hs; [|reflexivity].
  apply sameLine_iff in Hs;
    [|apply length_replicate|apply pad16_length].
  pose proof (pad16_no_nul line) as Hnz. rewrite <- Hs in Hnz.
  inversion Hnz as [|? ? Hc _]. now contradiction Hc.
Qed.

(** Writing a line through a usable cache. *)
Lemma lcdWriteLineCached_row0 line l :
  lcdUsable l ->
  let l' := lcdWriteLineCached 0 line l in
  lcdRow0 l' = pad16 line /\ gLcdCache0 l' = pad16 line
  /\ lcdRow1 l' = lcdRow1 l /\ gLcdCache1 l' = gLcdCache1 l.
Proof.
  intros (H0 & H1 & Hc0 & Hc1). unfold lcdWriteLineCached.
  rewrite !decide_True by reflexivity.
  destruct (sameLine (gLcdCache0 l) (pad16 line)) eqn:Hs; simpl; [|auto].
  destruct Hc0 as [Hc|Hc].
  - apply sameLine_iff in Hs;
      [|now rewrite Hc|apply pad16_length].
    repeat split; congruence.
  - rewrite Hc, sameLine_nul in Hs. discriminate.
Qed.

Lemma lcdWriteLineCached_row1 line l :
  lcdUsable l ->
  let l' := lcdWriteLineCached 1 line l in
  lcdRow1 l' = pad16 line /\ gLcdCache1 l' = pad16 line
  /\ lcdRow0 l' = lcdRow0 l /\ gLcdCache0 l' = gLcdCache0 l.
Proof.
  intros (H0 & H1 & Hc0 & Hc1). unfold lcdWriteLineCached.
  rewrite !decide_False by discriminate.
  destruct (sameLine (gLcdCache1 l) (pad16 line)) eqn:Hs; simpl; [|auto].
  destruct Hc1 as [Hc|Hc].
  - apply sameLine_iff in Hs;
      [|now rewrite Hc|apply pad16_length].
    repeat split; congruence.
  - rewrite Hc, sameLine_nul in Hs. discriminate.
Qed.

(** Two lines written one after the other, as every render function
    does. *)
Lemma render_lines line0 line1 l :
  lcdUsable l ->
  let l' := lcdWriteLineCached 1 line1 (lcdWriteLineCached 0 line0 l) in
  lcdCoherent l' /\ lcdRow0 l' = pad16 line0 /\ lcdRow1 l' = pad16 line1.
Proof.
  intros Hu.
  destruct (lcdWriteLineCached_row0 line0 l Hu) as (A0 & A1 & A2 & A3).
  assert (Hu1 : lcdUsable (lcdWriteLineCached 0 line0 l)).
  { destruct Hu as (H0 & H1 & Hc0 & Hc1).
    split; [rewrite A0; apply pad16_length|]. split; [congruence|].
    split; [left; congruence|]. rewrite A2, A3. exact Hc1. }
  destruct (lcdWriteLineCached_row1 line1 _ Hu1) as (B0 & B1 & B2 & B3).
  simpl. unfold lcdCoherent.
  rewrite B0, B1, B2, B3, A0, A1. 
  repeat split; auto; apply pad16_length.
Qed.

Lemma lcdCoherent_usable l : lcdCoherent l -> lcdUsable l.
Proof. intros (H0 & H1 & Hc0 & Hc1). repeat split; auto. Qed.

Lemma lcdCacheClear_usable l :
  length (lcdRow0 l) = 16%nat -> length (lcdRow1 l) = 16%nat ->
  lcdUsable (lcdCacheClear l).
Proof. intros H0 H1. repeat split; auto. Qed.

End LineCache.

(** X22.  The line cache never hides a change.  When the cache lines
    hold what the display shows, [lcdWriteLineCached] leaves the row
    showing the padded text and the cache in step with the display,
    touches neither the other row nor its cache line, sends a line to the
    display exactly when the row showed something else, and does nothing
    when called again with the same text.  After the cache was filled with
    NUL, as [resetAll] does, the line is sent even when the row already
    shows it. *)
Theorem lcd_cache_sound (row : nat) (line : list Ascii.ascii) (l : Lcd) :
  (row < 2)%nat -> lcdCoherent l ->
  let l' := lcdWriteLineCached row line l in
  lcdCoherent l'
  /\ lcdRow row l' = pad16 line
  /\ lcdRow (1 - row) l' = lcdRow (1 - row) l
  /\ (lcdRow row l = pad16 line -> l' = l)
  /\ (lcdRow row l <> pad16 line -> lcdPrints l' = S (lcdPrints l))
  /\ lcdWriteLineCached row line l' = l'
  /\ lcdPrints (lcdWriteLineCached row line (lcdCacheClear l))
     = S (lcdPrints l).
Proof.
  intros Hrow Hco l'. pose proof Hco as (H0 & H1 & Hc0 & Hc1).
  pose proof (lcdCoherent_usable l Hco) as Hu.
  assert (Hsame : forall k, lcdCoherent k -> lcdRow row k = pad16 line ->
            lcdWriteLineCached row line k = k).
  { intros k (K0 & K1 & Kc0 & Kc1) Hk. unfold lcdWriteLineCached, lcdRow in *.
    destruct (decide (row = 0%nat));
      [rewrite Kc0, Hk|rewrite Kc1, Hk];
      (replace (sameLine (pad16 line) (pad16 line)) with true;
       [reflexivity|symmetry; apply sameLine_iff; auto using pad16_length]). }
  assert (Hdiff : forall k, lcdCoherent k -> lcdRow row k <> pad16 line ->
            lcdPrints (lcdWriteLineCached row line k) = S (lcdPrints k)).
  { intros k (K0 & K1 & Kc0 & Kc1) Hk. unfold lcdWriteLineCached, lcdRow in *.
    destruct (decide (row = 0%nat)).
    - destruct (sameLine (gLcdCache0 k) (pad16 line)) eqn:Hs; [|reflexivity].
      apply sameLine_iff in Hs; [congruence|congruence|apply pad16_length].
    - destruct (sameLine (gLcdCache1 k) (pad16 line)) eqn:Hs; [|reflexivity].
      apply sameLine_iff in Hs; [congruence|congruence|apply pad16_length]. }
  assert (Hres : lcdCoherent l' /\ lcdRow row l' = pad16 line
                 /\ lcdRow (1 - row) l' = lcdRow (1 - row) l).
  { subst l'. unfold lcdRow, lcdCoherent.
    destruct row as [|[|row]]; [| |lia]; simpl.
    - destruct (lcdWriteLineCached_row0 line l Hu) as (A0 & A1 & A2 & A3).
      rewrite A0, A1, A2, A3.
      repeat split; auto using pad16_length.
    - destruct (lcdWriteLineCached_row1 line l Hu) as (A0 & A1 & A2 & A3).
      rewrite A0, A1, A2, A3.
      repeat split; auto using pad16_length. }
  destruct Hres as (R1 & R2 & R3).
  split; [exact R1|]. split; [exact R2|]. split; [exact R3|].
  split; [now apply Hsame|]. split; [now apply Hdiff|].
  split; [now apply Hsame|].
  unfold lcdWriteLineCached, lcdCacheClear. simpl.
  destruct (decide (row = 0%nat)); rewrite sameLine_nul; reflexivity.
Qed.

Lemma lcd_cache_sound_witness :
  lcdRow 1 (lcdWriteLineCached 1 (formatTimeFromUs 81234567 12) pausedLcd)
  = text "01:21:234       "
  /\ lcdRow 0 (lcdWriteLineCached 1 (formatTimeFromUs 81234567 12) pausedLcd)
     = text "Pausado V:01    ".
Proof.
  assert (Hco : lcdCoherent pausedLcd) by (repeat split).
  destruct (lcd_cache_sound 1 (formatTimeFromUs 81234567 12) pausedLcd
              ltac:(lia) Hco) as (_ & H1 & H0 & _).
  split; [rewrite H1; reflexivity | exact H0].
Defined.

(* ------------------------------------------------------------------ *)
(** ** What the display shows *)

Section Display.

#[local] Arguments digit : simpl never.

Implicit Types (l : Lcd) (s : Stopwatch) (p : Panel).

Lemma digit_ne_nul v : 0 <= v <= 9 -> digit v <> Ascii.zero.
Proof. intros Hv. apply (digit_cases v); auto; discriminate. Qed.

Ltac no_nul :=
  repeat (apply Forall_cons_2;
          [first [apply digit_ne_nul; lia | discriminate]|]);
  apply Forall_nil_2.

Lemma lineOk_pad16 line : lineOk line -> pad16 line = padded line.
Proof. intros [Hnz Hlen]. now apply pad16_padded. Qed.

Lemma lineOk_time us : lineOk (formatTimeFromUs us 12).
Proof.
  rewrite formatTimeFromUs_digits by lia. split; [|simpl; lia]. no_nul.
Qed.

Lemma lineOk_main s : (gLapCount s <= 99)%nat -> lineOk (mainLine s).
Proof.
  intros Hc. unfold mainLine, snprintf.
  rewrite fmtU_2 by lia.
  destruct (gState s); (split; [|rewrite length_take; simpl; lia]);
    (rewrite take_ge by (simpl; lia)); unfold text; simpl; no_nul.
Qed.

Lemma lineOk_lapSaved i : (i < 99)%nat -> lineOk (lapSavedLine i).
Proof.
  intros Hi. unfold lapSavedLine, snprintf.
  rewrite fmtU_2 by lia.
  split; [|rewrite length_take; simpl; lia].
  rewrite take_ge by (simpl; lia). unfold text; simpl. no_nul.
Qed.

Lemma lineOk_final s i d :
  (i < 99)%nat -> (gLapCount s <= 99)%nat -> lineOk (finalLine s i d).
Proof.
  intros Hi Hc. unfold finalLine, snprintf.
  rewrite !fmtU_2 by lia.
  destruct d; (split; [|rewrite length_take; simpl; lia]);
    (rewrite take_ge by (simpl; lia)); unfold text; simpl; no_nul.
Qed.

(** A render call on a usable cache leaves the display showing its two
    lines. *)
Lemma renderScreen_rows scr s l :
  lcdUsable l -> (gLapCount s <= 99)%nat ->
  (forall i, screenLap scr = Some i -> (i < 99)%nat) ->
  forall rows, screenRows scr s = Some rows ->
    lcdCoherent (renderScreen scr s l)
    /\ (lcdRow0 (renderScreen scr s l), lcdRow1 (renderScreen scr s l))
       = rows.
Proof.
  intros Hu Hc Hi rows Hrows.
  destruct scr as [|e|i|i d]; simpl in *; [discriminate| | |];
    injection Hrows as <-.
  - destruct (render_lines (mainLine s) (formatTimeFromUs e 12) l Hu)
      as (C & R0 & R1).
    split; [exact C|]. unfold renderMainScreen. rewrite R0, R1.
    now rewrite (lineOk_pad16 _ (lineOk_main s Hc)),
      (lineOk_pad16 _ (lineOk_time e)).
  - destruct (render_lines (lapSavedLine i)
                (formatTimeFromUs (gLapUs s !!! i) 12) l Hu)
      as (C & R0 & R1).
    split; [exact C|]. unfold renderLapSavedPopup. rewrite R0, R1.
    now rewrite (lineOk_pad16 _ (lineOk_lapSaved i (Hi i eq_refl))),
      (lineOk_pad16 _ (lineOk_time _)).
  - destruct (render_lines (finalLine s i d)
                (formatTimeFromUs
                   (if d then lapDeltaUs s i else gLapUs s !!! i) 12) l Hu)
      as (C & R0 & R1).
    split; [exact C|]. unfold renderFinalLapPopup. rewrite R0, R1.
    now rewrite (lineOk_pad16 _ (lineOk_final s i d (Hi i eq_refl) Hc)),
      (lineOk_pad16 _ (lineOk_time _)).
Qed.

Lemma renderScreen_coherent scr s l :
  lcdCoherent l -> lcdCoherent (renderScreen scr s l).
Proof.
  intros Hco. pose proof (lcdCoherent_usable l Hco) as Hu.
  destruct scr as [|e|i|i d]; simpl; [assumption| | |];
    now apply render_lines.
Qed.

Lemma lcdResetAll_rows l :
  length (lcdRow0 l) = 16%nat -> length (lcdRow1 l) = 16%nat ->
  lcdCoherent (lcdResetAll l)
  /\ lcdRow0 (lcdResetAll l) = padded (text "Crono V:00")
  /\ lcdRow1 (lcdResetAll l) = padded (text "00:00:000").
Proof.
  intros H0 H1.
  destruct (render_lines (mainLine resetStopwatch) (formatTimeFromUs 0 12)
              (lcdCacheClear l) (lcdCacheClear_usable l H0 H1))
    as (C & R0 & R1).
  split; [exact C|]. unfold lcdResetAll, renderMainScreen.
  rewrite R0, R1. split; reflexivity.
Qed.

(** The loop with its display: the firmware part is [loop], and the
    display stays coherent. *)
Lemma loopPanel_inv nowMs nowUs raw p :
  panelInv p -> panelInv (loopPanel nowMs nowUs raw p).
Proof.
  intros [Hf Hl]. unfold loopPanel. split; simpl.
  - apply (fwInv_step (FwLoop nowMs nowUs raw)); [exact I|assumption].
  - apply renderScreen_coherent.
    destruct (longPressDue _ _); [|assumption].
    destruct Hl as (H0 & H1 & _). now apply lcdResetAll_rows.
Qed.

Lemma runPanel_inv acts : forall p,
  Forall fwActionInRange acts -> panelInv p ->
  panelInv (runPanel acts p)
  /\ fst (runPanel acts p) = runFirmware acts (fst p).
Proof.
  induction acts as [|a acts IH]; intros p Hall Hp; simpl; [auto|].
  inversion Hall as [|? ? Ha Hrest]; subst.
  assert (Hstep : panelInv (stepPanel p a)
                  /\ fst (stepPanel p a) = stepFirmware (fst p) a).
  { destruct a as [e|ms us raw]; simpl.
    - split; [|reflexivity]. destruct Hp as [Hf Hl].
      split; [|exact Hl]. now apply (fwInv_step (FwEdge e)).
    - split; [|reflexivity]. now apply loopPanel_inv. }
  destruct Hstep as [Hinv Hfst].
  destruct (IH (stepPanel p a) Hrest Hinv) as [G1 G2].
  split; [exact G1|]. now rewrite G2, Hfst.
Qed.

Lemma bootPanel_inv initial t0 : panelInv (bootPanel initial t0).
Proof.
  split; [apply fwInv_boot|]. simpl.
  apply lcdResetAll_rows; reflexivity.
Qed.

End Display.

(** X23.  The display shows what was rendered last.  Run the program
    with its display from [setup()] through any sensor interrupts and loop
    iterations.  The firmware part of the run is the run of the program
    without display, and both cache lines always hold what the two rows of
    the display show.  In a further iteration, when step D renders a
    screen, the display afterwards shows exactly the two lines of that
    screen, each complete and filled with spaces to 16 columns: no text
    the sketch formats is cut, and no change is held back by the cache.
    When step D renders nothing, the display is left untouched, unless the
    long press fired in that iteration, in which case it shows the reset
    main screen. *)
Theorem display_shows_render (initial : bool) (t0 : Z)
    (acts : list FwAction) (nowMs nowUs : Z) (raw : bool) :
  Forall fwActionInRange acts ->
  let p := runPanel acts (bootPanel initial t0) in
  let p' := loopPanel nowMs nowUs raw p in
  let scr := snd (loop nowMs nowUs raw (fst p)) in
  let long :=
    longPressDue nowMs (btnUpdateFell nowMs raw (loopSensors nowMs (fst p))) in
  fst p = runFirmware acts (bootFirmware initial t0)
  /\ lcdCoherent (snd p)
  /\ lcdCoherent (snd p')
  /\ (forall rows, screenRows scr (sw (fst p')) = Some rows ->
        (lcdRow0 (snd p'), lcdRow1 (snd p')) = rows)
  /\ (scr = NoRender -> long = false -> snd p' = snd p)
  /\ (scr = NoRender -> long = true ->
      lcdRow0 (snd p') = padded (text "Crono V:00")
      /\ lcdRow1 (snd p') = padded (text "00:00:000")).
Proof.
  intros Hall p p' scr long.
  destruct (runPanel_inv acts (bootPanel initial t0) Hall
              (bootPanel_inv initial t0)) as [[Hf Hl] Hfst].
  fold p in Hf, Hl, Hfst.
  pose proof (loopPanel_inv nowMs nowUs raw p (conj Hf Hl)) as [Hf' Hl'].
  fold p' in Hf', Hl'.
  split; [exact Hfst|]. split; [exact Hl|]. split; [exact Hl'|].
  assert (Hl1 : lcdCoherent (if long then lcdResetAll (snd p) else snd p)).
  { destruct long; [|assumption].
    destruct Hl as (H0 & H1 & _). now apply lcdResetAll_rows. }
  split; [|split].
  - intros rows Hrows.
    pose proof Hf' as [_ (_ & Hcnt & _)].
    assert (Hidx : forall i, screenLap scr = Some i -> (i < 99)%nat).
    { intros i Hi. subst scr. unfold loop in *.
      set (g := loopElapsed nowUs (loopButton nowMs nowUs raw
                                     (loopSensors nowMs (fst p)))) in *.
      assert (Hg : fwInv g).
      { subst g. now apply fwInv_loopElapsed, fwInv_loopButton,
          fwInv_loopSensors. }
      destruct (fwInv_loopDisplay nowMs g Hg)
        as [[_ (_ & Hcnt' & _)] Hshow].
      specialize (Hshow i Hi). unfold kMaxLaps in *. lia. }
    apply (renderScreen_rows scr (sw (fst p'))
             (if long then lcdResetAll (snd p) else snd p)).
    + now apply lcdCoherent_usable.
    + simpl in Hcnt. unfold kMaxLaps in Hcnt. simpl. lia.
    + exact Hidx.
    + exact Hrows.
  - intros Hno Hlong. subst p'. unfold loopPanel. simpl.
    fold scr. fold long. rewrite Hno, Hlong. reflexivity.
  - intros Hno Hlong. subst p'. unfold loopPanel. simpl.
    fold scr. fold long. rewrite Hno, Hlong. simpl.
    destruct Hl as (H0 & H1 & _).
    now destruct (lcdResetAll_rows (snd p) H0 H1) as (_ & R0 & R1).
Qed.

Lemma display_shows_render_witness :
  (lcdRow0 (snd (loopPanel 200 200000 true
                   (runPanel lapShown (bootPanel true 0)))),
   lcdRow1 (snd (loopPanel 200 200000 true
                   (runPanel lapShown (bootPanel true 0)))))
  = (text "Volta 01 salva  ", text "00:00:070       ").
Proof.
  assert (Hall : Forall fwActionInRange lapShown).
  { unfold lapShown, kSensorCount. repeat constructor; simpl; lia. }
  destruct (display_shows_render true 0 lapShown 200 200000 true Hall)
    as (_ & _ & _ & Hrows & _).
  apply Hrows. vm_compute. reflexivity.
Defined.

(* ------------------------------------------------------------------ *)
(** ** Any number of clicks *)

(** X24.  A sequence of [k] short clicks, of any length, away from the
    wrap-around of [millis()].  Nothing is dispatched while the sequence
    lasts; the first quiet iteration at or after the last release plus
    [kMultiClickGapMs] calls [processClickSequence] once, with the count
    reduced modulo 256 as the 8-bit counter holds it.  So four clicks or
    more change nothing in the stopwatch (up to 255), the count is then
    cleared, and a count that wrapped to zero is never dispatched. *)
Theorem click_count_dispatch (f : Firmware) (iters : list Iter) (k : nat)
    (R : Z) (last : Iter) :
  gPendingClickCount f = 0%nat ->
  clicking (Up 0 None) f iters = Some (Up k (Some R)) ->
  btnPhase (runButton iters f) last = Some BtnQuiet ->
  R + kMultiClickGapMs <= iterMs last ->
  let f' := stepButton (runButton iters f) last in
  let n := (k mod 256)%nat in
  (forall pre post, iters = pre ++ post -> sw (runButton pre f) = sw f)
  /\ sw f' = processClickSequence n (iterUs last) (iterMs last) (sw f)
  /\ (n = 0%nat \/ (4 <= n)%nat -> sw f' = sw f)
  /\ gPendingClickCount f' = 0%nat
  /\ ((0 < n)%nat -> gClickSequenceDeadlineMs f' = 0).
Proof.
  intros Hzero Hrun Hquiet Hlate f' n.
  assert (Hinv0 : clickInv (sw f) (Up 0 None) f) by (repeat split; auto).
  pose proof (clicking_inv (sw f) iters _ f _ Hinv0 Hrun) as (Hsw & Hc & Hd).
  assert (Hn : (n < 256)%nat) by (subst n; lia).
  assert (Hdispatch :
    sw f' = processClickSequence n (iterUs last) (iterMs last) (sw f)
    /\ gPendingClickCount f' = 0%nat
    /\ ((0 < n)%nat -> gClickSequenceDeadlineMs f' = 0)).
  { destruct (decide (n = 0%nat)) as [Hz|Hnz].
    - subst f'. fold n in Hc. rewrite Hz in *.
      unfold btnPhase in Hquiet.
      unfold stepButton, loopButton, btnUpdateFell, fell.
      destruct (update (inBtnControl (runButton iters f)) (iterMs last)
                       (iterRaw last)) as [db st lr lc fe re].
      unfold isPressed in Hquiet. simpl in Hquiet.
      destruct fe, re, st; simpl in Hquiet; try discriminate.
      unfold btnLongPress, isPressed; simpl.
      unfold btnRose, rose; simpl.
      unfold btnResolve, isPressed; simpl. rewrite Hc. simpl.
      split; [exact Hsw|split; [reflexivity|intros; lia]].
    - assert (Hinv : clickInv (sw f) (Up n (Some R)) (runButton iters f)).
      { repeat split; [assumption| |assumption].
        rewrite Hc. subst n. now rewrite Nat.Div0.mod_mod. }
      destruct (click_expiry (sw f) n R (runButton iters f) last Hinv
                  ltac:(lia) Hquiet Hlate) as (E1 & E2 & E3).
      split; [exact E1|split; [exact E2|intros _; exact E3]]. }
  destruct Hdispatch as (D1 & D2 & D3).
  split.
  { intros pre post ->.
    destruct (clicking_prefix pre _ f post _ Hrun) as [pos1 Hpre].
    now destruct (clicking_inv (sw f) pre _ f pos1 Hinv0 Hpre) as [Hs _]. }
  split; [exact D1|]. split; [|split; assumption].
  intros Hfew. rewrite D1.
  destruct Hfew as [->|Hmany]; [reflexivity|].
  do 4 (destruct n as [|n]; [lia|]). reflexivity.
Qed.

Lemma click_count_dispatch_witness :
  sw (stepButton (runButton fourClicks runningFirmware)
                 (2200, 2200000, true))
  = sw runningFirmware
  /\ gPendingClickCount (stepButton (runButton fourClicks runningFirmware)
                                    (2200, 2200000, true)) = 0%nat.
Proof.
  assert (Hrun : clicking (Up 0 None) runningFirmware fourClicks
                 = Some (Up 4 (Some 1830)))
    by (vm_compute; reflexivity).
  assert (Hquiet : btnPhase (runButton fourClicks runningFirmware)
                            (2200, 2200000, true) = Some BtnQuiet)
    by (vm_compute; reflexivity).
  assert (Hlate : 1830 + kMultiClickGapMs <= iterMs (2200, 2200000, true))
    by (vm_compute; discriminate).
  destruct (click_count_dispatch runningFirmware fourClicks 4 1830
              (2200, 2200000, true) eq_refl Hrun Hquiet Hlate)
    as (_ & _ & Hsame & Hcount & _).
  split; [|exact Hcount].
  apply Hsame. right. vm_compute. lia.
Defined.
